(** * RDT 3.0 receiver (receiver.py): checksum codec, ack packets and the
    alternating-bit receive loop.

    The Python program is embedded function by function.  A Python [str] is a
    list of Unicode code points, a [bytes] object a list of byte values; the
    UTF-8 codec between them is written out, because [checksum] sums encoded
    bytes while [len] and slicing count code points.  Python integers are [Z].
    Exceptions are values of [exn]; a call that may raise returns a [result].

    The socket is the environment of the data phase: its answers to
    [recv(30)] and [sendall] are given, pass by pass, as a list of [io]
    records, and the loop of [start_receiver] is a function of that list and
    of the session (the local variables of [start_receiver]).

    The whole call of [start_receiver] and the entry point of the script are
    built on top of that: the socket answers from a [socket_script], the
    three time stamps come from a [clock], and a call yields a [run]: the
    lines printed, the byte strings sent, whether the socket was closed, and
    how the call ended.  Creating the socket, [settimeout], [close] and
    [print] are taken to succeed.

    Definitions come first, then the properties: strings and UTF-8, the
    checksum codec, single passes of the loop, the loop, the statistics, the
    theorems at sample traffic, and then further properties of the codec,
    of the loop, of the handshake and of whole runs. *)

From Stdlib Require Import String Ascii NArith ZArith List Bool Lia.
Import ListNotations.

Open Scope Z_scope.

(** ** Python values *)

(** Code points of a [str]; a Python string only holds values below 0x110000. *)
Definition str := list N.

(** Byte values of a [bytes] object, each below 256. *)
Definition bytes := list N.

(** An ASCII literal of the source as a [str]. *)
Definition py (s : string) : str :=
  map N_of_ascii (list_ascii_of_string s).

(** The exception classes that the modelled code can meet.  The three
    [Connection...Error] classes and [BrokenPipeError] are sibling subclasses
    of [ConnectionError]; none is a subclass of another. *)
Inductive exn : Type :=
| UnicodeEncodeError
| UnicodeDecodeError
| ValueError
| IndexError
| ConnectionAbortedError
| ConnectionResetError
| BrokenPipeError
| TimeoutError
| OSError.

Inductive result (A : Type) : Type :=
| Ok (a : A)
| Raise (e : exn).
Arguments Ok {A} a.
Arguments Raise {A} e.

Definition rbind {A B : Type} (r : result A) (k : A -> result B) : result B :=
  match r with
  | Ok a => k a
  | Raise e => Raise e
  end.

Declare Scope result_scope.
Delimit Scope result_scope with result.
Notation "x <- r ;; k" := (rbind r (fun x => k))
  (at level 61, r at next level, right associativity) : result_scope.

(** [a == b] on strings. *)
Fixpoint str_eqb (a b : str) : bool :=
  match a, b with
  | [], [] => true
  | x :: a', y :: b' => (x =? y)%N && str_eqb a' b'
  | _, _ => false
  end.

(** [msg[:-k]], [msg[-k:]] and [msg[lo:hi]] for literal bounds [0 < k] and
    [0 <= lo <= hi]: slices never raise, they clip to the string. *)
Definition slice_drop_last (k : nat) (msg : str) : str :=
  firstn (length msg - k) msg.

Definition slice_last (k : nat) (msg : str) : str :=
  skipn (length msg - k) msg.

Definition slice (lo hi : nat) (msg : str) : str :=
  firstn (hi - lo) (skipn lo msg).

(** [msg[0]] as a code point; an empty string raises. *)
Definition subscript0 (msg : str) : result N :=
  match msg with
  | [] => Raise IndexError
  | c :: _ => Ok c
  end.

(** ** UTF-8 *)

(** [chr(c).encode("utf-8")].  Lone surrogates cannot be encoded. *)
Definition encode_char (c : N) : result bytes :=
  if (c <? 0x80)%N then Ok [c]
  else if (c <? 0x800)%N then
    Ok [N.lor 0xC0 (N.shiftr c 6); N.lor 0x80 (N.land c 0x3F)]
  else if (c <? 0x10000)%N then
    if ((0xD800 <=? c) && (c <=? 0xDFFF))%N then Raise UnicodeEncodeError
    else Ok [N.lor 0xE0 (N.shiftr c 12);
             N.lor 0x80 (N.land (N.shiftr c 6) 0x3F);
             N.lor 0x80 (N.land c 0x3F)]
  else if (c <? 0x110000)%N then
    Ok [N.lor 0xF0 (N.shiftr c 18);
        N.lor 0x80 (N.land (N.shiftr c 12) 0x3F);
        N.lor 0x80 (N.land (N.shiftr c 6) 0x3F);
        N.lor 0x80 (N.land c 0x3F)]
  else Raise UnicodeEncodeError.

(** [msg.encode("utf-8")] *)
Fixpoint encode_utf8 (msg : str) : result bytes :=
  match msg with
  | [] => Ok []
  | c :: rest =>
      match encode_char c, encode_utf8 rest with
      | Ok b, Ok bs => Ok (b ++ bs)
      | Raise e, _ => Raise e
      | _, Raise e => Raise e
      end
  end.

Definition is_cont (b : N) : bool := ((0x80 <=? b) && (b <=? 0xBF))%N.

Definition cont_bits (b : N) : N := N.land b 0x3F.

(** [raw.decode("utf-8")] with the default strict error handler: truncated
    sequences, stray continuation bytes, overlong forms, surrogates and values
    past 0x10FFFF all raise [UnicodeDecodeError]. *)
Fixpoint decode_utf8 (raw : bytes) : result str :=
  match raw with
  | [] => Ok []
  | b0 :: r1 =>
      if (b0 <? 0x80)%N then
        match decode_utf8 r1 with
        | Ok s => Ok (b0 :: s)
        | Raise e => Raise e
        end
      else if ((0xC2 <=? b0) && (b0 <=? 0xDF))%N then
        match r1 with
        | b1 :: r2 =>
            if is_cont b1 then
              match decode_utf8 r2 with
              | Ok s => Ok (N.lor (N.shiftl (N.land b0 0x1F) 6) (cont_bits b1) :: s)
              | Raise e => Raise e
              end
            else Raise UnicodeDecodeError
        | _ => Raise UnicodeDecodeError
        end
      else if ((0xE0 <=? b0) && (b0 <=? 0xEF))%N then
        match r1 with
        | b1 :: b2 :: r3 =>
            let c := N.lor (N.shiftl (N.land b0 0x0F) 12)
                       (N.lor (N.shiftl (cont_bits b1) 6) (cont_bits b2)) in
            if (is_cont b1 && is_cont b2 && (0x800 <=? c)%N
                && negb ((0xD800 <=? c) && (c <=? 0xDFFF))%N)%bool then
              match decode_utf8 r3 with
              | Ok s => Ok (c :: s)
              | Raise e => Raise e
              end
            else Raise UnicodeDecodeError
        | _ => Raise UnicodeDecodeError
        end
      else if ((0xF0 <=? b0) && (b0 <=? 0xF4))%N then
        match r1 with
        | b1 :: b2 :: b3 :: r4 =>
            let c := N.lor (N.shiftl (N.land b0 0x07) 18)
                       (N.lor (N.shiftl (cont_bits b1) 12)
                          (N.lor (N.shiftl (cont_bits b2) 6) (cont_bits b3))) in
            if (is_cont b1 && is_cont b2 && is_cont b3
                && (0x10000 <=? c)%N && (c <? 0x110000)%N)%bool then
              match decode_utf8 r4 with
              | Ok s => Ok (c :: s)
              | Raise e => Raise e
              end
            else Raise UnicodeDecodeError
        | _ => Raise UnicodeDecodeError
        end
      else Raise UnicodeDecodeError
  end.

(** ** Decimal formatting of integers *)

(** Decimal digits of [n], most significant first, pushed in front of [acc];
    [fuel] bounds the number of digits. *)
Fixpoint digits_aux (fuel : nat) (n : N) (acc : str) : str :=
  match fuel with
  | O => acc
  | S k =>
      let acc' := (48 + n mod 10)%N :: acc in
      if (n <? 10)%N then acc' else digits_aux k (n / 10)%N acc'
  end.

(** A number has no more decimal digits than binary ones. *)
Definition decimal (n : N) : str := digits_aux (S (N.size_nat n)) n [].

(** [str(z)], as used by ["{}".format(z)] on an integer. *)
Definition str_of_int (z : Z) : str :=
  if z <? 0 then 45%N :: decimal (Z.to_N (- z)) else decimal (Z.to_N z).

(** Zero padding on the left up to [width] characters. *)
Definition zfill (width : nat) (s : str) : str :=
  repeat 48%N (width - length s) ++ s.

(** [format(z, '05d')]: sign-aware zero padding to a minimum width of 5. *)
Definition format_05d (z : Z) : str :=
  if z <? 0 then 45%N :: zfill 4 (decimal (Z.to_N (- z)))
  else zfill 5 (decimal (Z.to_N z)).

(** The character ['0' + d]. *)
Definition digit_char (d : Z) : N := Z.to_N (48 + d).

(** The five decimal digits of [s], most significant first: the decimal
    representation of [s] padded with zeros to five characters, for
    [0 <= s < 100000]. *)
Definition five_digits (s : Z) : str :=
  map digit_char
    [s / 10000 mod 10; s / 1000 mod 10; s / 100 mod 10; s / 10 mod 10; s mod 10].

(** ** Checksum codec (receiver.py, lines 15-57) *)

(** The accumulation loop [for i in range(0, len(msg), 1): s += msg[i]]. *)
Definition sum_bytes (b : bytes) : Z :=
  fold_left (fun s x => s + Z.of_N x) b 0.

Definition checksum (msg : str) : result str :=
  (b <- encode_utf8 msg ;;
   Ok (format_05d (sum_bytes b)))%result.

Definition expected_packet_length : nat := 30.

Definition checksum_verifier (msg : str) : result bool :=
  if (length msg <? expected_packet_length)%nat then Ok false
  else
    let content := slice_drop_last 5 msg in
    (calc_checksum <- checksum content ;;
     let expected_checksum := slice_last 5 msg in
     if str_eqb calc_checksum expected_checksum then Ok true else Ok false)%result.

(** ** The receiver session (receiver.py, [start_receiver], lines 117-231) *)

(** The local variables of [start_receiver] that the data phase mutates,
    together with [outbox]: the byte strings that [clientSocket.sendall]
    took, oldest first (a call that raised adds nothing). *)
Record session : Type := mkSession {
  data : str;
  total_packet_sent : Z;
  total_packet_recv : Z;
  total_corrupted_pkt_recv : Z;
  ACK : Z;
  SEQ : Z;
  outbox : list bytes
}.

(** Lines 121-126, with nothing sent yet. *)
Definition initial : session :=
  {| data := []; total_packet_sent := 0; total_packet_recv := 0;
     total_corrupted_pkt_recv := 0; ACK := 0; SEQ := 0; outbox := [] |}.

(** What the socket answers during one pass through the loop: the outcome of
    [clientSocket.recv(30)] (bytes, empty when the peer has closed, or an
    exception) and the outcome of the one [sendall] the pass may reach. *)
Record io : Type := mkIo {
  recv_reply : result bytes;
  sendall_reply : result unit
}.

(** The socket returns [raw] from [recv] and takes the reply. *)
Definition deliver (raw : bytes) : io :=
  {| recv_reply := Ok raw; sendall_reply := Ok tt |}.

(** [recv] raises [e]. *)
Definition recv_raises (e : exn) : io :=
  {| recv_reply := Raise e; sendall_reply := Ok tt |}.

(** How a statement of the loop body ends: normally with a value, by
    [continue], by [break], or by raising. *)
Inductive flow (A : Type) : Type :=
| Val (a : A)
| Continue
| Break
| Throw (e : exn).
Arguments Val {A} a.
Arguments Continue {A}.
Arguments Break {A}.
Arguments Throw {A} e.

(** Statements: they read and update the session and end in a [flow]. *)
Definition stmt (A : Type) : Type := session -> session * flow A.

Definition ret {A : Type} (a : A) : stmt A := fun s => (s, Val a).

Definition bind {A B : Type} (m : stmt A) (k : A -> stmt B) : stmt B :=
  fun s =>
    match m s with
    | (s', Val a) => k a s'
    | (s', Continue) => (s', Continue)
    | (s', Break) => (s', Break)
    | (s', Throw e) => (s', Throw e)
    end.

Declare Scope stmt_scope.
Delimit Scope stmt_scope with stmt.
Notation "x <- m ;; k" := (bind m (fun x => k))
  (at level 61, m at next level, right associativity) : stmt_scope.
Notation "m ;; k" := (bind m (fun _ => k))
  (at level 61, right associativity) : stmt_scope.

(** A call that may raise, used as a statement. *)
Definition call {A : Type} (r : result A) : stmt A :=
  fun s => match r with
           | Ok a => (s, Val a)
           | Raise e => (s, Throw e)
           end.

Definition get {A : Type} (f : session -> A) : stmt A := fun s => (s, Val (f s)).

Definition update (f : session -> session) : stmt unit := fun s => (f s, Val tt).

Definition continue_ : stmt unit := fun s => (s, Continue).

Definition break_ : stmt unit := fun s => (s, Break).

(** The assignments of the loop body. *)
Definition incr_total_packet_recv (s : session) : session :=
  {| data := data s; total_packet_sent := total_packet_sent s;
     total_packet_recv := total_packet_recv s + 1;
     total_corrupted_pkt_recv := total_corrupted_pkt_recv s;
     ACK := ACK s; SEQ := SEQ s; outbox := outbox s |}.

Definition incr_total_corrupted_pkt_recv (s : session) : session :=
  {| data := data s; total_packet_sent := total_packet_sent s;
     total_packet_recv := total_packet_recv s;
     total_corrupted_pkt_recv := total_corrupted_pkt_recv s + 1;
     ACK := ACK s; SEQ := SEQ s; outbox := outbox s |}.

Definition incr_total_packet_sent (s : session) : session :=
  {| data := data s; total_packet_sent := total_packet_sent s + 1;
     total_packet_recv := total_packet_recv s;
     total_corrupted_pkt_recv := total_corrupted_pkt_recv s;
     ACK := ACK s; SEQ := SEQ s; outbox := outbox s |}.

Definition append_data (payload : str) (s : session) : session :=
  {| data := data s ++ payload; total_packet_sent := total_packet_sent s;
     total_packet_recv := total_packet_recv s;
     total_corrupted_pkt_recv := total_corrupted_pkt_recv s;
     ACK := ACK s; SEQ := SEQ s; outbox := outbox s |}.

Definition set_ACK (v : Z) (s : session) : session :=
  {| data := data s; total_packet_sent := total_packet_sent s;
     total_packet_recv := total_packet_recv s;
     total_corrupted_pkt_recv := total_corrupted_pkt_recv s;
     ACK := v; SEQ := SEQ s; outbox := outbox s |}.

Definition set_SEQ (v : Z) (s : session) : session :=
  {| data := data s; total_packet_sent := total_packet_sent s;
     total_packet_recv := total_packet_recv s;
     total_corrupted_pkt_recv := total_corrupted_pkt_recv s;
     ACK := ACK s; SEQ := v; outbox := outbox s |}.

Definition push_outbox (b : bytes) (s : session) : session :=
  {| data := data s; total_packet_sent := total_packet_sent s;
     total_packet_recv := total_packet_recv s;
     total_corrupted_pkt_recv := total_corrupted_pkt_recv s;
     ACK := ACK s; SEQ := SEQ s; outbox := outbox s ++ [b] |}.

Definition spaces : str := py "                    ".

(** Lines 128-132. *)
Definition make_packet (ack : Z) : result str :=
  let packet := py "  " ++ str_of_int ack ++ py " " ++ spaces ++ py " " in
  (packet_checksum <- checksum packet ;;
   Ok (packet ++ packet_checksum))%result.

(** Lines 134-138: the packet is encoded, then the socket either takes the
    bytes or raises. *)
Definition send_packet (ev : io) (packet : str) : stmt unit :=
  (b <- call (encode_utf8 packet) ;;
   call (sendall_reply ev) ;;
   update (push_outbox b))%stmt.

(** The bytes that [send_packet(make_packet(bit))] hands to the socket. *)
Definition ack_on_wire (bit : Z) : result bytes :=
  (packet <- make_packet bit ;; encode_utf8 packet)%result.

(** Lines 140-141. *)
Definition is_corrupt (recv_message : str) : result bool :=
  (ok <- checksum_verifier recv_message ;; Ok (negb ok))%result.

Section Receiver.

(** [int] accepts every Unicode decimal digit.  Which code points past
    ASCII are decimal digits, and with what value, is a table of the Python
    runtime ([unicodedata.decimal]); the receiver is modelled for any such
    table. *)
Variable unicode_decimal : N -> option Z.

(** [int(c)] for a string [c] of one character: its digit value, and
    [ValueError] for anything else (a blank included). *)
Definition int_of_char (c : N) : result Z :=
  if (c <? 128)%N then
    if ((48 <=? c) && (c <=? 57))%N then Ok (Z.of_N c - 48)
    else Raise ValueError
  else
    match unicode_decimal c with
    | Some d => Ok d
    | None => Raise ValueError
    end.

(** [int(recv_message[0])], line 177. *)
Definition seq_num_of (recv_message : str) : result Z :=
  (c <- subscript0 recv_message ;; int_of_char c)%result.

(** The body of the [try] block, lines 150-204. *)
Definition try_body (ev : io) : stmt unit :=
  (raw <- call (recv_reply ev) ;;
   recv_message <- call (decode_utf8 raw) ;;
   (if str_eqb recv_message [] then break_ else ret tt) ;;
   update incr_total_packet_recv ;;
   corrupt <- call (is_corrupt recv_message) ;;
   (if corrupt : bool then
      update incr_total_corrupted_pkt_recv ;;
      ack <- get ACK ;;
      packet <- call (make_packet ((ack + 1) mod 2)) ;;
      send_packet ev packet ;;
      update incr_total_packet_sent ;;
      continue_
    else ret tt) ;;
   seq_num <- call (seq_num_of recv_message) ;;
   seq <- get SEQ ;;
   (if negb (seq_num =? seq) then
      ack <- get ACK ;;
      packet <- call (make_packet ((ack + 1) mod 2)) ;;
      send_packet ev packet ;;
      update incr_total_packet_sent ;;
      continue_
    else ret tt) ;;
   update (append_data (slice 4 24 recv_message)) ;;
   ack <- get ACK ;;
   packet <- call (make_packet ack) ;;
   send_packet ev packet ;;
   update incr_total_packet_sent ;;
   ack <- get ACK ;;
   update (set_ACK ((ack + 1) mod 2)) ;;
   seq <- get SEQ ;;
   update (set_SEQ ((seq + 1) mod 2)))%stmt.

(** One pass of [while True], lines 148-206: the [try] body under
    [except ConnectionAbortedError: break]. *)
Definition iteration (ev : io) : stmt unit :=
  fun s =>
    match try_body ev s with
    | (s', Throw ConnectionAbortedError) => (s', Break)
    | other => other
    end.

(** Where the loop stands after the socket has given the answers [evs]:
    still inside it, waiting in [recv]; left through [break]; or left by an
    exception that propagates out of [start_receiver]. *)
Inductive loop_end : Type :=
| Waiting (s : session)
| Exited (s : session)
| Propagated (e : exn) (s : session).

Fixpoint receive_loop (evs : list io) (s : session) : loop_end :=
  match evs with
  | [] => Waiting s
  | ev :: evs' =>
      match iteration ev s with
      | (s', Val _) => receive_loop evs' s'
      | (s', Continue) => receive_loop evs' s'
      | (s', Break) => Exited s'
      | (s', Throw e) => Propagated e s'
      end
  end.

(** The number of passes over [evs] that ran the accepting branch (lines
    190-204) to its end: these are the passes whose [try] body finishes
    without [continue], [break] or an exception. *)
Fixpoint accepted_count (evs : list io) (s : session) : nat :=
  match evs with
  | [] => 0%nat
  | ev :: evs' =>
      match iteration ev s with
      | (s', Val _) => S (accepted_count evs' s')
      | (s', Continue) => accepted_count evs' s'
      | (_, Break) => 0%nat
      | (_, Throw _) => 0%nat
      end
  end.

End Receiver.

(** [data.rstrip(' ')] *)
Fixpoint lstrip_space (s : str) : str :=
  match s with
  | c :: s' => if (c =? 32)%N then lstrip_space s' else s
  | [] => []
  end.

Definition rstrip_space (s : str) : str := rev (lstrip_space (rev s)).

(** What [start_receiver] prints after the loop (lines 216-231). *)
Record report : Type := mkReport {
  file_checksum : str;
  report_sent : Z;
  report_recv : Z;
  report_corrupted : Z
}.

(** Lines 216-231 as a function of the session the loop left behind. *)
Definition finish (s : session) : result report :=
  let data' := rstrip_space (data s) in
  (c <- checksum data' ;;
   Ok {| file_checksum := c;
         report_sent := total_packet_sent s;
         report_recv := total_packet_recv s;
         report_corrupted := total_corrupted_pkt_recv s |})%result.

(** The data phase of [start_receiver] against the socket answers [evs]. *)
Inductive session_end : Type :=
| StillReceiving (s : session)
| Reported (r : report)
| Uncaught (e : exn).

Definition receive_file (unicode_decimal : N -> option Z) (evs : list io)
  : session_end :=
  match receive_loop unicode_decimal evs initial with
  | Waiting s => StillReceiving s
  | Exited s =>
      match finish s with
      | Ok r => Reported r
      | Raise e => Uncaught e
      end
  | Propagated e _ => Uncaught e
  end.

(** ** Sessions named in the statements *)

(** The session after a pass that answered with one packet. *)
Definition replied (s : session) (corrupted : Z) (wire : bytes) : session :=
  {| data := data s;
     total_packet_sent := total_packet_sent s + 1;
     total_packet_recv := total_packet_recv s + 1;
     total_corrupted_pkt_recv := total_corrupted_pkt_recv s + corrupted;
     ACK := ACK s; SEQ := SEQ s;
     outbox := outbox s ++ [wire] |}.

(** The session after a pass that accepted [pkt]. *)
Definition accepted (s : session) (pkt : str) (wire : bytes) : session :=
  {| data := data s ++ slice 4 24 pkt;
     total_packet_sent := total_packet_sent s + 1;
     total_packet_recv := total_packet_recv s + 1;
     total_corrupted_pkt_recv := total_corrupted_pkt_recv s;
     ACK := (ACK s + 1) mod 2; SEQ := (SEQ s + 1) mod 2;
     outbox := outbox s ++ [wire] |}.

(** The session in which the loop stands or which it left behind. *)
Definition session_of (e : loop_end) : session :=
  match e with
  | Waiting s => s
  | Exited s => s
  | Propagated _ s => s
  end.

(** Neither state bit moved.  The buffer is untouched, unless the socket
    refused the acknowledgment of a verified packet whose payload had already
    been appended. *)
Definition unmoved (ev : io) (s s' : session) : Prop :=
  ACK s' = ACK s /\ SEQ s' = SEQ s /\
  (data s' = data s \/
   (sendall_reply ev <> Ok tt /\
    exists pkt, checksum_verifier pkt = Ok true /\
                data s' = data s ++ slice 4 24 pkt)).

(** A verified packet's payload was appended and both bits advanced. *)
Definition advanced (s s' : session) : Prop :=
  exists pkt, checksum_verifier pkt = Ok true /\
    data s' = data s ++ slice 4 24 pkt /\
    ACK s' = (ACK s + 1) mod 2 /\ SEQ s' = (SEQ s + 1) mod 2.

(** How a pass ends tells what it did: a body that runs to its end has
    accepted a verified packet and advanced both bits; any other ending
    leaves both bits alone. *)
Definition pass_effect (ev : io) (s : session) (r : session * flow unit) : Prop :=
  match r with
  | (s', Val _) => advanced s s'
  | (s', _) => unmoved ev s s'
  end.

(** The statistics agree with the traffic: the packets counted as sent are
    those the socket took, and no counter runs ahead of the packets
    received. *)
Definition counters_consistent (s : session) : Prop :=
  total_packet_sent s = Z.of_nat (length (outbox s)) /\
  total_packet_sent s <= total_packet_recv s /\
  0 <= total_corrupted_pkt_recv s <= total_packet_recv s.

(** Text that is ASCII throughout. *)
Definition ascii_only (s : list N) : Prop := Forall (fun c => (c < 128)%N) s.

(** Text without lone surrogates or values past 0x10FFFF. *)
Definition encodable (s : str) : Prop := exists b, encode_utf8 s = Ok b.

(** ** Sample traffic *)

(** A fragment of the runtime's table of decimal digits past ASCII: the
    Arabic-Indic digits U+0660..U+0669 and the fullwidth digits
    U+FF10..U+FF19. *)
Definition sample_decimal_table (c : N) : option Z :=
  if ((0x660 <=? c) && (c <=? 0x669))%N then Some (Z.of_N c - 0x660)
  else if ((0xFF10 <=? c) && (c <=? 0xFF19))%N then Some (Z.of_N c - 0xFF10)
  else None.

(** The data packet of the docstrings of [checksum] and [checksum_verifier],
    with sequence bit 1, and the same payload under sequence bit 0. *)
Definition pkt_seq1 : str := py "1 0 That was the time fo 02018".

Definition pkt_seq0 : str := py "0 0 That was the time fo 02017".

(** [pkt_seq0] with one payload character altered on the way. *)
Definition pkt_damaged : str := py "0 0 That was the tame fo 02017".

(** ** Proof tactics *)

(** Linear arithmetic with division and remainder by constants. *)
Ltac ndm := zify; Z.to_euclidean_division_equations; lia.

(** Opens the [try] body and its statements at a given socket answer. *)
Ltac unfold_pass :=
  unfold try_body, bind, call, deliver, is_corrupt, send_packet, get, update,
    ret, continue_, break_; cbn [recv_reply sendall_reply].

(** ** Further definitions *)

(** A string of decimal digits read as a number, left to right. *)
Definition digits_value (s : str) : Z :=
  fold_left (fun x c => 10 * x + (Z.of_N c - 48)) s 0.

(** The session after a pass whose reply the socket refused with an
    exception: the message was counted ([corrupted] says whether as corrupt
    too) and, when it had been accepted, its payload [payload] appended;
    nothing else moved. *)
Definition unanswered (s : session) (corrupted : Z) (payload : str) : session :=
  {| data := data s ++ payload;
     total_packet_sent := total_packet_sent s;
     total_packet_recv := total_packet_recv s + 1;
     total_corrupted_pkt_recv := total_corrupted_pkt_recv s + corrupted;
     ACK := ACK s; SEQ := SEQ s;
     outbox := outbox s |}.

(** Everything one pass can do, as five cases. *)
Inductive pass_outcome (ev : io) (s : session) : session * flow unit -> Prop :=
| pass_no_message (f : flow unit) :
    (* [recv] raised, the bytes did not decode, or the read was empty *)
    f <> Val tt -> f <> Continue ->
    pass_outcome ev s (s, f)
| pass_counted_only (e : exn) :
    (* the message was counted, then [int] raised *)
    pass_outcome ev s (incr_total_packet_recv s, Throw e)
| pass_refused (corrupted : Z) (wire : bytes) :
    (corrupted = 0 \/ corrupted = 1) ->
    ack_on_wire ((ACK s + 1) mod 2) = Ok wire ->
    sendall_reply ev = Ok tt ->
    pass_outcome ev s (replied s corrupted wire, Continue)
| pass_accepted (pkt : str) (wire : bytes) :
    checksum_verifier pkt = Ok true ->
    ack_on_wire (ACK s) = Ok wire ->
    sendall_reply ev = Ok tt ->
    pass_outcome ev s (accepted s pkt wire, Val tt)
| pass_unanswered (corrupted : Z) (payload : str) (e : exn) :
    (corrupted = 0 \/ corrupted = 1) ->
    sendall_reply ev = Raise e ->
    pass_outcome ev s (unanswered s corrupted payload, Throw e).

(** The two acknowledgment frames, as they go over the wire. *)
Definition frame0 : bytes := py "  0                      00816".

Definition frame1 : bytes := py "  1                      00817".

(** Traffic in which every message is either the next packet in sequence, a
    damaged message, or a verified packet with another sequence number (a
    retransmission).  [in_sequence b raws pkts damaged]: with [b] the
    expected sequence number, the reads [raws] carry the in-sequence packets
    [pkts], in this order, and [damaged] damaged messages between them. *)
Inductive in_sequence (unicode_decimal : N -> option Z)
  : Z -> list bytes -> list str -> Z -> Prop :=
| seq_end (b : Z) : in_sequence unicode_decimal b [] [] 0
| seq_next (b : Z) (raw : bytes) (pkt : str) raws pkts damaged :
    decode_utf8 raw = Ok pkt ->
    checksum_verifier pkt = Ok true ->
    seq_num_of unicode_decimal pkt = Ok b ->
    in_sequence unicode_decimal ((b + 1) mod 2) raws pkts damaged ->
    in_sequence unicode_decimal b (raw :: raws) (pkt :: pkts) damaged
| seq_damaged (b : Z) (raw : bytes) (msg : str) raws pkts damaged :
    decode_utf8 raw = Ok msg -> msg <> [] ->
    checksum_verifier msg = Ok false ->
    in_sequence unicode_decimal b raws pkts damaged ->
    in_sequence unicode_decimal b (raw :: raws) pkts (damaged + 1)
| seq_repeat (b : Z) (raw : bytes) (msg : str) (n : Z) raws pkts damaged :
    decode_utf8 raw = Ok msg ->
    checksum_verifier msg = Ok true ->
    seq_num_of unicode_decimal msg = Ok n -> n <> b ->
    in_sequence unicode_decimal b raws pkts damaged ->
    in_sequence unicode_decimal b (raw :: raws) pkts damaged.

(** What the replies sent so far look like, given the bit now expected. *)
Definition replies_fit (s : session) : Prop :=
  (ACK s = 0 \/ ACK s = 1) /\
  Forall (fun w => w = frame0 \/ w = frame1) (outbox s) /\
  (forall front w, outbox s = front ++ [w] ->
     ack_on_wire ((ACK s + 1) mod 2) = Ok w).

(** ** The whole of [start_receiver] (receiver.py, lines 59-231) and the
    script's entry point (lines 238-248) *)

(** [s.startswith(prefix)] *)
Fixpoint startswith (prefix s : str) : bool :=
  match prefix, s with
  | [], _ => true
  | p :: prefix', c :: s' => (p =? c)%N && startswith prefix' s'
  | _ :: _, [] => false
  end.

(** [s[k:]] *)
Definition slice_from (k : nat) (s : str) : str := skipn k s.

(** [str(datetime.datetime.now())] at the three places that print it. *)
Record clock : Type := mkClock {
  t_start : str;
  t_established : str;
  t_done : str
}.

(** What the socket answers over one call of [start_receiver]: to
    [connect] (with the text [str(e)] of the exception, if it raises one), to
    the [sendall] of the request, to the calls of [recv] in order (those of
    the handshake first), and to the calls of [sendall] of the data phase,
    by their number. *)
Record socket_script : Type := mkScript {
  connect_reply : result unit;
  connect_error_text : str;
  hello_reply : result unit;
  recv_replies : list (result bytes);
  sendall_replies : nat -> result unit
}.

(** [socket.error] is [OSError]: the classes [except socket.error]
    catches. *)
Definition is_socket_error (e : exn) : bool :=
  match e with
  | ConnectionAbortedError | ConnectionResetError | BrokenPipeError
  | TimeoutError | OSError => true
  | UnicodeEncodeError | UnicodeDecodeError | ValueError | IndexError => false
  end.

(** How a call ends: it returns, the script exits, an exception leaves it,
    or it is still blocked in [recv] when the script of the socket ends. *)
Inductive ending : Type :=
| Returned
| SystemExit
| Raised (e : exn)
| Blocked.

(** What a call has done: the lines printed, the byte strings that
    [sendall] took (a call of [sendall] that raised adds nothing), whether
    [clientSocket.close()] was called, and how the call ended. *)
Record run : Type := mkRun {
  printed : list str;
  sent : list bytes;
  socket_closed : bool;
  ended : ending
}.

Definition name : str := py "Ido".

(** Line 92. *)
Definition hello_message (connection_ID loss_rate corrupt_rate max_delay : str)
  : str :=
  py "HELLO R " ++ loss_rate ++ py " " ++ corrupt_rate ++ py " " ++ max_delay
    ++ py " " ++ connection_ID.

Definition waiting_line : str := py "Waiting for a sender".

Definition error_line (recv_message : str) : str :=
  py "Error: " ++ slice_from 6 recv_message.

Definition invalid_line (recv_message : str) : str :=
  py "Error: Invalid message format from server during connection phrase... "
    ++ recv_message.

(** How the loop of lines 98-113 ends: with the channel established (and the
    answers of [recv] not yet consumed), by [return], by an exception, or
    blocked in [recv]; each with the lines printed so far. *)
Inductive handshake_end : Type :=
| Established (lines : list str) (rest : list (result bytes))
| Refused (lines : list str)
| HandshakeRaised (e : exn) (lines : list str)
| HandshakeBlocked (lines : list str).

(** Lines 98-113: [while not recv_message.startswith("OK")]. *)
Fixpoint handshake_loop (replies : list (result bytes)) (recv_message : str)
    (lines : list str) : handshake_end :=
  if startswith (py "OK") recv_message then Established lines replies
  else if startswith (py "WAITING") recv_message then
    let lines := lines ++ [waiting_line] in
    match replies with
    | [] => HandshakeBlocked lines
    | Raise e :: _ => HandshakeRaised e lines
    | Ok raw :: rest =>
        match decode_utf8 raw with
        | Raise e => HandshakeRaised e lines
        | Ok recv_message' => handshake_loop rest recv_message' lines
        end
    end
  else if startswith (py "ERROR") recv_message then
    Refused (lines ++ [error_line recv_message])
  else Refused (lines ++ [invalid_line recv_message]).

(** The answers of the socket during the data phase, pass by pass: every
    pass that goes on to another one has called [sendall] exactly once, so
    the pass of the [i]-th read makes the [i]-th call. *)
Fixpoint passes_from (i : nat) (recvs : list (result bytes))
    (sendalls : nat -> result unit) : list io :=
  match recvs with
  | [] => []
  | r :: recvs' =>
      {| recv_reply := r; sendall_reply := sendalls i |}
        :: passes_from (S i) recvs' sendalls
  end.

Definition passes (recvs : list (result bytes)) (sendalls : nat -> result unit)
  : list io := passes_from 0 recvs sendalls.

(** Lines 224-231. *)
Definition report_lines (r : report) : list str :=
  [py "File checksum: " ++ file_checksum r;
   py "Total packet sent: " ++ str_of_int (report_sent r);
   py "Total packet recv: " ++ str_of_int (report_recv r);
   py "Total corrupted packet recv: " ++ str_of_int (report_corrupted r)].

(** Lines 148-231, once the loop has come to [l]: [lines] were printed and
    [hello] sent before it. *)
Definition after_loop (clk : clock) (lines : list str) (hello : bytes)
    (l : loop_end) : run :=
  match l with
  | Waiting s =>
      {| printed := lines; sent := hello :: outbox s;
         socket_closed := false; ended := Blocked |}
  | Propagated e s =>
      {| printed := lines; sent := hello :: outbox s;
         socket_closed := false; ended := Raised e |}
  | Exited s =>
      let lines := lines ++ [py "DONE receiver - " ++ name ++ py " @ " ++ t_done clk] in
      match finish s with
      | Ok r =>
          {| printed := lines ++ report_lines r; sent := hello :: outbox s;
             socket_closed := true; ended := Returned |}
      | Raise e =>
          {| printed := lines; sent := hello :: outbox s;
             socket_closed := true; ended := Raised e |}
      end
  end.

(** Lines 59-231, for arguments that are strings, as the script passes
    them. *)
Definition start_receiver (unicode_decimal : N -> option Z) (clk : clock)
    (sock : socket_script)
    (connection_ID loss_rate corrupt_rate max_delay : str) : run :=
  let lines := [py "START receiver - " ++ name ++ py " @ " ++ t_start clk] in
  let stopped (lines : list str) (sent : list bytes) (e : ending) :=
    {| printed := lines; sent := sent; socket_closed := false; ended := e |} in
  match connect_reply sock with
  | Raise e =>
      if is_socket_error e then
        {| printed := lines ++ [py "Connection error: " ++ connect_error_text sock];
           sent := []; socket_closed := true; ended := Returned |}
      else stopped lines [] (Raised e)
  | Ok _ =>
      let message := hello_message connection_ID loss_rate corrupt_rate max_delay in
      match encode_utf8 message with
      | Raise e => stopped lines [] (Raised e)
      | Ok hello =>
          match hello_reply sock with
          | Raise e => stopped lines [] (Raised e)
          | Ok _ =>
              match recv_replies sock with
              | [] => stopped lines [hello] Blocked
              | Raise e :: _ => stopped lines [hello] (Raised e)
              | Ok raw :: rest =>
                  match decode_utf8 raw with
                  | Raise e => stopped lines [hello] (Raised e)
                  | Ok recv_message =>
                      let lines := lines ++ [py "received: " ++ recv_message] in
                      match handshake_loop rest recv_message lines with
                      | Established lines rest' =>
                          after_loop clk
                            (lines ++ [py "ESTABLISHED A CHANNEL @ "
                                         ++ t_established clk])
                            hello
                            (receive_loop unicode_decimal
                               (passes rest' (sendall_replies sock)) initial)
                      | Refused lines => stopped lines [hello] Returned
                      | HandshakeRaised e lines => stopped lines [hello] (Raised e)
                      | HandshakeBlocked lines => stopped lines [hello] Blocked
                      end
                  end
              end
          end
      end
  end.

(** The message of line 241; the quotation marks are character 34. *)
Definition usage : str :=
  py "Expected " ++ [34%N]
    ++ py "python PA2_receiver.py <connection_id> <loss_rate> <corrupt_rate> <max_delay>"
    ++ [34%N].

(** Lines 238-248, with [sys.argv] given. *)
Definition main (unicode_decimal : N -> option Z) (clk : clock)
    (sock : socket_script) (argv : list str) : run :=
  match argv with
  | [_; connection_ID; loss_rate; corrupt_rate; max_delay] =>
      start_receiver unicode_decimal clk sock
        connection_ID loss_rate corrupt_rate max_delay
  | _ =>
      {| printed := [usage]; sent := []; socket_closed := false;
         ended := SystemExit |}
  end.

(** The lines printed up to the end of the handshake reads, the messages
    read being [msgs]: the start line, the first message, and one line for
    each message that asked to wait. *)
Definition handshake_lines (clk : clock) (msgs : list str) : list str :=
  [py "START receiver - " ++ name ++ py " @ " ++ t_start clk;
   py "received: " ++ hd [] msgs]
    ++ repeat waiting_line (length msgs - 1).

(** ** A sample run of the script *)

Definition sample_clock : clock :=
  {| t_start := py "2023-01-30 10:00:00.000001";
     t_established := py "2023-01-30 10:00:02.500000";
     t_done := py "2023-01-30 10:00:03.250000" |}.

(** A damaged message, the first packet, its retransmission, and the second
    packet. *)
Definition sample_traffic : list bytes :=
  [pkt_damaged; pkt_seq0; pkt_seq0; pkt_seq1].

(** A server that asks once to wait, then opens the channel; [then_] are the
    answers of [recv] after that.  Every [sendall] is taken. *)
Definition sample_server (then_ : list (result bytes)) : socket_script :=
  {| connect_reply := Ok tt;
     connect_error_text := [];
     hello_reply := Ok tt;
     recv_replies :=
       map Ok [py "WAITING for a sender"; py "OK channel is open"] ++ then_;
     sendall_replies := fun _ => Ok tt |}.

(** * Properties *)

(** ** Strings *)

Lemma str_eqb_eq (a b : str) : str_eqb a b = true <-> a = b.
Proof.
  revert b; induction a as [|x a IH]; intros [|y b]; simpl; try easy.
  rewrite andb_true_iff, N.eqb_eq, IH.
  split; [intros [-> ->]; reflexivity | intros E; injection E; auto].
Qed.

Lemma str_eqb_refl (a : str) : str_eqb a a = true.
Proof. apply str_eqb_eq; reflexivity. Qed.

Lemma str_eqb_nil_false (a : str) : a <> [] -> str_eqb a [] = false.
Proof. destruct a; simpl; congruence. Qed.

Lemma slice_drop_last_app (k : nat) (a b : str) :
  length b = k -> slice_drop_last k (a ++ b) = a.
Proof.
  intros Hb; unfold slice_drop_last.
  rewrite length_app, Hb, Nat.add_sub.
  rewrite firstn_app, Nat.sub_diag, firstn_all; simpl.
  apply app_nil_r.
Qed.

Lemma slice_last_app (k : nat) (a b : str) :
  length b = k -> slice_last k (a ++ b) = b.
Proof.
  intros Hb; unfold slice_last.
  rewrite length_app, Hb, Nat.add_sub.
  rewrite skipn_app, Nat.sub_diag, skipn_all; reflexivity.
Qed.

Lemma slice_length (lo hi : nat) (msg : str) :
  (hi <= length msg)%nat -> length (slice lo hi msg) = (hi - lo)%nat.
Proof.
  intros H; unfold slice.
  rewrite length_firstn, length_skipn; lia.
Qed.

(** ** UTF-8 on ASCII text *)

Lemma ascii_only_app (a b : list N) :
  ascii_only a -> ascii_only b -> ascii_only (a ++ b).
Proof. unfold ascii_only; intros; apply Forall_app; auto. Qed.

Lemma ascii_only_repeat (c : N) (k : nat) :
  (c < 128)%N -> ascii_only (repeat c k).
Proof.
  intros Hc; induction k; simpl; constructor; auto.
Qed.

Lemma encode_ascii (s : str) : ascii_only s -> encode_utf8 s = Ok s.
Proof.
  induction 1 as [|c s Hc _ IH]; simpl; [reflexivity|].
  unfold encode_char.
  apply N.ltb_lt in Hc; rewrite Hc, IH; reflexivity.
Qed.

Lemma decode_ascii (b : bytes) : ascii_only b -> decode_utf8 b = Ok b.
Proof.
  induction 1 as [|c s Hc _ IH]; simpl; [reflexivity|].
  apply N.ltb_lt in Hc; rewrite Hc, IH; reflexivity.
Qed.

(** ** The byte sum *)

Lemma sum_bytes_from (b : bytes) (acc : Z) :
  fold_left (fun s x => s + Z.of_N x) b acc = acc + sum_bytes b.
Proof.
  unfold sum_bytes; revert acc.
  induction b as [|x b IH]; intros acc; simpl; [lia|].
  rewrite IH, (IH (Z.of_N x)); lia.
Qed.

Lemma sum_bytes_cons (x : N) (b : bytes) :
  sum_bytes (x :: b) = Z.of_N x + sum_bytes b.
Proof. unfold sum_bytes at 1; simpl; apply sum_bytes_from. Qed.

Lemma sum_bytes_app (a b : bytes) :
  sum_bytes (a ++ b) = sum_bytes a + sum_bytes b.
Proof.
  induction a as [|x a IH]; simpl; [reflexivity|].
  rewrite !sum_bytes_cons, IH; lia.
Qed.

Lemma sum_bytes_nonneg (b : bytes) : 0 <= sum_bytes b.
Proof.
  induction b as [|x b IH]; [unfold sum_bytes; simpl; lia|].
  rewrite sum_bytes_cons; lia.
Qed.

(** ** Decimal digits *)

Lemma digits_aux_ascii (fuel : nat) (n : N) (acc : str) :
  ascii_only acc -> ascii_only (digits_aux fuel n acc).
Proof.
  revert n acc; induction fuel as [|k IH]; intros n acc Hacc; simpl; [assumption|].
  assert (Hd : ascii_only ((48 + n mod 10)%N :: acc)).
  { constructor; [|assumption].
    pose proof (N.mod_upper_bound n 10); lia. }
  destruct (n <? 10)%N; auto.
Qed.

Lemma decimal_ascii (n : N) : ascii_only (decimal n).
Proof. apply digits_aux_ascii; constructor. Qed.

Lemma str_of_int_ascii (z : Z) : ascii_only (str_of_int z).
Proof.
  unfold str_of_int; destruct (z <? 0).
  - constructor; [lia | apply decimal_ascii].
  - apply decimal_ascii.
Qed.

Lemma format_05d_ascii (z : Z) : ascii_only (format_05d z).
Proof.
  unfold format_05d, zfill; destruct (z <? 0).
  - constructor; [lia|].
    apply ascii_only_app; [apply ascii_only_repeat; lia | apply decimal_ascii].
  - apply ascii_only_app; [apply ascii_only_repeat; lia | apply decimal_ascii].
Qed.

(** Extra fuel does not change the digits. *)
Lemma digits_aux_fuel (f1 f2 : nat) (n : N) (acc : str) :
  (n < 10 ^ N.of_nat (S f1))%N -> (n < 10 ^ N.of_nat (S f2))%N ->
  digits_aux (S f1) n acc = digits_aux (S f2) n acc.
Proof.
  revert f2 n acc; induction f1 as [|f1 IH]; intros f2 n acc H1 H2.
  - change (10 ^ N.of_nat 1)%N with 10%N in H1.
    apply N.ltb_lt in H1. simpl. rewrite H1. reflexivity.
  - cbn [digits_aux]. destruct (n <? 10)%N eqn:E; [reflexivity|].
    apply N.ltb_ge in E.
    destruct f2 as [|f2].
    + change (10 ^ N.of_nat 1)%N with 10%N in H2. lia.
    + apply IH.
      * rewrite Nat2N.inj_succ, N.pow_succ_r' in H1.
        apply N.Div0.div_lt_upper_bound. exact H1.
      * rewrite Nat2N.inj_succ, N.pow_succ_r' in H2.
        apply N.Div0.div_lt_upper_bound. exact H2.
Qed.

Lemma pos_size_nat_bound (p : positive) :
  (N.pos p < 2 ^ N.of_nat (Pos.size_nat p))%N.
Proof.
  induction p as [p IH|p IH|]; cbn [Pos.size_nat];
    rewrite ?Nat2N.inj_succ, ?N.pow_succ_r'; lia.
Qed.

Lemma size_nat_bound (n : N) : (n < 10 ^ N.of_nat (S (N.size_nat n)))%N.
Proof.
  rewrite Nat2N.inj_succ, N.pow_succ_r'.
  destruct n as [|p]; simpl N.size_nat.
  - simpl. lia.
  - pose proof (pos_size_nat_bound p) as Hp.
    assert (2 ^ N.of_nat (Pos.size_nat p) <= 10 ^ N.of_nat (Pos.size_nat p))%N
      by (apply N.pow_le_mono_l; lia).
    lia.
Qed.

Lemma decimal_fuel (f : nat) (n : N) :
  (n < 10 ^ N.of_nat (S f))%N -> decimal n = digits_aux (S f) n [].
Proof.
  intros H; unfold decimal.
  apply digits_aux_fuel; [apply size_nat_bound | exact H].
Qed.

Lemma zfill5_decimal (n : N) :
  (n < 100000)%N ->
  zfill 5 (decimal n) =
  [(48 + n / 10000 mod 10)%N; (48 + n / 1000 mod 10)%N; (48 + n / 100 mod 10)%N;
   (48 + n / 10 mod 10)%N; (48 + n mod 10)%N].
Proof.
  intros Hn.
  rewrite (decimal_fuel 4) by (change (10 ^ N.of_nat 5)%N with 100000%N; exact Hn).
  assert (D2 : (n / 10 / 10 = n / 100)%N) by (rewrite N.Div0.div_div; reflexivity).
  assert (D3 : (n / 100 / 10 = n / 1000)%N) by (rewrite N.Div0.div_div; reflexivity).
  assert (D4 : (n / 1000 / 10 = n / 10000)%N) by (rewrite N.Div0.div_div; reflexivity).
  assert (S1 : forall m, (m < 10)%N -> (m / 10 = 0)%N) by (intros; apply N.div_small; assumption).
  assert (M0 : (0 mod 10 = 0)%N) by reflexivity.
  assert (Z0 : (0 / 10 = 0)%N) by reflexivity.
  cbn [digits_aux].
  destruct (n <? 10)%N eqn:E1.
  { apply N.ltb_lt in E1. unfold zfill; cbn [length Nat.sub repeat app].
    assert (n / 10 = 0)%N as A1 by auto.
    assert (n / 100 = 0)%N as A2 by (rewrite <- D2, A1; reflexivity).
    assert (n / 1000 = 0)%N as A3 by (rewrite <- D3, A2; reflexivity).
    assert (n / 10000 = 0)%N as A4 by (rewrite <- D4, A3; reflexivity).
    rewrite A1, A2, A3, A4; reflexivity. }
  rewrite D2.
  destruct (n / 10 <? 10)%N eqn:E2.
  { apply N.ltb_lt in E2. unfold zfill; cbn [length Nat.sub repeat app].
    assert (n / 100 = 0)%N as A2 by (rewrite <- D2; auto).
    assert (n / 1000 = 0)%N as A3 by (rewrite <- D3, A2; reflexivity).
    assert (n / 10000 = 0)%N as A4 by (rewrite <- D4, A3; reflexivity).
    rewrite A2, A3, A4; reflexivity. }
  rewrite D3.
  destruct (n / 100 <? 10)%N eqn:E3.
  { apply N.ltb_lt in E3. unfold zfill; cbn [length Nat.sub repeat app].
    assert (n / 1000 = 0)%N as A3 by (rewrite <- D3; auto).
    assert (n / 10000 = 0)%N as A4 by (rewrite <- D4, A3; reflexivity).
    rewrite A3, A4; reflexivity. }
  rewrite D4.
  destruct (n / 1000 <? 10)%N eqn:E4.
  { apply N.ltb_lt in E4. unfold zfill; cbn [length Nat.sub repeat app].
    assert (n / 10000 = 0)%N as A4 by (rewrite <- D4; auto).
    rewrite A4; reflexivity. }
  assert (E5 : (n / 10000 <? 10)%N = true).
  { apply N.ltb_lt. apply N.Div0.div_lt_upper_bound. exact Hn. }
  rewrite E5. reflexivity.
Qed.

Lemma digit_char_of_N (q : N) : digit_char (Z.of_N q) = (48 + q)%N.
Proof. unfold digit_char; lia. Qed.

Lemma format_05d_small (z : Z) :
  0 <= z < 100000 -> format_05d z = five_digits z.
Proof.
  intros Hz. unfold format_05d.
  destruct (z <? 0) eqn:E; [apply Z.ltb_lt in E; lia|].
  rewrite zfill5_decimal by lia.
  unfold five_digits; cbn [map].
  rewrite <- (Z2N.id z) at 6 7 8 9 10 by lia.
  rewrite <- !(N2Z.inj_div _ 10000), <- !(N2Z.inj_div _ 1000),
    <- !(N2Z.inj_div _ 100), <- !(N2Z.inj_div _ 10).
  rewrite <- !(N2Z.inj_mod _ 10).
  rewrite !digit_char_of_N. reflexivity.
Qed.

Lemma five_digits_length (z : Z) : length (five_digits z) = 5%nat.
Proof. reflexivity. Qed.

(** ** Checksum codec: shared facts *)

Lemma checksum_encoded (msg : str) (b : bytes) :
  encode_utf8 msg = Ok b -> checksum msg = Ok (format_05d (sum_bytes b)).
Proof. intros H; unfold checksum; rewrite H; reflexivity. Qed.

Lemma checksum_is_ascii (msg cs : str) : checksum msg = Ok cs -> ascii_only cs.
Proof.
  unfold checksum; destruct (encode_utf8 msg); simpl; [|discriminate].
  intros E; injection E as <-; apply format_05d_ascii.
Qed.

Lemma checksum_small (msg : str) (b : bytes) :
  encode_utf8 msg = Ok b -> sum_bytes b < 100000 ->
  checksum msg = Ok (five_digits (sum_bytes b)).
Proof.
  intros Henc Hsum. pose proof (sum_bytes_nonneg b).
  rewrite (checksum_encoded _ _ Henc), format_05d_small by lia. reflexivity.
Qed.

(** Reading a five-digit field back as a number, digit by digit. *)
Lemma five_digits_value (s : Z) :
  0 <= s < 100000 ->
  Forall (fun c => (48 <= c <= 57)%N) (five_digits s) /\
  fold_left (fun a c => 10 * a + (Z.of_N c - 48)) (five_digits s) 0 = s.
Proof.
  intros Hs. unfold five_digits, digit_char; cbn [map fold_left].
  pose proof (Z.mod_pos_bound (s / 10000) 10 eq_refl).
  pose proof (Z.mod_pos_bound (s / 1000) 10 eq_refl).
  pose proof (Z.mod_pos_bound (s / 100) 10 eq_refl).
  pose proof (Z.mod_pos_bound (s / 10) 10 eq_refl).
  pose proof (Z.mod_pos_bound s 10 eq_refl).
  split.
  - repeat constructor; lia.
  - rewrite !Z2N.id by lia.
    Z.to_euclidean_division_equations; lia.
Qed.

Lemma verifier_short (msg : str) :
  (length msg < 30)%nat -> checksum_verifier msg = Ok false.
Proof.
  intros Hlen. unfold checksum_verifier, expected_packet_length.
  apply Nat.ltb_lt in Hlen. rewrite Hlen. reflexivity.
Qed.

Lemma verifier_long (msg : str) :
  (30 <= length msg)%nat ->
  (checksum_verifier msg = Ok true <->
   checksum (slice_drop_last 5 msg) = Ok (slice_last 5 msg)).
Proof.
  intros Hlen. unfold checksum_verifier, expected_packet_length.
  apply Nat.ltb_ge in Hlen. rewrite Hlen.
  destruct (checksum (slice_drop_last 5 msg)) as [calc|e]; simpl.
  - destruct (str_eqb calc (slice_last 5 msg)) eqn:E.
    + apply str_eqb_eq in E. subst calc. tauto.
    + split; [discriminate|].
      intros H; injection H as H. apply str_eqb_eq in H. congruence.
  - split; discriminate.
Qed.

(** A verified message has at least 30 characters. *)
Lemma verified_length (msg : str) :
  checksum_verifier msg = Ok true -> (30 <= length msg)%nat.
Proof.
  intros H. destruct (Nat.lt_ge_cases (length msg) 30) as [L|L]; [|exact L].
  rewrite (verifier_short _ L) in H. discriminate.
Qed.

(** ** Ack packets: shared facts *)

Lemma make_packet_ascii (bit : Z) :
  exists p, make_packet bit = Ok p /\ ascii_only p.
Proof.
  unfold make_packet.
  set (body := py "  " ++ str_of_int bit ++ py " " ++ spaces ++ py " ").
  assert (Hb : ascii_only body).
  { unfold body. repeat apply ascii_only_app;
      try apply str_of_int_ascii; repeat constructor. }
  rewrite (checksum_encoded body body (encode_ascii _ Hb)). cbn [rbind].
  eexists; split; [reflexivity|].
  apply ascii_only_app; [exact Hb | apply format_05d_ascii].
Qed.

Lemma ack_on_wire_total (bit : Z) :
  exists p, make_packet bit = Ok p /\ encode_utf8 p = Ok p /\ ack_on_wire bit = Ok p.
Proof.
  destruct (make_packet_ascii bit) as (p & Hp & Ha).
  exists p. unfold ack_on_wire. rewrite Hp. cbn [rbind].
  rewrite (encode_ascii _ Ha). auto.
Qed.

Lemma mod2_bit (z : Z) : z mod 2 = 0 \/ z mod 2 = 1.
Proof. pose proof (Z.mod_pos_bound z 2 eq_refl). lia. Qed.

Lemma succ_mod2 (k : nat) :
  (Z.of_nat k mod 2 + 1) mod 2 = Z.of_nat (S k) mod 2.
Proof.
  rewrite Z.add_mod_idemp_l by lia. f_equal. lia.
Qed.

(** The two frames are what [send_packet(make_packet(bit))] puts on the
    wire for the bits 0 and 1. *)
Lemma frames_on_wire :
  ack_on_wire 0 = Ok frame0 /\ ack_on_wire 1 = Ok frame1.
Proof. split; vm_compute; reflexivity. Qed.

Lemma ack_frame (z : Z) (w : bytes) :
  ack_on_wire (z mod 2) = Ok w ->
  w = if z mod 2 =? 0 then frame0 else frame1.
Proof.
  destruct frames_on_wire as [H0 H1].
  destruct (mod2_bit z) as [E|E]; rewrite E; cbn [Z.eqb]; congruence.
Qed.

(** [msg[lo:hi]] holds the characters of [msg] from [lo] on. *)
Lemma slice_nth (lo hi : nat) (msg : str) (j : nat) :
  (j < hi - lo)%nat ->
  nth_error (slice lo hi msg) j = nth_error msg (lo + j).
Proof.
  intros Hj. unfold slice. rewrite nth_error_firstn.
  apply Nat.ltb_lt in Hj. rewrite Hj. apply nth_error_skipn.
Qed.

(** The payload field of a verified message: 20 characters, those at
    positions 4 to 23. *)
Lemma verified_payload (pkt : str) :
  checksum_verifier pkt = Ok true ->
  length (slice 4 24 pkt) = 20%nat /\
  forall j, (j < 20)%nat -> nth_error (slice 4 24 pkt) j = nth_error pkt (4 + j).
Proof.
  intros Hver. apply verified_length in Hver. split.
  - rewrite slice_length by lia. reflexivity.
  - intros j Hj. apply slice_nth. lia.
Qed.

(** ** UTF-8: decoding undoes encoding *)

Section Utf8RoundTrip.

Local Open Scope N_scope.

(** Bits set by [lor] over disjoint fields add up. *)
Lemma lor_shifted (h l k : N) : l < 2 ^ k -> N.lor (h * 2 ^ k) l = h * 2 ^ k + l.
Proof.
  intros Hl.
  assert (Hland : N.land (h * 2 ^ k) l = 0).
  { apply N.bits_inj_0. intros n. rewrite N.land_spec.
    destruct (N.lt_ge_cases n k) as [Hn|Hn].
    - rewrite N.mul_pow2_bits_low by exact Hn. reflexivity.
    - rewrite <- (N.mod_small l (2^k) Hl).
      rewrite N.mod_pow2_bits_high by exact Hn. apply andb_false_r. }
  rewrite N.add_nocarry_lxor by exact Hland.
  rewrite N.lxor_lor by exact Hland. reflexivity.
Qed.

Lemma enc2 (c : N) : 0x80 <= c < 0x800 ->
  encode_char c = Ok [0xC0 + c / 64; 0x80 + c mod 64].
Proof.
  intros Hc. unfold encode_char.
  destruct (c <? 0x80) eqn:E1; [apply N.ltb_lt in E1; lia|].
  destruct (c <? 0x800) eqn:E2; [|apply N.ltb_ge in E2; lia].
  rewrite N.shiftr_div_pow2. change 0x3F with (N.ones 6). rewrite N.land_ones.
  change (2^6) with 64.
  change 0xC0 with (3 * 2 ^ 6). change 0x80 with (2 * 2 ^ 6).
  rewrite !lor_shifted.
  - reflexivity.
  - change (2^6) with 64. apply N.mod_upper_bound. lia.
  - change (2^6) with 64. apply N.Div0.div_lt_upper_bound. lia.
Qed.

Lemma land_mod (a : N) (k : N) (m : N) :
  m = N.ones k -> N.land a m = a mod 2 ^ k.
Proof. intros ->. apply N.land_ones. Qed.

Lemma is_cont_low (y : N) : y < 64 -> is_cont (0x80 + y) = true.
Proof.
  intros Hy. unfold is_cont. apply andb_true_iff.
  split; [apply N.leb_le | apply N.leb_le]; lia.
Qed.

Lemma cont_bits_low (y : N) : y < 64 -> cont_bits (0x80 + y) = y.
Proof.
  intros Hy. unfold cont_bits. rewrite (land_mod _ 6) by reflexivity.
  change (2 ^ 6) with 64. ndm.
Qed.

Lemma enc3 (c : N) : 0x800 <= c < 0x10000 -> ~ (0xD800 <= c <= 0xDFFF) ->
  encode_char c = Ok [0xE0 + c / 4096; 0x80 + (c / 64) mod 64; 0x80 + c mod 64].
Proof.
  intros Hc Hs. unfold encode_char.
  destruct (c <? 0x80) eqn:E1; [apply N.ltb_lt in E1; lia|].
  destruct (c <? 0x800) eqn:E2; [apply N.ltb_lt in E2; lia|].
  destruct (c <? 0x10000) eqn:E3; [|apply N.ltb_ge in E3; lia].
  destruct ((0xD800 <=? c) && (c <=? 0xDFFF)) eqn:E4.
  { apply andb_true_iff in E4. destruct E4 as [A B].
    apply N.leb_le in A, B. lia. }
  rewrite !N.shiftr_div_pow2. rewrite !(land_mod _ 6 0x3F) by reflexivity.
  change (2^6) with 64. change (2^12) with 4096.
  change 0xE0 with (14 * 2 ^ 4). change 0x80 with (2 * 2 ^ 6).
  rewrite !lor_shifted.
  - reflexivity.
  - change (2^6) with 64. apply N.mod_upper_bound. lia.
  - change (2^6) with 64. apply N.mod_upper_bound. lia.
  - change (2^4) with 16. apply N.Div0.div_lt_upper_bound. lia.
Qed.

Lemma enc4 (c : N) : 0x10000 <= c < 0x110000 ->
  encode_char c = Ok [0xF0 + c / 262144; 0x80 + (c / 4096) mod 64;
                      0x80 + (c / 64) mod 64; 0x80 + c mod 64].
Proof.
  intros Hc. unfold encode_char.
  destruct (c <? 0x80) eqn:E1; [apply N.ltb_lt in E1; lia|].
  destruct (c <? 0x800) eqn:E2; [apply N.ltb_lt in E2; lia|].
  destruct (c <? 0x10000) eqn:E3; [apply N.ltb_lt in E3; lia|].
  destruct (c <? 0x110000) eqn:E4; [|apply N.ltb_ge in E4; lia].
  rewrite !N.shiftr_div_pow2. rewrite !(land_mod _ 6 0x3F) by reflexivity.
  change (2^6) with 64. change (2^12) with 4096. change (2^18) with 262144.
  change 0xF0 with (30 * 2 ^ 3). change 0x80 with (2 * 2 ^ 6).
  rewrite !lor_shifted.
  - reflexivity.
  - change (2^6) with 64. apply N.mod_upper_bound. lia.
  - change (2^6) with 64. apply N.mod_upper_bound. lia.
  - change (2^6) with 64. apply N.mod_upper_bound. lia.
  - change (2^3) with 8. apply N.Div0.div_lt_upper_bound. lia.
Qed.

Lemma dec1 (c : N) (rest : bytes) : c < 0x80 ->
  decode_utf8 (c :: rest) = rbind (decode_utf8 rest) (fun s => Ok (c :: s)).
Proof.
  intros Hc. cbn [decode_utf8]. apply N.ltb_lt in Hc. rewrite Hc.
  destruct (decode_utf8 rest); reflexivity.
Qed.

Lemma dec2 (c : N) (rest : bytes) : 0x80 <= c < 0x800 ->
  decode_utf8 ((0xC0 + c / 64) :: (0x80 + c mod 64) :: rest)
  = rbind (decode_utf8 rest) (fun s => Ok (c :: s)).
Proof.
  intros Hc.
  assert (Hy : c mod 64 < 64) by (apply N.mod_upper_bound; lia).
  assert (Hx : 2 <= c / 64 < 32) by ndm.
  cbn [decode_utf8].
  replace (0xC0 + c / 64 <? 0x80) with false by (symmetry; apply N.ltb_ge; lia).
  replace ((0xC2 <=? 0xC0 + c / 64) && (0xC0 + c / 64 <=? 0xDF)) with true
    by (symmetry; apply andb_true_iff; split; apply N.leb_le; lia).
  rewrite is_cont_low, cont_bits_low by exact Hy.
  rewrite (land_mod _ 5 0x1F) by reflexivity.
  rewrite N.shiftl_mul_pow2.
  rewrite lor_shifted by exact Hy.
  replace ((0xC0 + c / 64) mod 2 ^ 5 * 2 ^ 6 + c mod 64) with c
    by (change (2^5) with 32; change (2^6) with 64; ndm).
  destruct (decode_utf8 rest); reflexivity.
Qed.

Lemma dec3 (c : N) (rest : bytes) :
  0x800 <= c < 0x10000 -> ~ (0xD800 <= c <= 0xDFFF) ->
  decode_utf8 ((0xE0 + c / 4096) :: (0x80 + (c / 64) mod 64)
                 :: (0x80 + c mod 64) :: rest)
  = rbind (decode_utf8 rest) (fun s => Ok (c :: s)).
Proof.
  intros Hc Hs.
  assert (Hz : c mod 64 < 64) by (apply N.mod_upper_bound; lia).
  assert (Hy : (c / 64) mod 64 < 64) by (apply N.mod_upper_bound; lia).
  assert (Hx : c / 4096 < 16) by ndm.
  cbn [decode_utf8].
  replace (0xE0 + c / 4096 <? 0x80) with false by (symmetry; apply N.ltb_ge; ndm).
  replace ((0xC2 <=? 0xE0 + c / 4096) && (0xE0 + c / 4096 <=? 0xDF)) with false
    by (symmetry; apply andb_false_iff; right; apply N.leb_gt; ndm).
  replace ((0xE0 <=? 0xE0 + c / 4096) && (0xE0 + c / 4096 <=? 0xEF)) with true
    by (symmetry; apply andb_true_iff; split; apply N.leb_le; ndm).
  rewrite !is_cont_low, !cont_bits_low by assumption.
  rewrite (land_mod _ 4 0x0F) by reflexivity.
  rewrite !N.shiftl_mul_pow2.
  rewrite (lor_shifted _ (c mod 64) 6) by exact Hz.
  assert (Hlow : (c / 64) mod 64 * 2 ^ 6 + c mod 64 < 2 ^ 12)
    by (change (2^6) with 64; change (2^12) with 4096; lia).
  rewrite lor_shifted by exact Hlow.
  replace ((0xE0 + c / 4096) mod 2 ^ 4 * 2 ^ 12
           + ((c / 64) mod 64 * 2 ^ 6 + c mod 64)) with c
    by (change (2^4) with 16; change (2^6) with 64; change (2^12) with 4096; ndm).
  cbv zeta.
  replace (0x800 <=? c) with true by (symmetry; apply N.leb_le; ndm).
  replace ((0xD800 <=? c) && (c <=? 0xDFFF)) with false.
  2:{ symmetry. apply andb_false_iff.
      destruct (N.le_gt_cases 0xD800 c) as [A|A].
      - right. apply N.leb_gt. lia.
      - left. apply N.leb_gt. lia. }
  cbn [andb negb].
  destruct (decode_utf8 rest); reflexivity.
Qed.

Lemma dec4 (c : N) (rest : bytes) :
  0x10000 <= c < 0x110000 ->
  decode_utf8 ((0xF0 + c / 262144) :: (0x80 + (c / 4096) mod 64)
                 :: (0x80 + (c / 64) mod 64) :: (0x80 + c mod 64) :: rest)
  = rbind (decode_utf8 rest) (fun s => Ok (c :: s)).
Proof.
  intros Hc.
  assert (Hz : c mod 64 < 64) by (apply N.mod_upper_bound; lia).
  assert (Hy : (c / 64) mod 64 < 64) by (apply N.mod_upper_bound; lia).
  assert (Hw : (c / 4096) mod 64 < 64) by (apply N.mod_upper_bound; lia).
  assert (Hx : c / 262144 <= 4) by ndm.
  cbn [decode_utf8].
  replace (0xF0 + c / 262144 <? 0x80) with false
    by (symmetry; apply N.ltb_ge; ndm).
  replace ((0xC2 <=? 0xF0 + c / 262144) && (0xF0 + c / 262144 <=? 0xDF))
    with false
    by (symmetry; apply andb_false_iff; right; apply N.leb_gt; ndm).
  replace ((0xE0 <=? 0xF0 + c / 262144) && (0xF0 + c / 262144 <=? 0xEF))
    with false
    by (symmetry; apply andb_false_iff; right; apply N.leb_gt; ndm).
  replace ((0xF0 <=? 0xF0 + c / 262144) && (0xF0 + c / 262144 <=? 0xF4))
    with true
    by (symmetry; apply andb_true_iff; split; apply N.leb_le; ndm).
  rewrite !is_cont_low, !cont_bits_low by assumption.
  rewrite (land_mod _ 3 0x07) by reflexivity.
  rewrite !N.shiftl_mul_pow2.
  rewrite (lor_shifted _ (c mod 64) 6) by exact Hz.
  assert (Hlow : (c / 64) mod 64 * 2 ^ 6 + c mod 64 < 2 ^ 12)
    by (change (2^6) with 64; change (2^12) with 4096; lia).
  rewrite (lor_shifted _ _ 12) by exact Hlow.
  assert (Hmid : (c / 4096) mod 64 * 2 ^ 12
                 + ((c / 64) mod 64 * 2 ^ 6 + c mod 64) < 2 ^ 18)
    by (change (2^6) with 64; change (2^12) with 4096;
        change (2^18) with 262144; lia).
  rewrite (lor_shifted _ _ 18) by exact Hmid.
  replace ((0xF0 + c / 262144) mod 2 ^ 3 * 2 ^ 18
           + ((c / 4096) mod 64 * 2 ^ 12
              + ((c / 64) mod 64 * 2 ^ 6 + c mod 64))) with c
    by (change (2^3) with 8; change (2^6) with 64; change (2^12) with 4096;
        change (2^18) with 262144; ndm).
  cbv zeta.
  replace (0x10000 <=? c) with true by (symmetry; apply N.leb_le; ndm).
  replace (c <? 0x110000) with true by (symmetry; apply N.ltb_lt; lia).
  cbn [andb].
  destruct (decode_utf8 rest); reflexivity.
Qed.

Lemma decode_encode_char (c : N) (b rest : bytes) :
  encode_char c = Ok b ->
  decode_utf8 (b ++ rest) = rbind (decode_utf8 rest) (fun s => Ok (c :: s)).
Proof.
  intros Henc.
  destruct (N.lt_ge_cases c 0x80) as [H1|H1].
  { assert (E : encode_char c = Ok [c])
      by (unfold encode_char; apply N.ltb_lt in H1; rewrite H1; reflexivity).
    rewrite E in Henc. injection Henc as <-. apply dec1. exact H1. }
  destruct (N.lt_ge_cases c 0x800) as [H2|H2].
  { rewrite enc2 in Henc by lia. injection Henc as <-. apply dec2. lia. }
  destruct (N.lt_ge_cases c 0x10000) as [H3|H3].
  { destruct (N.lt_ge_cases c 0xD800) as [S1|S1];
      [|destruct (N.lt_ge_cases 0xDFFF c) as [S2|S2]].
    - rewrite enc3 in Henc by lia. injection Henc as <-. apply dec3; lia.
    - rewrite enc3 in Henc by lia. injection Henc as <-. apply dec3; lia.
    - exfalso. unfold encode_char in Henc.
      replace (c <? 0x80) with false in Henc by (symmetry; apply N.ltb_ge; lia).
      replace (c <? 0x800) with false in Henc by (symmetry; apply N.ltb_ge; lia).
      replace (c <? 0x10000) with true in Henc by (symmetry; apply N.ltb_lt; lia).
      replace ((0xD800 <=? c) && (c <=? 0xDFFF)) with true in Henc
        by (symmetry; apply andb_true_iff; split; apply N.leb_le; lia).
      discriminate. }
  destruct (N.lt_ge_cases c 0x110000) as [H4|H4].
  { rewrite enc4 in Henc by lia. injection Henc as <-. apply dec4. lia. }
  exfalso. unfold encode_char in Henc.
  replace (c <? 0x80) with false in Henc by (symmetry; apply N.ltb_ge; lia).
  replace (c <? 0x800) with false in Henc by (symmetry; apply N.ltb_ge; lia).
  replace (c <? 0x10000) with false in Henc by (symmetry; apply N.ltb_ge; lia).
  replace (c <? 0x110000) with false in Henc by (symmetry; apply N.ltb_ge; lia).
  discriminate.
Qed.

Lemma decode_of_encode (s : str) (b : bytes) :
  encode_utf8 s = Ok b -> decode_utf8 b = Ok s.
Proof.
  revert b; induction s as [|c s IH]; intros b; cbn [encode_utf8].
  - intros E; injection E as <-. reflexivity.
  - destruct (encode_char c) as [bc|e] eqn:Ec; [|discriminate].
    destruct (encode_utf8 s) as [bs|e] eqn:Es; [|discriminate].
    intros E; injection E as <-.
    rewrite (decode_encode_char c bc bs Ec), (IH bs eq_refl). reflexivity.
Qed.

Lemma encode_utf8_app (a b : str) (ea eb : bytes) :
  encode_utf8 a = Ok ea -> encode_utf8 b = Ok eb ->
  encode_utf8 (a ++ b) = Ok (ea ++ eb).
Proof.
  revert ea; induction a as [|c a IH]; intros ea; cbn [encode_utf8 app].
  - intros E; injection E as <-. auto.
  - destruct (encode_char c) as [bc|e]; [|discriminate].
    destruct (encode_utf8 a) as [ba|e]; [|discriminate].
    intros E Hb; injection E as <-.
    rewrite (IH ba eq_refl Hb), app_assoc. reflexivity.
Qed.

End Utf8RoundTrip.

(** X1: every string that can be encoded decodes back from its UTF-8 bytes
    to itself. *)
Theorem decode_encode_utf8 (s : str) (b : bytes) :
  encode_utf8 s = Ok b -> decode_utf8 b = Ok s.
Proof. apply decode_of_encode. Qed.

(** A verified message can be encoded and is the decoding of its own
    encoding. *)
Lemma verified_round_trip (msg : str) :
  checksum_verifier msg = Ok true ->
  exists raw, encode_utf8 msg = Ok raw /\ decode_utf8 raw = Ok msg.
Proof.
  intros Hver.
  pose proof (verified_length _ Hver) as Hlen.
  apply verifier_long in Hver; [|exact Hlen].
  pose proof (checksum_is_ascii _ _ Hver) as Hascii.
  unfold checksum in Hver.
  destruct (encode_utf8 (slice_drop_last 5 msg)) as [bc|e] eqn:Ec;
    cbn [rbind] in Hver; [|discriminate].
  assert (Hsplit : msg = slice_drop_last 5 msg ++ slice_last 5 msg)
    by (unfold slice_drop_last, slice_last; symmetry; apply firstn_skipn).
  exists (bc ++ slice_last 5 msg).
  assert (E : encode_utf8 msg = Ok (bc ++ slice_last 5 msg)).
  { rewrite Hsplit at 1.
    apply encode_utf8_app; [exact Ec | apply encode_ascii; exact Hascii]. }
  split; [exact E | apply decode_of_encode; exact E].
Qed.

(** ** UTF-8: encoding undoes decoding *)

Section Utf8Converse.

Local Open Scope N_scope.

Lemma is_cont_range (b : N) : is_cont b = true -> 0x80 <= b <= 0xBF.
Proof.
  unfold is_cont. intros H. apply andb_true_iff in H. destruct H as [A B].
  apply N.leb_le in A, B. lia.
Qed.

Lemma cont_bits_mod (b : N) : cont_bits b = b mod 64.
Proof. unfold cont_bits. rewrite (land_mod _ 6) by reflexivity. reflexivity. Qed.

Lemma between (lo hi b : N) : (lo <=? b) && (b <=? hi) = true -> lo <= b <= hi.
Proof.
  intros H. apply andb_true_iff in H. destruct H as [A B].
  apply N.leb_le in A, B. lia.
Qed.

Lemma enc_dec2 (b0 b1 : N) :
  0xC2 <= b0 <= 0xDF -> is_cont b1 = true ->
  encode_char (N.lor (N.shiftl (N.land b0 0x1F) 6) (cont_bits b1)) = Ok [b0; b1].
Proof.
  intros H0 H1. apply is_cont_range in H1.
  rewrite cont_bits_mod, (land_mod _ 5 0x1F), N.shiftl_mul_pow2 by reflexivity.
  rewrite lor_shifted by (change (2^6) with 64; apply N.mod_upper_bound; lia).
  change (2^5) with 32. change (2^6) with 64.
  rewrite enc2 by ndm.
  f_equal. f_equal; [ndm|]. f_equal. ndm.
Qed.

Lemma enc_dec3 (b0 b1 b2 : N) :
  0xE0 <= b0 <= 0xEF -> is_cont b1 = true -> is_cont b2 = true ->
  let c := N.lor (N.shiftl (N.land b0 0x0F) 12)
             (N.lor (N.shiftl (cont_bits b1) 6) (cont_bits b2)) in
  0x800 <= c -> ~ (0xD800 <= c <= 0xDFFF) ->
  encode_char c = Ok [b0; b1; b2].
Proof.
  intros H0 H1 H2. apply is_cont_range in H1, H2.
  rewrite !cont_bits_mod, (land_mod _ 4 0x0F), !N.shiftl_mul_pow2 by reflexivity.
  assert (L2 : b2 mod 64 < 64) by (apply N.mod_upper_bound; lia).
  assert (L1 : b1 mod 64 < 64) by (apply N.mod_upper_bound; lia).
  rewrite (lor_shifted _ (b2 mod 64) 6) by exact L2.
  rewrite (lor_shifted _ _ 12)
    by (change (2^6) with 64; change (2^12) with 4096; lia).
  change (2^4) with 16. change (2^6) with 64. change (2^12) with 4096.
  cbv zeta. intros Hlo Hsur.
  rewrite enc3 by first [exact Hsur | ndm].
  f_equal. f_equal; [ndm|]. f_equal; [ndm|]. f_equal. ndm.
Qed.

Lemma enc_dec4 (b0 b1 b2 b3 : N) :
  0xF0 <= b0 <= 0xF4 -> is_cont b1 = true -> is_cont b2 = true ->
  is_cont b3 = true ->
  let c := N.lor (N.shiftl (N.land b0 0x07) 18)
             (N.lor (N.shiftl (cont_bits b1) 12)
                (N.lor (N.shiftl (cont_bits b2) 6) (cont_bits b3))) in
  0x10000 <= c < 0x110000 ->
  encode_char c = Ok [b0; b1; b2; b3].
Proof.
  intros H0 H1 H2 H3. apply is_cont_range in H1, H2, H3.
  rewrite !cont_bits_mod, (land_mod _ 3 0x07), !N.shiftl_mul_pow2 by reflexivity.
  assert (L3 : b3 mod 64 < 64) by (apply N.mod_upper_bound; lia).
  assert (L2 : b2 mod 64 < 64) by (apply N.mod_upper_bound; lia).
  assert (L1 : b1 mod 64 < 64) by (apply N.mod_upper_bound; lia).
  rewrite (lor_shifted _ (b3 mod 64) 6) by exact L3.
  rewrite (lor_shifted _ _ 12)
    by (change (2^6) with 64; change (2^12) with 4096; lia).
  rewrite (lor_shifted _ _ 18)
    by (change (2^6) with 64; change (2^12) with 4096;
        change (2^18) with 262144; lia).
  change (2^3) with 8. change (2^6) with 64. change (2^12) with 4096.
  change (2^18) with 262144.
  cbv zeta. intros Hc.
  rewrite enc4 by exact Hc.
  f_equal. f_equal; [ndm|]. f_equal; [ndm|]. f_equal; [ndm|]. f_equal. ndm.
Qed.

Lemma encode_of_decode_bounded (n : nat) :
  forall (raw : bytes) (s : str),
    (length raw <= n)%nat -> decode_utf8 raw = Ok s -> encode_utf8 s = Ok raw.
Proof.
  induction n as [|n IH]; intros raw s Hlen.
  - destruct raw; [|simpl in Hlen; lia].
    cbn [decode_utf8]. intros E; injection E as <-. reflexivity.
  - destruct raw as [|b0 r1].
    { cbn [decode_utf8]. intros E; injection E as <-. reflexivity. }
    cbn [length] in Hlen. cbn [decode_utf8].
    destruct (b0 <? 0x80) eqn:E1.
    { destruct (decode_utf8 r1) as [s1|e] eqn:D; [|discriminate].
      intros E; injection E as <-. cbn [encode_utf8].
      unfold encode_char at 1. rewrite E1.
      rewrite (IH r1 s1) by (auto; lia). reflexivity. }
    destruct ((0xC2 <=? b0) && (b0 <=? 0xDF)) eqn:E2.
    { destruct r1 as [|b1 r2]; [discriminate|].
      destruct (is_cont b1) eqn:C1; [|discriminate].
      destruct (decode_utf8 r2) as [s2|e] eqn:D; [|discriminate].
      intros E; injection E as <-. cbn [encode_utf8].
      rewrite (enc_dec2 b0 b1 (between _ _ _ E2) C1).
      cbn [length] in Hlen.
      rewrite (IH r2 s2) by (auto; lia). reflexivity. }
    destruct ((0xE0 <=? b0) && (b0 <=? 0xEF)) eqn:E3.
    { destruct r1 as [|b1 [|b2 r3]]; try discriminate.
      cbv zeta.
      destruct (is_cont b1) eqn:C1; [|discriminate].
      destruct (is_cont b2) eqn:C2; [|discriminate].
      cbn [andb].
      match goal with |- context [(0x800 <=? ?c)] => set (c0 := c) end.
      destruct (0x800 <=? c0) eqn:Lo; [|discriminate].
      destruct ((0xD800 <=? c0) && (c0 <=? 0xDFFF)) eqn:Su; [discriminate|].
      cbn [andb negb].
      destruct (decode_utf8 r3) as [s3|e] eqn:D; [|discriminate].
      intros E; injection E as <-. cbn [encode_utf8].
      assert (Hs : ~ (0xD800 <= c0 <= 0xDFFF)).
      { intros [A B]. apply N.leb_le in A, B. rewrite A, B in Su. discriminate. }
      apply N.leb_le in Lo.
      unfold c0 in *.
      rewrite (enc_dec3 b0 b1 b2 (between _ _ _ E3) C1 C2 Lo Hs).
      cbn [length] in Hlen.
      rewrite (IH r3 s3) by (auto; lia). reflexivity. }
    destruct ((0xF0 <=? b0) && (b0 <=? 0xF4)) eqn:E4; [|discriminate].
    destruct r1 as [|b1 [|b2 [|b3 r4]]]; try discriminate.
    cbv zeta.
    destruct (is_cont b1) eqn:C1; [|discriminate].
    destruct (is_cont b2) eqn:C2; [|discriminate].
    destruct (is_cont b3) eqn:C3; [|discriminate].
    cbn [andb].
    match goal with |- context [(0x10000 <=? ?c)] => set (c0 := c) end.
    destruct (0x10000 <=? c0) eqn:Lo; [|discriminate].
    destruct (c0 <? 0x110000) eqn:Hi; [|discriminate].
    cbn [andb].
    destruct (decode_utf8 r4) as [s4|e] eqn:D; [|discriminate].
    intros E; injection E as <-. cbn [encode_utf8].
    apply N.leb_le in Lo. apply N.ltb_lt in Hi.
    unfold c0 in *.
    rewrite (enc_dec4 b0 b1 b2 b3 (between _ _ _ E4) C1 C2 C3 (conj Lo Hi)).
    cbn [length] in Hlen.
    rewrite (IH r4 s4) by (auto; lia). reflexivity.
Qed.

Lemma encode_of_decode (raw : bytes) (s : str) :
  decode_utf8 raw = Ok s -> encode_utf8 s = Ok raw.
Proof. apply (encode_of_decode_bounded (length raw)). lia. Qed.

End Utf8Converse.

(** X6: bytes that decode give back, once encoded, the same bytes: the
    received message determines what was on the wire. *)
Theorem encode_decode_utf8 (raw : bytes) (s : str) :
  decode_utf8 raw = Ok s -> encode_utf8 s = Ok raw.
Proof. apply encode_of_decode. Qed.

(** ** Checksum codec: the documented behaviour *)

Example checksum_docstring :
  checksum (py "1 0 That was the time fo ") = Ok (py "02018").
Proof. vm_compute. reflexivity. Qed.

Example checksum_verifier_docstring :
  checksum_verifier (py "1 0 That was the time fo 02018") = Ok true.
Proof. vm_compute. reflexivity. Qed.

(** A blank where the zero should be compares unequal, although both fields
    read 2018 as numbers. *)
Example checksum_verifier_leading_zero :
  checksum_verifier (py "1 0 That was the time fo  2018") = Ok false.
Proof. vm_compute. reflexivity. Qed.

(** The codec on text outside ASCII: U+00E9, U+20AC and U+1F600. *)
Example encode_utf8_sample :
  encode_utf8 [0xE9; 0x20AC; 0x1F600]%N
  = Ok [0xC3; 0xA9; 0xE2; 0x82; 0xAC; 0xF0; 0x9F; 0x98; 0x80]%N.
Proof. vm_compute. reflexivity. Qed.

Example decode_utf8_sample :
  decode_utf8 [0xC3; 0xA9; 0xE2; 0x82; 0xAC; 0xF0; 0x9F; 0x98; 0x80]%N
  = Ok [0xE9; 0x20AC; 0x1F600]%N.
Proof. vm_compute. reflexivity. Qed.

Example decode_utf8_rejects :
  decode_utf8 [0xC0; 0x80]%N = Raise UnicodeDecodeError /\
  decode_utf8 [0xED; 0xA0; 0x80]%N = Raise UnicodeDecodeError /\
  decode_utf8 [0xE2; 0x82]%N = Raise UnicodeDecodeError /\
  decode_utf8 [0x80]%N = Raise UnicodeDecodeError /\
  decode_utf8 [0xF4; 0x90; 0x80; 0x80]%N = Raise UnicodeDecodeError.
Proof. vm_compute. repeat split. Qed.

Example encode_utf8_surrogate :
  encode_utf8 [0x41; 0xD800]%N = Raise UnicodeEncodeError.
Proof. vm_compute. reflexivity. Qed.

Example format_05d_samples :
  format_05d 0 = py "00000" /\ format_05d 2018 = py "02018" /\
  format_05d 99999 = py "99999" /\ format_05d 100000 = py "100000" /\
  format_05d (-7) = py "-0007" /\ str_of_int 0 = py "0" /\
  str_of_int 1234567 = py "1234567" /\ str_of_int (-42) = py "-42".
Proof. vm_compute. repeat split. Qed.

(** C7: [checksum] is a function of its argument alone, and for a string
    whose UTF-8 bytes sum to less than 100000 it returns the decimal digits of
    that sum, padded with zeros on the left to exactly five characters. *)
Theorem checksum_five_digit_decimal (msg : str) (b : bytes) :
  encode_utf8 msg = Ok b ->
  sum_bytes b < 100000 ->
  (forall msg', msg' = msg -> checksum msg' = checksum msg) /\
  checksum msg = Ok (five_digits (sum_bytes b)) /\
  length (five_digits (sum_bytes b)) = 5%nat /\
  Forall (fun c => (48 <= c <= 57)%N) (five_digits (sum_bytes b)) /\
  fold_left (fun a c => 10 * a + (Z.of_N c - 48)) (five_digits (sum_bytes b)) 0
    = sum_bytes b.
Proof.
  intros Henc Hsum.
  pose proof (sum_bytes_nonneg b) as Hpos.
  split; [intros msg' ->; reflexivity|].
  split; [apply checksum_small; assumption|].
  split; [reflexivity|]. apply five_digits_value; lia.
Qed.

(** C6: a message shorter than 30 characters is rejected; a message of at
    least 30 characters is verified exactly when its last five characters
    are, as a string, the checksum recomputed over the characters before
    them. *)
Theorem checksum_verifier_spec (msg : str) :
  ((length msg < 30)%nat -> checksum_verifier msg = Ok false) /\
  ((30 <= length msg)%nat ->
   (checksum_verifier msg = Ok true <->
    checksum (slice_drop_last 5 msg) = Ok (slice_last 5 msg))).
Proof.
  split; [apply verifier_short | apply verifier_long].
Qed.

(** C5, as amended: for content of at least 25 characters whose bytes sum to
    less than 100000, the message [content + checksum(content)] is verified. *)
Theorem checksum_round_trip (content : str) (b : bytes) :
  encode_utf8 content = Ok b ->
  sum_bytes b < 100000 ->
  (25 <= length content)%nat ->
  (cs <- checksum content ;; checksum_verifier (content ++ cs))%result = Ok true.
Proof.
  intros Henc Hsum Hlen.
  pose proof (checksum_small content b Henc Hsum) as Hcs.
  rewrite Hcs. cbn [rbind].
  apply verifier_long.
  - rewrite length_app, five_digits_length. lia.
  - rewrite slice_drop_last_app, slice_last_app by apply five_digits_length.
    exact Hcs.
Qed.

(** C5 as stated fails on short content: the message built from ["hello"]
    and its checksum has 10 characters and is rejected. *)
Lemma short_content_is_rejected :
  (cs <- checksum (py "hello") ;; checksum_verifier (py "hello" ++ cs))%result
  = Ok false.
Proof. vm_compute. reflexivity. Qed.

(** It also fails once the byte sum needs six digits: the last five
    characters are then no longer the whole checksum. *)
Lemma six_digit_sum_is_rejected :
  sum_bytes (repeat 126%N 800) = 100800 /\
  (cs <- checksum (repeat 126%N 800) ;;
   checksum_verifier (repeat 126%N 800 ++ cs))%result = Ok false.
Proof. vm_compute. split; reflexivity. Qed.

(** C8, as amended: for an ack bit 0 or 1, [make_packet] returns 30
    characters: two blanks, the bit's digit at character 2, a blank, the 20
    blanks of placeholder padding, a blank, and in the last five characters
    the checksum of the 25 before them; the packet passes verification. *)
Theorem ack_packet_layout (bit : Z) :
  bit = 0 \/ bit = 1 ->
  exists p cs,
    make_packet bit = Ok p /\
    p = py "  " ++ [digit_char bit] ++ py " " ++ spaces ++ py " " ++ cs /\
    spaces = repeat (N_of_ascii " ") 20 /\
    length p = 30%nat /\
    nth_error p 2 = Some (digit_char bit) /\
    slice 4 24 p = spaces /\
    slice_last 5 p = cs /\
    checksum (slice_drop_last 5 p) = Ok cs /\
    checksum_verifier p = Ok true.
Proof.
  intros [-> | ->].
  - exists (py "  0                      00816"), (py "00816").
    vm_compute. repeat split.
  - exists (py "  1                      00817"), (py "00817").
    vm_compute. repeat split.
Qed.

(** C8 as stated fails at character 0: the packet for ack bit 1 begins with a
    blank, not with the digit. *)
Lemma ack_packet_starts_with_blank :
  (p <- make_packet 1 ;; subscript0 p)%result = Ok (N_of_ascii " ") /\
  N_of_ascii " " <> digit_char 1.
Proof. split; [vm_compute; reflexivity | vm_compute; discriminate]. Qed.

(** ** One pass of the receive loop *)

Section Passes.

Variable unicode_decimal : N -> option Z.

Local Abbreviation try_body := (try_body unicode_decimal).
Local Abbreviation iteration := (iteration unicode_decimal).
Local Abbreviation receive_loop := (receive_loop unicode_decimal).
Local Abbreviation seq_num_of := (seq_num_of unicode_decimal).

Local Arguments make_packet : simpl never.
Local Arguments encode_utf8 : simpl never.
Local Arguments decode_utf8 : simpl never.
Local Arguments checksum_verifier : simpl never.
Local Arguments slice : simpl never.
Local Arguments Z.add : simpl never.
Local Arguments Z.modulo : simpl never.

Lemma try_body_corrupt (s : session) (raw : bytes) (msg : str) :
  decode_utf8 raw = Ok msg -> msg <> [] ->
  checksum_verifier msg = Ok false ->
  exists nak,
    ack_on_wire ((ACK s + 1) mod 2) = Ok nak /\
    try_body (deliver raw) s = (replied s 1 nak, Continue).
Proof.
  intros Hdec Hne Hver.
  destruct (ack_on_wire_total ((ACK s + 1) mod 2)) as (p & Hmk & Henc & Hwire).
  exists p. split; [exact Hwire|].
  unfold_pass.
  rewrite Hdec, (str_eqb_nil_false _ Hne), Hver. simpl.
  rewrite Hmk, Henc. reflexivity.
Qed.

Lemma try_body_out_of_order (s : session) (raw : bytes) (msg : str) (n : Z) :
  decode_utf8 raw = Ok msg ->
  checksum_verifier msg = Ok true ->
  seq_num_of msg = Ok n -> n <> SEQ s ->
  exists nak,
    ack_on_wire ((ACK s + 1) mod 2) = Ok nak /\
    try_body (deliver raw) s = (replied s 0 nak, Continue).
Proof.
  intros Hdec Hver Hseq Hn.
  destruct (ack_on_wire_total ((ACK s + 1) mod 2)) as (p & Hmk & Henc & Hwire).
  exists p. split; [exact Hwire|].
  assert (Hne : msg <> []).
  { intros ->. apply verified_length in Hver. simpl in Hver. lia. }
  apply Z.eqb_neq in Hn.
  unfold_pass.
  rewrite Hdec, (str_eqb_nil_false _ Hne), Hver. simpl.
  rewrite Hseq. change (SEQ (incr_total_packet_recv s)) with (SEQ s).
  rewrite Hn. simpl.
  rewrite Hmk, Henc. unfold replied. simpl.
  rewrite Z.add_0_r. reflexivity.
Qed.

Lemma try_body_accept (s : session) (raw : bytes) (pkt : str) :
  decode_utf8 raw = Ok pkt ->
  checksum_verifier pkt = Ok true ->
  seq_num_of pkt = Ok (SEQ s) ->
  exists ack,
    ack_on_wire (ACK s) = Ok ack /\
    try_body (deliver raw) s = (accepted s pkt ack, Val tt).
Proof.
  intros Hdec Hver Hseq.
  destruct (ack_on_wire_total (ACK s)) as (p & Hmk & Henc & Hwire).
  exists p. split; [exact Hwire|].
  assert (Hne : pkt <> []).
  { intros ->. apply verified_length in Hver. simpl in Hver. lia. }
  unfold_pass.
  rewrite Hdec, (str_eqb_nil_false _ Hne), Hver. simpl.
  rewrite Hseq. change (SEQ (incr_total_packet_recv s)) with (SEQ s).
  rewrite Z.eqb_refl. simpl.
  rewrite Hmk, Henc. reflexivity.
Qed.

(** A pass whose [try] body ends without raising is the body itself. *)
Lemma iteration_no_raise (ev : io) (s s' : session) (f : flow unit) :
  try_body ev s = (s', f) -> (forall e, f <> Throw e) ->
  iteration ev s = (s', f).
Proof.
  intros H Hf. unfold iteration. rewrite H.
  destruct f as [[]| | |e]; try reflexivity.
  exfalso; apply (Hf e); reflexivity.
Qed.

End Passes.

(** ** What any pass does to the buffer and the two state bits *)

Section Frames.

Variable unicode_decimal : N -> option Z.

Local Abbreviation try_body := (try_body unicode_decimal).
Local Abbreviation iteration := (iteration unicode_decimal).
Local Abbreviation receive_loop := (receive_loop unicode_decimal).

Local Arguments make_packet : simpl never.
Local Arguments encode_utf8 : simpl never.
Local Arguments decode_utf8 : simpl never.
Local Arguments checksum_verifier : simpl never.
Local Arguments slice : simpl never.
Local Arguments Z.add : simpl never.
Local Arguments Z.modulo : simpl never.

Lemma try_body_effect (ev : io) (s : session) :
  pass_effect ev s (try_body ev s).
Proof.
  assert (Hsame : forall s', data s' = data s -> ACK s' = ACK s ->
                    SEQ s' = SEQ s -> unmoved ev s s')
    by (intros s' ? ? ?; split; [|split]; auto).
  unfold try_body, bind, call, is_corrupt, send_packet, get, update,
    ret, continue_, break_.
  destruct (recv_reply ev) as [raw|e]; [|apply Hsame; reflexivity].
  destruct (decode_utf8 raw) as [msg|e]; [|apply Hsame; reflexivity].
  destruct (str_eqb msg []); [apply Hsame; reflexivity|].
  destruct (checksum_verifier msg) as [[|]|e] eqn:Hver; simpl.
  - destruct (seq_num_of unicode_decimal msg) as [n|e];
      [|apply Hsame; reflexivity].
    change (SEQ (incr_total_packet_recv s)) with (SEQ s).
    destruct (n =? SEQ s); simpl.
    + destruct (ack_on_wire_total (ACK s)) as (p & Hmk & Henc & _).
      rewrite Hmk, Henc. simpl.
      destruct (sendall_reply ev) as [[]|e] eqn:Hsend; simpl.
      * exists msg. repeat split; assumption.
      * split; [reflexivity|]. split; [reflexivity|].
        right. split; [rewrite Hsend; discriminate|].
        exists msg. split; [assumption | reflexivity].
    + destruct (ack_on_wire_total ((ACK s + 1) mod 2)) as (p & Hmk & Henc & _).
      rewrite Hmk, Henc. simpl.
      destruct (sendall_reply ev) as [[]|e]; simpl; apply Hsame; reflexivity.
  - destruct (ack_on_wire_total ((ACK s + 1) mod 2)) as (p & Hmk & Henc & _).
    rewrite Hmk, Henc. simpl.
    destruct (sendall_reply ev) as [[]|e]; simpl; apply Hsame; reflexivity.
  - apply Hsame; reflexivity.
Qed.

Lemma iteration_effect (ev : io) (s : session) :
  pass_effect ev s (iteration ev s).
Proof.
  pose proof (try_body_effect ev s) as H. unfold iteration.
  destruct (try_body ev s) as [s' [[]| | |[]]]; exact H.
Qed.

(** X3: a pass runs its body to the end exactly when the socket delivers a
    verified message with the expected sequence number and takes the
    acknowledgment: these are the passes [accepted_count] counts. *)
Theorem pass_completes_iff_accepts (ev : io) (s : session) :
  snd (iteration ev s) = Val tt <->
  exists raw pkt,
    recv_reply ev = Ok raw /\ decode_utf8 raw = Ok pkt /\
    checksum_verifier pkt = Ok true /\
    seq_num_of unicode_decimal pkt = Ok (SEQ s) /\
    sendall_reply ev = Ok tt.
Proof.
  split.
  - unfold iteration.
    assert (H : snd (try_body ev s) = Val tt ->
                exists raw pkt,
                  recv_reply ev = Ok raw /\ decode_utf8 raw = Ok pkt /\
                  checksum_verifier pkt = Ok true /\
                  seq_num_of unicode_decimal pkt = Ok (SEQ s) /\
                  sendall_reply ev = Ok tt).
    { unfold try_body, bind, call, is_corrupt, send_packet, get, update,
        ret, continue_, break_.
      destruct (recv_reply ev) as [raw|e]; [|discriminate].
      destruct (decode_utf8 raw) as [msg|e] eqn:Hdec; [|discriminate].
      destruct (str_eqb msg []); [discriminate|].
      destruct (checksum_verifier msg) as [[|]|e] eqn:Hver; simpl.
      - destruct (seq_num_of unicode_decimal msg) as [n|e] eqn:Hseq;
          [|discriminate].
        change (SEQ (incr_total_packet_recv s)) with (SEQ s).
        destruct (n =? SEQ s) eqn:Hn; simpl.
        + apply Z.eqb_eq in Hn. subst n.
          destruct (ack_on_wire_total (ACK s)) as (p & Hmk & Henc & _).
          rewrite Hmk, Henc. simpl.
          destruct (sendall_reply ev) as [[]|e]; simpl; [|discriminate].
          intros _. exists raw, msg. auto.
        + destruct (ack_on_wire_total ((ACK s + 1) mod 2)) as (p & Hmk & Henc & _).
          rewrite Hmk, Henc. simpl.
          destruct (sendall_reply ev) as [[]|e]; discriminate.
      - destruct (ack_on_wire_total ((ACK s + 1) mod 2)) as (p & Hmk & Henc & _).
        rewrite Hmk, Henc. simpl.
        destruct (sendall_reply ev) as [[]|e]; discriminate.
      - discriminate. }
    destruct (try_body ev s) as [s' [[]| | |[]]]; cbn [snd] in *;
      try discriminate; intros _; apply H; reflexivity.
  - intros (raw & pkt & Hrecv & Hdec & Hver & Hseq & Hsend).
    destruct (try_body_accept unicode_decimal s raw pkt Hdec Hver Hseq)
      as (ack & _ & Hb).
    assert (Hev : ev = deliver raw).
    { destruct ev as [r sd]. cbn [recv_reply sendall_reply] in *.
      subst. reflexivity. }
    unfold iteration. rewrite Hev, Hb. reflexivity.
Qed.

End Frames.

(** ** The receive loop *)

Section Loop.

Variable unicode_decimal : N -> option Z.

Local Abbreviation try_body := (try_body unicode_decimal).
Local Abbreviation iteration := (iteration unicode_decimal).
Local Abbreviation receive_loop := (receive_loop unicode_decimal).
Local Abbreviation seq_num_of := (seq_num_of unicode_decimal).

Lemma iteration_corrupt (s : session) (raw : bytes) (msg : str) :
  decode_utf8 raw = Ok msg -> msg <> [] ->
  checksum_verifier msg = Ok false ->
  exists nak,
    ack_on_wire ((ACK s + 1) mod 2) = Ok nak /\
    iteration (deliver raw) s = (replied s 1 nak, Continue).
Proof.
  intros Hdec Hne Hver.
  destruct (try_body_corrupt unicode_decimal s raw msg Hdec Hne Hver)
    as (nak & Hw & Hb).
  exists nak. split; [exact Hw|].
  apply iteration_no_raise; [exact Hb | discriminate].
Qed.

Lemma iteration_out_of_order (s : session) (raw : bytes) (msg : str) (n : Z) :
  decode_utf8 raw = Ok msg ->
  checksum_verifier msg = Ok true ->
  seq_num_of msg = Ok n -> n <> SEQ s ->
  exists nak,
    ack_on_wire ((ACK s + 1) mod 2) = Ok nak /\
    iteration (deliver raw) s = (replied s 0 nak, Continue).
Proof.
  intros Hdec Hver Hseq Hn.
  destruct (try_body_out_of_order unicode_decimal s raw msg n Hdec Hver Hseq Hn)
    as (nak & Hw & Hb).
  exists nak. split; [exact Hw|].
  apply iteration_no_raise; [exact Hb | discriminate].
Qed.

Lemma iteration_accept (s : session) (raw : bytes) (pkt : str) :
  decode_utf8 raw = Ok pkt ->
  checksum_verifier pkt = Ok true ->
  seq_num_of pkt = Ok (SEQ s) ->
  exists ack,
    ack_on_wire (ACK s) = Ok ack /\
    iteration (deliver raw) s = (accepted s pkt ack, Val tt).
Proof.
  intros Hdec Hver Hseq.
  destruct (try_body_accept unicode_decimal s raw pkt Hdec Hver Hseq)
    as (ack & Hw & Hb).
  exists ack. split; [exact Hw|].
  apply iteration_no_raise; [exact Hb | discriminate].
Qed.

(** In-order packets from any point of the alternation. *)
Lemma receive_in_order (raws : list bytes) (pkts : list str) :
  Forall2 (fun raw pkt => decode_utf8 raw = Ok pkt) raws pkts ->
  forall (k : nat) (s : session),
    (forall i pkt, nth_error pkts i = Some pkt ->
       checksum_verifier pkt = Ok true /\
       seq_num_of pkt = Ok (Z.of_nat (k + i) mod 2)) ->
    ACK s = Z.of_nat k mod 2 -> SEQ s = Z.of_nat k mod 2 ->
    exists acks,
      Forall2 (fun i wire => ack_on_wire (Z.of_nat i mod 2) = Ok wire)
        (seq k (length pkts)) acks /\
      receive_loop (map deliver raws) s =
      Waiting
        {| data := data s ++ concat (map (slice 4 24) pkts);
           total_packet_sent := total_packet_sent s + Z.of_nat (length pkts);
           total_packet_recv := total_packet_recv s + Z.of_nat (length pkts);
           total_corrupted_pkt_recv := total_corrupted_pkt_recv s;
           ACK := Z.of_nat (k + length pkts) mod 2;
           SEQ := Z.of_nat (k + length pkts) mod 2;
           outbox := outbox s ++ acks |}.
Proof.
  induction 1 as [|raw pkt raws pkts Hdec _ IH]; intros k s Hall Hack Hseq.
  - exists []. split; [constructor|].
    cbn [map receive_loop length concat seq].
    rewrite Nat.add_0_r, !Z.add_0_r, !app_nil_r.
    rewrite <- Hack at 1. rewrite <- Hseq.
    destruct s; reflexivity.
  - destruct (Hall 0%nat pkt eq_refl) as [Hver Hbit].
    rewrite Nat.add_0_r, <- Hseq in Hbit.
    destruct (iteration_accept s raw pkt Hdec Hver Hbit) as (ack & Hw & Hit).
    destruct (IH (S k) (accepted s pkt ack)) as (acks & Hacks & Hrun).
    + intros i p Hp. replace (S k + i)%nat with (k + S i)%nat by lia.
      apply Hall. exact Hp.
    + cbn [ACK accepted]. rewrite Hack. apply succ_mod2.
    + cbn [SEQ accepted]. rewrite Hseq. apply succ_mod2.
    + exists (ack :: acks). split.
      * cbn [length seq]. constructor; [|exact Hacks].
        rewrite <- Hack. exact Hw.
      * cbn [map receive_loop]. rewrite Hit, Hrun.
        cbn [accepted data total_packet_sent total_packet_recv
               total_corrupted_pkt_recv outbox length concat map].
        f_equal. f_equal.
        -- rewrite <- app_assoc. reflexivity.
        -- lia.
        -- lia.
        -- f_equal. lia.
        -- f_equal. lia.
        -- rewrite <- app_assoc. reflexivity.
Qed.

Lemma payloads_length (pkts : list str) :
  (forall i pkt, nth_error pkts i = Some pkt -> length pkt = 30%nat) ->
  length (concat (map (slice 4 24) pkts)) = (20 * length pkts)%nat.
Proof.
  induction pkts as [|pkt pkts IH]; intros H; [reflexivity|].
  cbn [map concat length]. rewrite length_app, IH.
  - rewrite slice_length by (rewrite (H 0%nat pkt eq_refl); lia). lia.
  - intros i p Hp. apply (H (S i)). exact Hp.
Qed.

(** The replies to packets in order are the two frames in turn. *)
Lemma acks_alternate (k n : nat) (acks : list bytes) :
  Forall2 (fun i wire => ack_on_wire (Z.of_nat i mod 2) = Ok wire)
    (seq k n) acks ->
  acks = map (fun i => if Z.of_nat i mod 2 =? 0 then frame0 else frame1)
           (seq k n).
Proof.
  revert k acks; induction n as [|n IH]; intros k acks H; cbn [seq] in *.
  - inversion H. reflexivity.
  - inversion H as [|i w is' ws Hw Hrest]; subst. cbn [map].
    f_equal; [apply ack_frame; exact Hw | apply IH; exact Hrest].
Qed.

(** C1: [N] well-formed 30-character packets with valid checksums and
    sequence bits 0,1,0,1,... are all accepted from the initial state: the
    buffer is the concatenation of their payload fields [4:24] (the 20
    characters at positions 4 to 23 of each) in arrival order, and exactly
    [N] acknowledgments leave, the i-th being the frame that carries bit
    [i mod 2], the value of [ACK] before that pass advanced both bits. *)
Theorem in_order_packets_all_accepted (raws : list bytes) (pkts : list str) :
  Forall2 (fun raw pkt => decode_utf8 raw = Ok pkt) raws pkts ->
  (forall i pkt, nth_error pkts i = Some pkt ->
     length pkt = 30%nat /\
     checksum_verifier pkt = Ok true /\
     seq_num_of pkt = Ok (Z.of_nat i mod 2)) ->
  exists acks,
    acks = map (fun i => if Z.of_nat i mod 2 =? 0 then frame0 else frame1)
             (seq 0 (length pkts)) /\
    Forall2 (fun i wire => ack_on_wire (Z.of_nat i mod 2) = Ok wire)
      (seq 0 (length pkts)) acks /\
    receive_loop (map deliver raws) initial =
    Waiting
      {| data := concat (map (slice 4 24) pkts);
         total_packet_sent := Z.of_nat (length pkts);
         total_packet_recv := Z.of_nat (length pkts);
         total_corrupted_pkt_recv := 0;
         ACK := Z.of_nat (length pkts) mod 2;
         SEQ := Z.of_nat (length pkts) mod 2;
         outbox := acks |} /\
    length (concat (map (slice 4 24) pkts)) = (20 * length pkts)%nat /\
    (forall i pkt, nth_error pkts i = Some pkt ->
       length (slice 4 24 pkt) = 20%nat /\
       forall j, (j < 20)%nat ->
         nth_error (slice 4 24 pkt) j = nth_error pkt (4 + j)).
Proof.
  intros Hdec Hall.
  destruct (receive_in_order raws pkts Hdec 0%nat initial) as (acks & Hacks & Hrun).
  - intros i pkt Hp. destruct (Hall i pkt Hp) as (_ & Hv & Hs). auto.
  - reflexivity.
  - reflexivity.
  - exists acks. split; [apply acks_alternate; exact Hacks|].
    split; [exact Hacks|]. split; [|split].
    + rewrite Hrun. reflexivity.
    + apply payloads_length. intros i pkt Hp. apply (Hall i pkt Hp).
    + intros i pkt Hp. apply verified_payload. apply (Hall i pkt Hp).
Qed.

(** C2: a packet that fails checksum verification adds one to the
    corrupted-packet counter, is answered by exactly one packet, the frame
    that carries [(ACK + 1) mod 2], and leaves [SEQ], [ACK] and the buffer
    as they were; a verified packet with the expected sequence bit arriving
    next is accepted: its payload field, the 20 characters at positions 4 to
    23, is appended, it is answered by the frame that carries [ACK], and
    both bits advance. *)
Theorem corrupt_packet_is_refused (s : session) (raw : bytes) (msg : str) :
  decode_utf8 raw = Ok msg -> msg <> [] ->
  checksum_verifier msg = Ok false ->
  exists nak,
    nak = (if (ACK s + 1) mod 2 =? 0 then frame0 else frame1) /\
    ack_on_wire ((ACK s + 1) mod 2) = Ok nak /\
    iteration (deliver raw) s =
    ({| data := data s;
        total_packet_sent := total_packet_sent s + 1;
        total_packet_recv := total_packet_recv s + 1;
        total_corrupted_pkt_recv := total_corrupted_pkt_recv s + 1;
        ACK := ACK s; SEQ := SEQ s;
        outbox := outbox s ++ [nak] |}, Continue) /\
    forall raw' pkt,
      decode_utf8 raw' = Ok pkt ->
      checksum_verifier pkt = Ok true ->
      seq_num_of pkt = Ok (SEQ s) ->
      exists ack,
        ack_on_wire (ACK s) = Ok ack /\
        (ACK s = 0 -> ack = frame0) /\
        (ACK s = 1 -> ack = frame1) /\
        receive_loop [deliver raw; deliver raw'] s =
        Waiting
          {| data := data s ++ slice 4 24 pkt;
             total_packet_sent := total_packet_sent s + 1 + 1;
             total_packet_recv := total_packet_recv s + 1 + 1;
             total_corrupted_pkt_recv := total_corrupted_pkt_recv s + 1;
             ACK := (ACK s + 1) mod 2; SEQ := (SEQ s + 1) mod 2;
             outbox := (outbox s ++ [nak]) ++ [ack] |} /\
        length (slice 4 24 pkt) = 20%nat /\
        (forall j, (j < 20)%nat ->
           nth_error (slice 4 24 pkt) j = nth_error pkt (4 + j)).
Proof.
  intros Hdec Hne Hver.
  destruct (iteration_corrupt s raw msg Hdec Hne Hver) as (nak & Hw & Hit).
  exists nak. split; [apply ack_frame; exact Hw|].
  split; [exact Hw|]. split; [exact Hit|].
  intros raw' pkt Hdec' Hver' Hseq'.
  destruct (iteration_accept (replied s 1 nak) raw' pkt Hdec' Hver' Hseq')
    as (ack & Hw' & Hit').
  change (ACK (replied s 1 nak)) with (ACK s) in Hw'.
  destruct frames_on_wire as [H0 H1].
  exists ack. split; [exact Hw'|].
  split; [intros E; rewrite E in Hw'; congruence|].
  split; [intros E; rewrite E in Hw'; congruence|].
  split; [|apply verified_payload; exact Hver'].
  cbn [receive_loop]. rewrite Hit, Hit'. reflexivity.
Qed.

(** C3: a verified packet whose sequence bit is not the expected one is
    answered by exactly one packet, the frame that carries
    [(ACK + 1) mod 2]; its payload is not appended, [SEQ] and [ACK] do not
    advance and the corrupted-packet counter does not move. *)
Theorem out_of_order_packet_is_refused
    (s : session) (raw : bytes) (msg : str) (n : Z) :
  decode_utf8 raw = Ok msg ->
  checksum_verifier msg = Ok true ->
  seq_num_of msg = Ok n -> n <> SEQ s ->
  exists nak,
    nak = (if (ACK s + 1) mod 2 =? 0 then frame0 else frame1) /\
    ack_on_wire ((ACK s + 1) mod 2) = Ok nak /\
    iteration (deliver raw) s =
    ({| data := data s;
        total_packet_sent := total_packet_sent s + 1;
        total_packet_recv := total_packet_recv s + 1;
        total_corrupted_pkt_recv := total_corrupted_pkt_recv s;
        ACK := ACK s; SEQ := SEQ s;
        outbox := outbox s ++ [nak] |}, Continue).
Proof.
  intros Hdec Hver Hseq Hn.
  destruct (iteration_out_of_order s raw msg n Hdec Hver Hseq Hn)
    as (nak & Hw & Hit).
  exists nak. split; [apply ack_frame; exact Hw|]. split; [exact Hw|].
  rewrite Hit. unfold replied. rewrite Z.add_0_r. reflexivity.
Qed.

End Loop.

(** ** The alternation invariant and the ways out of the loop *)

Section Invariant.

Variable unicode_decimal : N -> option Z.

Local Abbreviation try_body := (try_body unicode_decimal).
Local Abbreviation iteration := (iteration unicode_decimal).
Local Abbreviation receive_loop := (receive_loop unicode_decimal).
Local Abbreviation seq_num_of := (seq_num_of unicode_decimal).
Local Abbreviation receive_file := (receive_file unicode_decimal).

Local Abbreviation accepted_count := (accepted_count unicode_decimal).

Lemma bits_count_loop (evs : list io) :
  forall (s : session) (k : nat),
    ACK s = Z.of_nat k mod 2 -> SEQ s = Z.of_nat k mod 2 ->
    ACK (session_of (receive_loop evs s))
      = Z.of_nat (k + accepted_count evs s) mod 2 /\
    SEQ (session_of (receive_loop evs s))
      = Z.of_nat (k + accepted_count evs s) mod 2.
Proof.
  induction evs as [|ev evs IH]; intros s k Hack Hseq.
  - cbn [receive_loop accepted_count session_of]. rewrite Nat.add_0_r. auto.
  - cbn [receive_loop accepted_count].
    pose proof (iteration_effect unicode_decimal ev s) as Heff.
    destruct (iteration ev s) as [s1 [[]| | |e]]; cbn [pass_effect] in Heff.
    + destruct Heff as (pkt & _ & _ & Ha & Hs).
      replace (k + S (accepted_count evs s1))%nat
        with (S k + accepted_count evs s1)%nat by lia.
      apply IH.
      * rewrite Ha, Hack. apply succ_mod2.
      * rewrite Hs, Hseq. apply succ_mod2.
    + destruct Heff as (Ha & Hs & _). apply IH; congruence.
    + destruct Heff as (Ha & Hs & _). cbn [session_of].
      rewrite Nat.add_0_r. split; congruence.
    + destruct Heff as (Ha & Hs & _). cbn [session_of].
      rewrite Nat.add_0_r. split; congruence.
Qed.

Lemma buffer_loop (evs : list io) :
  Forall (fun ev => sendall_reply ev = Ok tt) evs ->
  forall (s : session) (acc : list str),
    data s = concat (map (slice 4 24) acc) ->
    exists acc',
      length acc' = accepted_count evs s /\
      Forall (fun pkt => checksum_verifier pkt = Ok true) acc' /\
      data (session_of (receive_loop evs s))
        = concat (map (slice 4 24) (acc ++ acc')).
Proof.
  induction 1 as [|ev evs Hsend _ IH]; intros s acc Hdata.
  - exists []. rewrite app_nil_r. repeat split; [constructor | exact Hdata].
  - cbn [receive_loop accepted_count].
    pose proof (iteration_effect unicode_decimal ev s) as Heff.
    destruct (iteration ev s) as [s1 [[]| | |e]]; cbn [pass_effect] in Heff.
    + destruct Heff as (pkt & Hv & Hd & _).
      destruct (IH s1 (acc ++ [pkt])) as (acc' & Hlen & Hver & Hfin).
      { rewrite Hd, Hdata, map_app, concat_app. cbn [map concat].
        rewrite app_nil_r. reflexivity. }
      exists (pkt :: acc'). cbn [length]. rewrite Hlen.
      split; [reflexivity|]. split; [constructor; assumption|].
      rewrite Hfin, <- app_assoc. reflexivity.
    + destruct Heff as (_ & _ & [Hd|[Hn _]]); [|contradiction].
      apply (IH s1 acc). rewrite Hd. exact Hdata.
    + destruct Heff as (_ & _ & [Hd|[Hn _]]); [|contradiction].
      exists []. rewrite app_nil_r. cbn [session_of].
      repeat split; [constructor | rewrite Hd; exact Hdata].
    + destruct Heff as (_ & _ & [Hd|[Hn _]]); [|contradiction].
      exists []. rewrite app_nil_r. cbn [session_of].
      repeat split; [constructor | rewrite Hd; exact Hdata].
Qed.

Lemma verified_payloads_length (acc : list str) :
  Forall (fun pkt => checksum_verifier pkt = Ok true) acc ->
  length (concat (map (slice 4 24) acc)) = (20 * length acc)%nat.
Proof.
  induction 1 as [|pkt acc Hv _ IH]; [reflexivity|].
  cbn [map concat length]. rewrite length_app, IH.
  apply verified_length in Hv.
  rewrite slice_length by lia. lia.
Qed.

(** C4: from the initial state, whatever the socket delivers (verified,
    corrupt or out-of-order messages, in any order), [SEQ] and [ACK] are
    equal, and both are the number of packets accepted so far modulo 2.
    While the socket takes the replies, the accepted packets are verified
    ones whose 20-character payloads, in order, make up the buffer. *)
Theorem bits_track_accepted_count (evs : list io) :
  let s := session_of (receive_loop evs initial) in
  let n := accepted_count evs initial in
  SEQ s = ACK s /\
  ACK s = Z.of_nat n mod 2 /\
  SEQ s = Z.of_nat n mod 2 /\
  (Forall (fun ev => sendall_reply ev = Ok tt) evs ->
   exists accepted_pkts : list str,
     length accepted_pkts = n /\
     Forall (fun pkt => checksum_verifier pkt = Ok true) accepted_pkts /\
     data s = concat (map (slice 4 24) accepted_pkts) /\
     length (data s) = (20 * n)%nat).
Proof.
  cbn zeta.
  destruct (bits_count_loop evs initial 0%nat eq_refl eq_refl) as [Ha Hs].
  cbn [Nat.add] in Ha, Hs.
  split; [congruence|]. split; [exact Ha|]. split; [exact Hs|].
  intros Hsend.
  destruct (buffer_loop evs Hsend initial [] eq_refl) as (acc & Hlen & Hver & Hd).
  cbn [app] in Hd.
  exists acc. split; [exact Hlen|]. split; [exact Hver|]. split; [exact Hd|].
  rewrite Hd, <- Hlen. apply verified_payloads_length. exact Hver.
Qed.

Lemma receive_loop_app (a b : list io) (s : session) :
  receive_loop (a ++ b) s =
  match receive_loop a s with
  | Waiting s' => receive_loop b s'
  | ended => ended
  end.
Proof.
  revert s; induction a as [|ev a IH]; intros s; [reflexivity|].
  cbn [app receive_loop].
  destruct (iteration ev s) as [s1 [[]| | |e]]; auto.
Qed.

Lemma aborted_recv_leaves (s : session) (sr : result unit) (rest : list io) :
  receive_loop
    ({| recv_reply := Raise ConnectionAbortedError; sendall_reply := sr |} :: rest) s
  = Exited s.
Proof. reflexivity. Qed.

Lemma empty_recv_leaves (s : session) (sr : result unit) (rest : list io) :
  receive_loop ({| recv_reply := Ok []; sendall_reply := sr |} :: rest) s = Exited s.
Proof. reflexivity. Qed.

Lemma iteration_never_aborts (ev : io) (s : session) :
  snd (iteration ev s) <> Throw ConnectionAbortedError.
Proof.
  unfold iteration.
  destruct (try_body ev s) as [s' [[]| | |[]]]; cbn [snd]; discriminate.
Qed.

Lemma loop_never_aborts (evs : list io) (s s' : session) :
  receive_loop evs s <> Propagated ConnectionAbortedError s'.
Proof.
  revert s; induction evs as [|ev evs IH]; intros s; cbn [receive_loop];
    [discriminate|].
  pose proof (iteration_never_aborts ev s) as Hne.
  destruct (iteration ev s) as [s1 [[]| | |e]]; cbn [snd] in Hne;
    try apply IH; try discriminate.
  intros E. injection E as -> _. apply Hne. reflexivity.
Qed.

Lemma encode_raises (msg : str) (e : exn) :
  encode_utf8 msg = Raise e -> e = UnicodeEncodeError.
Proof.
  induction msg as [|c msg IH]; cbn [encode_utf8]; [discriminate|].
  assert (Hc : forall e', encode_char c = Raise e' -> e' = UnicodeEncodeError).
  { unfold encode_char. intros e'.
    repeat match goal with |- context [if ?b then _ else _] => destruct b end;
      try discriminate; intros E; injection E as <-; reflexivity. }
  destruct (encode_char c) as [b|e1].
  - destruct (encode_utf8 msg) as [bs|e2]; [discriminate|].
    intros E; injection E as <-. apply IH. reflexivity.
  - intros E; injection E as <-. apply Hc. reflexivity.
Qed.

Lemma finish_raises (s : session) (e : exn) :
  finish s = Raise e -> e = UnicodeEncodeError.
Proof.
  unfold finish, checksum.
  destruct (encode_utf8 (rstrip_space (data s))) eqn:E; cbn [rbind];
    [discriminate|].
  intros H; injection H as <-. apply (encode_raises _ _ E).
Qed.

(** C10: the receiver's own acknowledgment for bit 0 is a 30-character
    message that passes [checksum_verifier] and begins with a blank, which
    is no decimal digit; on such a message [int(recv_message[0])] raises
    [ValueError], which the pass does not catch, so the exception leaves
    the loop and the data phase. *)
Theorem verified_message_can_crash_the_pass :
  exists (msg : str) (raw : bytes),
    make_packet 0 = Ok msg /\
    encode_utf8 msg = Ok raw /\
    decode_utf8 raw = Ok msg /\
    length msg = 30%nat /\
    checksum_verifier msg = Ok true /\
    subscript0 msg = Ok (N_of_ascii " ") /\
    seq_num_of msg = Raise ValueError /\
    forall (s : session) (sr : result unit) (rest : list io),
      let ev := {| recv_reply := Ok raw; sendall_reply := sr |} in
      iteration ev s = (incr_total_packet_recv s, Throw ValueError) /\
      receive_loop (ev :: rest) s
        = Propagated ValueError (incr_total_packet_recv s) /\
      receive_file (ev :: rest) = Uncaught ValueError.
Proof.
  exists (py "  0                      00816"), (py "  0                      00816").
  assert (Hdec : decode_utf8 (py "  0                      00816")
                 = Ok (py "  0                      00816"))
    by (vm_compute; reflexivity).
  assert (Hver : checksum_verifier (py "  0                      00816") = Ok true)
    by (vm_compute; reflexivity).
  assert (Hseq : seq_num_of (py "  0                      00816") = Raise ValueError)
    by reflexivity.
  split; [vm_compute; reflexivity|].
  split; [vm_compute; reflexivity|].
  split; [exact Hdec|].
  split; [reflexivity|].
  split; [exact Hver|].
  split; [reflexivity|].
  split; [exact Hseq|].
  intros s sr rest ev.
  assert (Hit : forall s0,
             iteration ev s0 = (incr_total_packet_recv s0, Throw ValueError)).
  { intros s0. unfold iteration, try_body, bind, call, is_corrupt,
      get, update, ret, break_, ev; cbn [recv_reply].
    rewrite Hdec. cbv beta iota.
    change (str_eqb (py "  0                      00816") []) with false.
    cbv beta iota. rewrite Hver. cbn [rbind negb]. cbv beta iota.
    rewrite Hseq. reflexivity. }
  split; [apply Hit|].
  split.
  - cbn [receive_loop]. rewrite Hit. reflexivity.
  - unfold receive_file. cbn [receive_loop].
    rewrite Hit. reflexivity.
Qed.

End Invariant.

(** ** The statistics *)

Section Counters.

Variable unicode_decimal : N -> option Z.

Local Arguments make_packet : simpl never.
Local Arguments encode_utf8 : simpl never.
Local Arguments decode_utf8 : simpl never.
Local Arguments checksum_verifier : simpl never.
Local Arguments slice : simpl never.
Local Arguments Z.add : simpl never.
Local Arguments Z.modulo : simpl never.
Local Arguments Z.of_nat : simpl never.

Lemma try_body_counters (ev : io) (s : session) :
  counters_consistent s ->
  counters_consistent (fst (try_body unicode_decimal ev s)).
Proof.
  intros (Hsent & Hle & Hcorr).
  assert (Hstep : forall w, Z.of_nat (length (outbox s ++ [w]))
                            = Z.of_nat (length (outbox s)) + 1)
    by (intros w; rewrite length_app; cbn [length]; lia).
  unfold try_body, bind, call, is_corrupt, send_packet, get, update,
    ret, continue_, break_, counters_consistent.
  destruct (recv_reply ev) as [raw|e]; [|simpl; lia].
  destruct (decode_utf8 raw) as [msg|e]; [|simpl; lia].
  destruct (str_eqb msg []); [simpl; lia|].
  destruct (checksum_verifier msg) as [[|]|e]; simpl.
  - destruct (seq_num_of unicode_decimal msg) as [n|e]; [|simpl; lia].
    change (SEQ (incr_total_packet_recv s)) with (SEQ s).
    destruct (n =? SEQ s); simpl.
    + destruct (ack_on_wire_total (ACK s)) as (p & Hmk & Henc & _).
      rewrite Hmk, Henc. simpl.
      destruct (sendall_reply ev) as [[]|e]; simpl; rewrite ?Hstep; lia.
    + destruct (ack_on_wire_total ((ACK s + 1) mod 2)) as (p & Hmk & Henc & _).
      rewrite Hmk, Henc. simpl.
      destruct (sendall_reply ev) as [[]|e]; simpl; rewrite ?Hstep; lia.
  - destruct (ack_on_wire_total ((ACK s + 1) mod 2)) as (p & Hmk & Henc & _).
    rewrite Hmk, Henc. simpl.
    destruct (sendall_reply ev) as [[]|e]; simpl; rewrite ?Hstep; lia.
  - lia.
Qed.

Lemma iteration_fst (ev : io) (s : session) :
  fst (iteration unicode_decimal ev s) = fst (try_body unicode_decimal ev s).
Proof.
  unfold iteration.
  destruct (try_body unicode_decimal ev s) as [s' [[]| | |[]]]; reflexivity.
Qed.

Lemma loop_counters (evs : list io) :
  forall s, counters_consistent s ->
    counters_consistent (session_of (receive_loop unicode_decimal evs s)).
Proof.
  induction evs as [|ev evs IH]; intros s Hs; [exact Hs|].
  cbn [receive_loop].
  pose proof (try_body_counters ev s Hs) as H1.
  rewrite <- iteration_fst in H1.
  destruct (iteration unicode_decimal ev s) as [s1 [[]| | |e]];
    cbn [fst] in H1; auto.
Qed.

(** X2: whatever the socket does, the sent-packet counter is the number of
    packets that [sendall] took (a reply on which [sendall] raised is not
    counted), no more packets are answered than were received, and no more
    are counted corrupt than were received. *)
Theorem counters_match_traffic (evs : list io) :
  let s := session_of (receive_loop unicode_decimal evs initial) in
  total_packet_sent s = Z.of_nat (length (outbox s)) /\
  total_packet_sent s <= total_packet_recv s /\
  0 <= total_corrupted_pkt_recv s <= total_packet_recv s.
Proof.
  apply loop_counters. repeat split; simpl; lia.
Qed.

End Counters.

(** ** Which exceptions leave the data phase *)

Lemma encodable_app (a b : str) :
  encodable (a ++ b) <-> encodable a /\ encodable b.
Proof.
  unfold encodable. split.
  - induction a as [|c a IH]; cbn [app encode_utf8].
    + intros H. split; [exists []; reflexivity | exact H].
    + destruct (encode_char c) as [bc|e].
      * destruct (encode_utf8 (a ++ b)) as [x|e] eqn:E.
        -- intros _. destruct IH as [[ea Ha] Hb]; [eexists; reflexivity|].
           rewrite Ha. split; [eexists; reflexivity | exact Hb].
        -- intros [x Hx]. discriminate.
      * intros [x Hx]. discriminate.
  - intros [[ea Ha] [eb Hb]]. exists (ea ++ eb).
    apply encode_utf8_app; assumption.
Qed.

Lemma encodable_slice (lo hi : nat) (s : str) :
  encodable s -> encodable (slice lo hi s).
Proof.
  intros H. unfold slice.
  rewrite <- (firstn_skipn lo s) in H. apply encodable_app in H.
  destruct H as [_ H].
  rewrite <- (firstn_skipn (hi - lo) (skipn lo s)) in H.
  apply encodable_app in H. apply H.
Qed.

Lemma encodable_drop_last (k : nat) (s : str) :
  encodable s -> encodable (slice_drop_last k s).
Proof.
  intros H. unfold slice_drop_last.
  rewrite <- (firstn_skipn (length s - k) s) in H.
  apply encodable_app in H. apply H.
Qed.

Lemma lstrip_space_suffix (s : str) : exists p, s = p ++ lstrip_space s.
Proof.
  induction s as [|c s [p IH]]; cbn [lstrip_space].
  - exists []. reflexivity.
  - destruct (c =? 32)%N.
    + exists (c :: p). cbn [app]. rewrite <- IH. reflexivity.
    + exists []. reflexivity.
Qed.

Lemma encodable_rstrip (s : str) : encodable s -> encodable (rstrip_space s).
Proof.
  intros H. unfold rstrip_space.
  destruct (lstrip_space_suffix (rev s)) as [p Hp].
  assert (E : s = rev (lstrip_space (rev s)) ++ rev p).
  { rewrite <- rev_app_distr, <- Hp, rev_involutive. reflexivity. }
  rewrite E in H. apply encodable_app in H. apply H.
Qed.

Lemma decoded_encodable (raw : bytes) (s : str) :
  decode_utf8 raw = Ok s -> encodable s.
Proof. intros H. exists raw. apply encode_of_decode. exact H. Qed.

Lemma verifier_total (msg : str) :
  encodable msg -> exists b, checksum_verifier msg = Ok b.
Proof.
  intros H. unfold checksum_verifier.
  destruct (length msg <? expected_packet_length)%nat; [eexists; reflexivity|].
  destruct (encodable_drop_last 5 msg H) as [b Hb].
  rewrite (checksum_encoded _ _ Hb). cbn [rbind].
  destruct (str_eqb _ _); eexists; reflexivity.
Qed.

Lemma finish_total (s : session) :
  encodable (data s) -> exists r, finish s = Ok r.
Proof.
  intros H. unfold finish.
  destruct (encodable_rstrip _ H) as [b Hb].
  rewrite (checksum_encoded _ _ Hb). cbn [rbind]. eexists; reflexivity.
Qed.

Lemma decode_raises_bounded (n : nat) :
  forall (raw : bytes) (e : exn),
    (length raw <= n)%nat -> decode_utf8 raw = Raise e -> e = UnicodeDecodeError.
Proof.
  induction n as [|n IH]; intros raw e Hlen.
  - destruct raw; [|simpl in Hlen; lia]. discriminate.
  - destruct raw as [|b0 r1]; [discriminate|].
    cbn [length] in Hlen. cbn [decode_utf8].
    assert (Hrec : forall r (c : N), (length r <= n)%nat ->
              match decode_utf8 r with
              | Ok s => Ok (c :: s)
              | Raise e0 => Raise e0
              end = Raise e -> e = UnicodeDecodeError).
    { intros r c Hr. destruct (decode_utf8 r) as [s|e0] eqn:D; [discriminate|].
      intros E; injection E as <-. apply (IH r e0 Hr D). }
    assert (Hlit : @Raise str UnicodeDecodeError = Raise e -> e = UnicodeDecodeError)
      by (intros E; injection E as <-; reflexivity).
    destruct (b0 <? 0x80)%N; [apply Hrec; lia|].
    destruct ((0xC2 <=? b0) && (b0 <=? 0xDF))%N.
    { destruct r1 as [|b1 r2]; [exact Hlit|].
      destruct (is_cont b1); [|exact Hlit].
      cbn [length] in Hlen. apply Hrec. lia. }
    destruct ((0xE0 <=? b0) && (b0 <=? 0xEF))%N.
    { destruct r1 as [|b1 [|b2 r3]]; try exact Hlit.
      cbv zeta.
      match goal with |- context [if ?b then _ else _] => destruct b end;
        [|exact Hlit].
      cbn [length] in Hlen. apply Hrec. lia. }
    destruct ((0xF0 <=? b0) && (b0 <=? 0xF4))%N; [|exact Hlit].
    destruct r1 as [|b1 [|b2 [|b3 r4]]]; try exact Hlit.
    cbv zeta.
    match goal with |- context [if ?b then _ else _] => destruct b end;
      [|exact Hlit].
    cbn [length] in Hlen. apply Hrec. lia.
Qed.

Lemma decode_raises (raw : bytes) (e : exn) :
  decode_utf8 raw = Raise e -> e = UnicodeDecodeError.
Proof. apply (decode_raises_bounded (length raw)). lia. Qed.

Section Escapes.

Variable unicode_decimal : N -> option Z.

Local Arguments make_packet : simpl never.
Local Arguments encode_utf8 : simpl never.
Local Arguments decode_utf8 : simpl never.
Local Arguments checksum_verifier : simpl never.
Local Arguments slice : simpl never.
Local Arguments Z.add : simpl never.
Local Arguments Z.modulo : simpl never.

Lemma verified_payload_encodable (pkt : str) :
  checksum_verifier pkt = Ok true -> encodable (slice 4 24 pkt).
Proof.
  intros H. destruct (verified_round_trip pkt H) as (raw & Henc & _).
  apply encodable_slice. exists raw. exact Henc.
Qed.

Lemma pass_keeps_encodable (ev : io) (s : session) :
  encodable (data s) ->
  encodable (data (fst (iteration unicode_decimal ev s))).
Proof.
  intros H.
  pose proof (iteration_effect unicode_decimal ev s) as Heff.
  assert (Happ : forall pkt, checksum_verifier pkt = Ok true ->
                   encodable (data s ++ slice 4 24 pkt)).
  { intros pkt Hv. apply encodable_app. split; [exact H|].
    apply verified_payload_encodable. exact Hv. }
  destruct (iteration unicode_decimal ev s) as [s1 [[]| | |e]];
    cbn [pass_effect fst] in *.
  - destruct Heff as (pkt & Hv & Hd & _). rewrite Hd. auto.
  - destruct Heff as (_ & _ & [Hd|(_ & pkt & Hv & Hd)]); rewrite Hd; auto.
  - destruct Heff as (_ & _ & [Hd|(_ & pkt & Hv & Hd)]); rewrite Hd; auto.
  - destruct Heff as (_ & _ & [Hd|(_ & pkt & Hv & Hd)]); rewrite Hd; auto.
Qed.

Lemma loop_keeps_encodable (evs : list io) :
  forall s, encodable (data s) ->
    encodable (data (session_of (receive_loop unicode_decimal evs s))).
Proof.
  induction evs as [|ev evs IH]; intros s H; [exact H|].
  cbn [receive_loop].
  pose proof (pass_keeps_encodable ev s H) as H1.
  destruct (iteration unicode_decimal ev s) as [s1 [[]| | |e]];
    cbn [fst] in H1; auto.
Qed.

(** Where an exception raised in the [try] body comes from. *)
Lemma try_body_throws (ev : io) (s s' : session) (e : exn) :
  try_body unicode_decimal ev s = (s', Throw e) ->
  recv_reply ev = Raise e \/ sendall_reply ev = Raise e \/
  e = UnicodeDecodeError \/ e = ValueError.
Proof.
  unfold try_body, bind, call, is_corrupt, send_packet, get, update,
    ret, continue_, break_.
  destruct (recv_reply ev) as [raw|e0];
    [|intros E; injection E as _ <-; left; reflexivity].
  destruct (decode_utf8 raw) as [msg|e0] eqn:Hdec.
  2:{ intros E; injection E as _ <-. right; right; left.
      apply (decode_raises _ _ Hdec). }
  destruct (str_eqb msg []) eqn:Hne; [discriminate|].
  destruct (verifier_total msg (decoded_encodable _ _ Hdec)) as [[|] Hver];
    rewrite Hver; simpl.
  - unfold seq_num_of, int_of_char.
    destruct msg as [|c msg]; [discriminate|]. cbn [subscript0 rbind].
    destruct (if (c <? 128)%N
              then if ((48 <=? c) && (c <=? 57))%N
                   then Ok (Z.of_N c - 48) else Raise ValueError
              else match unicode_decimal c with
                   | Some d => Ok d
                   | None => Raise ValueError
                   end) as [n|e0] eqn:Hint.
    2:{ intros E; injection E as _ <-. right; right; right.
        destruct (c <? 128)%N.
        - destruct ((48 <=? c) && (c <=? 57))%N; [discriminate|].
          injection Hint as <-. reflexivity.
        - destruct (unicode_decimal c); [discriminate|].
          injection Hint as <-. reflexivity. }
    change (SEQ (incr_total_packet_recv s)) with (SEQ s).
    destruct (n =? SEQ s); simpl.
    + destruct (ack_on_wire_total (ACK s)) as (p & Hmk & Henc & _).
      rewrite Hmk, Henc. simpl.
      destruct (sendall_reply ev) as [[]|e0]; simpl; [discriminate|].
      intros E; injection E as _ <-. right; left; reflexivity.
    + destruct (ack_on_wire_total ((ACK s + 1) mod 2)) as (p & Hmk & Henc & _).
      rewrite Hmk, Henc. simpl.
      destruct (sendall_reply ev) as [[]|e0]; simpl; [discriminate|].
      intros E; injection E as _ <-. right; left; reflexivity.
  - destruct (ack_on_wire_total ((ACK s + 1) mod 2)) as (p & Hmk & Henc & _).
    rewrite Hmk, Henc. simpl.
    destruct (sendall_reply ev) as [[]|e0]; simpl; [discriminate|].
    intros E; injection E as _ <-. right; left; reflexivity.
Qed.

Lemma loop_propagates (evs : list io) :
  forall (s s' : session) (e : exn),
    receive_loop unicode_decimal evs s = Propagated e s' ->
    e <> ConnectionAbortedError /\
    ((exists ev, In ev evs /\
                 (recv_reply ev = Raise e \/ sendall_reply ev = Raise e)) \/
     e = UnicodeDecodeError \/ e = ValueError).
Proof.
  induction evs as [|ev evs IH]; intros s s' e; cbn [receive_loop];
    [discriminate|].
  assert (Hlater : forall s1, receive_loop unicode_decimal evs s1 = Propagated e s' ->
            e <> ConnectionAbortedError /\
            ((exists ev0, In ev0 (ev :: evs) /\
                (recv_reply ev0 = Raise e \/ sendall_reply ev0 = Raise e)) \/
             e = UnicodeDecodeError \/ e = ValueError)).
  { intros s1 H. destruct (IH s1 s' e H) as [Hn [(ev0 & Hin & Hr)|Hr]].
    - split; [exact Hn|]. left. exists ev0. split; [right; exact Hin | exact Hr].
    - split; [exact Hn|]. right. exact Hr. }
  unfold iteration.
  destruct (try_body unicode_decimal ev s) as [s1 f] eqn:Hb.
  destruct f as [[]| | |e0]; try discriminate; try apply Hlater.
  destruct (try_body_throws ev s s1 e0 Hb) as [Hr|[Hr|Hr]].
  - destruct e0; try discriminate; intros E; injection E as <- _;
      (split; [discriminate | left; exists ev; split; [left; reflexivity | auto]]).
  - destruct e0; try discriminate; intros E; injection E as <- _;
      (split; [discriminate | left; exists ev; split; [left; reflexivity | auto]]).
  - destruct e0; try discriminate; intros E; injection E as <- _;
      (split; [discriminate | right; destruct Hr; auto; discriminate]).
Qed.

(** X5: an exception leaves the data phase only if the socket raised it, and
    it is not a [ConnectionAbortedError], or if it is the
    [UnicodeDecodeError] of undecodable bytes or the [ValueError] of a first
    character that is no digit; the checksum codec, the ack encoder and the
    final report never raise on what the loop gives them. *)
Theorem escaping_exceptions (evs : list io) (e : exn) :
  receive_file unicode_decimal evs = Uncaught e ->
  e <> ConnectionAbortedError /\
  ((exists ev, In ev evs /\
               (recv_reply ev = Raise e \/ sendall_reply ev = Raise e)) \/
   e = UnicodeDecodeError \/ e = ValueError).
Proof.
  unfold receive_file.
  pose proof (loop_keeps_encodable evs initial) as Henc.
  destruct (receive_loop unicode_decimal evs initial) as [s|s|e0 s] eqn:Hloop.
  - discriminate.
  - cbn [session_of] in Henc.
    destruct (finish_total s) as [r Hr]; [apply Henc; exists []; reflexivity|].
    rewrite Hr. discriminate.
  - intros E; injection E as <-. apply (loop_propagates evs initial s e0 Hloop).
Qed.

End Escapes.

(** ** A connection aborted during the loop *)

Section Aborts.

Variable unicode_decimal : N -> option Z.

Local Abbreviation try_body := (try_body unicode_decimal).
Local Abbreviation iteration := (iteration unicode_decimal).
Local Abbreviation receive_loop := (receive_loop unicode_decimal).
Local Abbreviation seq_num_of := (seq_num_of unicode_decimal).
Local Abbreviation receive_file := (receive_file unicode_decimal).

Local Arguments make_packet : simpl never.
Local Arguments encode_utf8 : simpl never.
Local Arguments decode_utf8 : simpl never.
Local Arguments checksum_verifier : simpl never.
Local Arguments slice : simpl never.
Local Arguments Z.add : simpl never.
Local Arguments Z.modulo : simpl never.

(** A pass whose reply [sendall] refuses with [e]: the message has been
    counted, as corrupt too if it did not verify, and its payload has been
    appended if it was the packet expected; the counter of packets sent and
    both bits are as before, and [e] is raised. *)
Lemma try_body_send_refused (s : session) (raw : bytes) (msg : str) (e : exn) :
  decode_utf8 raw = Ok msg -> msg <> [] ->
  (checksum_verifier msg = Ok true -> exists n, seq_num_of msg = Ok n) ->
  exists c p,
    (checksum_verifier msg = Ok false -> c = 1 /\ p = []) /\
    (forall n, checksum_verifier msg = Ok true -> seq_num_of msg = Ok n ->
       c = 0 /\ p = if n =? SEQ s then slice 4 24 msg else []) /\
    try_body {| recv_reply := Ok raw; sendall_reply := Raise e |} s
    = (unanswered s c p, Throw e).
Proof.
  intros Hdec Hne Hint.
  destruct (verifier_total msg (decoded_encodable _ _ Hdec)) as [[|] Hv].
  - destruct (Hint Hv) as [n Hn].
    exists 0, (if n =? SEQ s then slice 4 24 msg else []).
    split; [intros H; congruence|].
    split.
    { intros n' _ Hn'. rewrite Hn in Hn'. injection Hn' as <-.
      split; reflexivity. }
    unfold_pass.
    rewrite Hdec, (str_eqb_nil_false _ Hne), Hv. simpl.
    rewrite Hn. change (SEQ (incr_total_packet_recv s)) with (SEQ s).
    destruct (n =? SEQ s) eqn:E; simpl.
    + destruct (ack_on_wire_total (ACK s)) as (w & Hmk & Henc & _).
      rewrite Hmk, Henc. unfold unanswered. simpl.
      rewrite Z.add_0_r. reflexivity.
    + destruct (ack_on_wire_total ((ACK s + 1) mod 2)) as (w & Hmk & Henc & _).
      rewrite Hmk, Henc. unfold unanswered. simpl.
      rewrite Z.add_0_r, app_nil_r. reflexivity.
  - exists 1, []. split; [auto|]. split; [intros n H; congruence|].
    unfold_pass.
    rewrite Hdec, (str_eqb_nil_false _ Hne), Hv. simpl.
    destruct (ack_on_wire_total ((ACK s + 1) mod 2)) as (w & Hmk & Henc & _).
    rewrite Hmk, Henc. unfold unanswered. simpl.
    rewrite app_nil_r. reflexivity.
Qed.

(** The loop left through [break] on a session whose buffer can be encoded:
    the socket is closed, the report is printed and the call returns. *)
Lemma exited_reports (clk : clock) (lines : list str) (hello : bytes)
    (evs : list io) (s : session) :
  receive_loop evs initial = Exited s ->
  exists r,
    finish s = Ok r /\
    receive_file evs = Reported r /\
    after_loop clk lines hello (receive_loop evs initial) =
    {| printed :=
         (lines ++ [py "DONE receiver - " ++ name ++ py " @ " ++ t_done clk])
           ++ report_lines r;
       sent := hello :: outbox s;
       socket_closed := true;
       ended := Returned |}.
Proof.
  intros Hrun.
  assert (Henc : encodable (data s)).
  { pose proof (loop_keeps_encodable unicode_decimal evs initial) as H.
    rewrite Hrun in H. apply H. exists []. reflexivity. }
  destruct (finish_total s Henc) as [r Hr].
  exists r. split; [exact Hr|].
  unfold receive_file. rewrite Hrun. cbn [after_loop]. rewrite Hr.
  split; reflexivity.
Qed.

(** C9, as amended: while the loop is running, a [ConnectionAbortedError]
    raised by [recv] or by [sendall] makes the receiver leave the loop
    through [break]; the socket is closed, the buffer trimmed, the report
    printed, and the call returns.  Raised by [recv], it ends the data phase
    exactly as an empty read does, on the session as it stood.  Raised by
    [sendall], the message read in that pass has been counted (as corrupt
    too if it did not verify) and its payload appended if it was the packet
    expected, but no reply is counted and neither bit has moved.  No
    [ConnectionAbortedError] ever leaves the data phase. *)
Theorem connection_aborted_is_end_of_stream
    (clk : clock) (lines : list str) (hello : bytes)
    (before : list io) (s : session) :
  receive_loop before initial = Waiting s ->
  (forall (sr sr' : result unit) (rest rest' : list io),
     let aborted :=
       before ++
         {| recv_reply := Raise ConnectionAbortedError; sendall_reply := sr |}
         :: rest in
     let closed :=
       before ++ {| recv_reply := Ok []; sendall_reply := sr' |} :: rest' in
     exists r,
       finish s = Ok r /\
       receive_loop aborted initial = Exited s /\
       receive_loop closed initial = Exited s /\
       receive_file aborted = Reported r /\
       receive_file closed = Reported r /\
       after_loop clk lines hello (receive_loop aborted initial) =
       {| printed :=
            (lines ++ [py "DONE receiver - " ++ name ++ py " @ " ++ t_done clk])
              ++ report_lines r;
          sent := hello :: outbox s;
          socket_closed := true;
          ended := Returned |}) /\
  (forall (raw : bytes) (msg : str) (rest : list io),
     decode_utf8 raw = Ok msg -> msg <> [] ->
     (checksum_verifier msg = Ok true -> exists n, seq_num_of msg = Ok n) ->
     let aborted :=
       before ++
         {| recv_reply := Ok raw;
            sendall_reply := Raise ConnectionAbortedError |} :: rest in
     exists (c : Z) (p : str) (r : report),
       (checksum_verifier msg = Ok false -> c = 1 /\ p = []) /\
       (forall n, checksum_verifier msg = Ok true -> seq_num_of msg = Ok n ->
          c = 0 /\ p = if n =? SEQ s then slice 4 24 msg else []) /\
       receive_loop aborted initial = Exited (unanswered s c p) /\
       finish (unanswered s c p) = Ok r /\
       receive_file aborted = Reported r /\
       after_loop clk lines hello (receive_loop aborted initial) =
       {| printed :=
            (lines ++ [py "DONE receiver - " ++ name ++ py " @ " ++ t_done clk])
              ++ report_lines r;
          sent := hello :: outbox s;
          socket_closed := true;
          ended := Returned |}) /\
  (forall evs : list io, receive_file evs <> Uncaught ConnectionAbortedError).
Proof.
  intros Hrun. split; [|split].
  - intros sr sr' rest rest' aborted closed.
    assert (Ha : receive_loop aborted initial = Exited s).
    { unfold aborted. rewrite receive_loop_app, Hrun. reflexivity. }
    assert (Hc : receive_loop closed initial = Exited s).
    { unfold closed. rewrite receive_loop_app, Hrun. reflexivity. }
    destruct (exited_reports clk lines hello aborted s Ha) as (r & Hf & Hr & Hal).
    destruct (exited_reports clk lines hello closed s Hc) as (r' & Hf' & Hr' & _).
    exists r. repeat split; try assumption. congruence.
  - intros raw msg rest Hdec Hne Hint aborted.
    destruct (try_body_send_refused s raw msg ConnectionAbortedError
                Hdec Hne Hint) as (c & p & Hc & Hp & Hbody).
    assert (Ha : receive_loop aborted initial = Exited (unanswered s c p)).
    { unfold aborted. rewrite receive_loop_app, Hrun.
      cbn [receive_loop]. unfold iteration. rewrite Hbody. reflexivity. }
    destruct (exited_reports clk lines hello aborted _ Ha) as (r & Hf & Hr & Hal).
    exists c, p, r. repeat split; try assumption.
    + apply (Hc H).
    + apply (Hc H).
    + apply (Hp n H H0).
    + apply (Hp n H H0).
  - intros evs. unfold receive_file.
    destruct (receive_loop evs initial) as [s0|s0|e s0] eqn:E.
    + discriminate.
    + destruct (finish s0) as [r|e] eqn:F; [discriminate|].
      intros H; injection H as ->. apply finish_raises in F. discriminate.
    + intros H; injection H as ->.
      exact (loop_never_aborts unicode_decimal _ _ _ E).
Qed.

End Aborts.

(** ** The theorems at sample traffic *)

(** A whole data phase: an accepted packet, a damaged one, a duplicate, the
    next packet in order, and the end of the stream. *)
Example sample_session :
  receive_file sample_decimal_table
    [deliver pkt_seq0; deliver pkt_damaged; deliver pkt_seq0; deliver pkt_seq1;
     deliver []]
  = Reported {| file_checksum := py "03650"; report_sent := 4;
                report_recv := 4; report_corrupted := 1 |}.
Proof. vm_compute. reflexivity. Qed.

(** An empty read right after the handshake. *)
Example empty_session :
  receive_file sample_decimal_table [deliver []]
  = Reported {| file_checksum := py "00000"; report_sent := 0;
                report_recv := 0; report_corrupted := 0 |}.
Proof. vm_compute. reflexivity. Qed.

(** [int] on digits past ASCII, under the sample table. *)
Example int_of_char_samples :
  int_of_char sample_decimal_table (N_of_ascii "7") = Ok 7 /\
  int_of_char sample_decimal_table 0x663%N = Ok 3 /\
  int_of_char sample_decimal_table 0xFF11%N = Ok 1 /\
  int_of_char sample_decimal_table (N_of_ascii " ") = Raise ValueError /\
  int_of_char sample_decimal_table (N_of_ascii "x") = Raise ValueError.
Proof. vm_compute. repeat split. Qed.

Lemma in_order_packets_witness :
  exists acks,
    acks = [frame0; frame1] /\
    Forall2 (fun i wire => ack_on_wire (Z.of_nat i mod 2) = Ok wire)
      (seq 0 2) acks /\
    receive_loop sample_decimal_table (map deliver [pkt_seq0; pkt_seq1]) initial =
    Waiting
      {| data := py "That was the time foThat was the time fo";
         total_packet_sent := 2; total_packet_recv := 2;
         total_corrupted_pkt_recv := 0; ACK := 0; SEQ := 0;
         outbox := acks |} /\
    length (concat (map (slice 4 24) [pkt_seq0; pkt_seq1])) = 40%nat /\
    (forall i pkt, nth_error [pkt_seq0; pkt_seq1] i = Some pkt ->
       length (slice 4 24 pkt) = 20%nat /\
       forall j, (j < 20)%nat ->
         nth_error (slice 4 24 pkt) j = nth_error pkt (4 + j)).
Proof.
  apply (in_order_packets_all_accepted sample_decimal_table
           [pkt_seq0; pkt_seq1] [pkt_seq0; pkt_seq1]).
  - repeat constructor.
  - intros [|[|[|i]]] pkt H; simpl in H; try discriminate;
      injection H as <-; vm_compute; repeat split.
Defined.

Lemma corrupt_packet_witness :
  (decode_utf8 pkt_damaged = Ok pkt_damaged /\
   checksum_verifier pkt_damaged = Ok false) /\
  exists nak,
    nak = frame1 /\
    ack_on_wire ((ACK initial + 1) mod 2) = Ok nak /\
    iteration sample_decimal_table (deliver pkt_damaged) initial =
    ({| data := []; total_packet_sent := 1; total_packet_recv := 1;
        total_corrupted_pkt_recv := 1; ACK := 0; SEQ := 0;
        outbox := [nak] |}, Continue) /\
    forall raw' pkt,
      decode_utf8 raw' = Ok pkt ->
      checksum_verifier pkt = Ok true ->
      seq_num_of sample_decimal_table pkt = Ok 0 ->
      exists ack,
        ack_on_wire 0 = Ok ack /\
        (ACK initial = 0 -> ack = frame0) /\
        (ACK initial = 1 -> ack = frame1) /\
        receive_loop sample_decimal_table [deliver pkt_damaged; deliver raw'] initial =
        Waiting
          {| data := slice 4 24 pkt;
             total_packet_sent := 2; total_packet_recv := 2;
             total_corrupted_pkt_recv := 1; ACK := 1; SEQ := 1;
             outbox := [nak; ack] |} /\
        length (slice 4 24 pkt) = 20%nat /\
        (forall j, (j < 20)%nat ->
           nth_error (slice 4 24 pkt) j = nth_error pkt (4 + j)).
Proof.
  split; [split; vm_compute; reflexivity|].
  apply (corrupt_packet_is_refused sample_decimal_table initial
           pkt_damaged pkt_damaged).
  - vm_compute; reflexivity.
  - discriminate.
  - vm_compute; reflexivity.
Defined.

Lemma out_of_order_packet_witness :
  (checksum_verifier pkt_seq1 = Ok true /\
   seq_num_of sample_decimal_table pkt_seq1 = Ok 1 /\ 1 <> SEQ initial) /\
  exists nak,
    nak = frame1 /\
    ack_on_wire ((ACK initial + 1) mod 2) = Ok nak /\
    iteration sample_decimal_table (deliver pkt_seq1) initial =
    ({| data := []; total_packet_sent := 1; total_packet_recv := 1;
        total_corrupted_pkt_recv := 0; ACK := 0; SEQ := 0;
        outbox := [nak] |}, Continue).
Proof.
  split; [repeat split; try (vm_compute; reflexivity); discriminate|].
  apply (out_of_order_packet_is_refused sample_decimal_table initial
           pkt_seq1 pkt_seq1 1).
  - vm_compute; reflexivity.
  - vm_compute; reflexivity.
  - vm_compute; reflexivity.
  - discriminate.
Defined.

Lemma bits_track_accepted_count_witness :
  accepted_count sample_decimal_table
    (map deliver [pkt_damaged; pkt_seq0; pkt_seq0; pkt_seq1; pkt_seq0]) initial
  = 3%nat /\
  exists accepted_pkts : list str,
    let s := session_of
               (receive_loop sample_decimal_table
                  (map deliver [pkt_damaged; pkt_seq0; pkt_seq0; pkt_seq1; pkt_seq0])
                  initial) in
    length accepted_pkts = 3%nat /\
    Forall (fun pkt => checksum_verifier pkt = Ok true) accepted_pkts /\
    data s = concat (map (slice 4 24) accepted_pkts) /\
    length (data s) = 60%nat.
Proof.
  split; [vm_compute; reflexivity|].
  apply (proj2 (proj2 (proj2 (bits_track_accepted_count sample_decimal_table
           (map deliver [pkt_damaged; pkt_seq0; pkt_seq0; pkt_seq1; pkt_seq0]))))).
  repeat constructor.
Defined.

Lemma checksum_five_digit_decimal_witness :
  checksum (py "1 0 That was the time fo ") = Ok (py "02018") /\
  checksum [0xE9; 0x20AC; 0x1F600]%N = Ok (py "01571").
Proof.
  split.
  - apply (checksum_five_digit_decimal (py "1 0 That was the time fo ")
             (py "1 0 That was the time fo ")); vm_compute; reflexivity.
  - apply (checksum_five_digit_decimal [0xE9; 0x20AC; 0x1F600]%N
             [0xC3; 0xA9; 0xE2; 0x82; 0xAC; 0xF0; 0x9F; 0x98; 0x80]%N);
      vm_compute; reflexivity.
Defined.

Lemma checksum_verifier_spec_witness :
  checksum_verifier (py "02018") = Ok false /\
  checksum_verifier pkt_seq1 = Ok true.
Proof.
  split.
  - apply (proj1 (checksum_verifier_spec (py "02018"))). vm_compute. lia.
  - apply (proj2 (checksum_verifier_spec pkt_seq1)).
    + vm_compute. lia.
    + vm_compute. reflexivity.
Defined.

Lemma checksum_round_trip_witness :
  (cs <- checksum (py "1 0 That was the time fo ") ;;
   checksum_verifier (py "1 0 That was the time fo " ++ cs))%result = Ok true.
Proof.
  apply (checksum_round_trip (py "1 0 That was the time fo ")
           (py "1 0 That was the time fo ")).
  - vm_compute; reflexivity.
  - vm_compute; reflexivity.
  - vm_compute. lia.
Defined.

Lemma ack_packet_layout_witness :
  exists p cs,
    make_packet 1 = Ok p /\
    p = py "  " ++ [digit_char 1] ++ py " " ++ spaces ++ py " " ++ cs /\
    spaces = repeat (N_of_ascii " ") 20 /\
    length p = 30%nat /\
    nth_error p 2 = Some (digit_char 1) /\
    slice 4 24 p = spaces /\
    slice_last 5 p = cs /\
    checksum (slice_drop_last 5 p) = Ok cs /\
    checksum_verifier p = Ok true.
Proof.
  apply (ack_packet_layout 1). right. reflexivity.
Defined.

(** C9 as stated fails for a reset connection: [ConnectionResetError] is not
    caught by [except ConnectionAbortedError], so it leaves [start_receiver]
    where an empty read ends in the report; so does a [BrokenPipeError] raised
    while an acknowledgment is being sent. *)
Lemma connection_reset_escapes :
  receive_file sample_decimal_table [recv_raises ConnectionResetError]
  = Uncaught ConnectionResetError /\
  receive_file sample_decimal_table [deliver []]
  = Reported {| file_checksum := py "00000"; report_sent := 0;
                report_recv := 0; report_corrupted := 0 |} /\
  receive_file sample_decimal_table
    [{| recv_reply := Ok pkt_seq0; sendall_reply := Raise BrokenPipeError |}]
  = Uncaught BrokenPipeError.
Proof. vm_compute. repeat split. Qed.

(** A connection aborted after the first packet: in [recv], where the run
    ends as on an empty read; and in the [sendall] that acknowledges the
    second packet, whose payload is then in the file although no reply to it
    was counted. *)
Lemma connection_aborted_witness :
  receive_file sample_decimal_table
    [deliver pkt_seq0; recv_raises ConnectionAbortedError]
  = Reported {| file_checksum := py "01825"; report_sent := 1;
                report_recv := 1; report_corrupted := 0 |} /\
  receive_file sample_decimal_table [deliver pkt_seq0; deliver []]
  = Reported {| file_checksum := py "01825"; report_sent := 1;
                report_recv := 1; report_corrupted := 0 |} /\
  receive_file sample_decimal_table
    [deliver pkt_seq0;
     {| recv_reply := Ok pkt_seq1;
        sendall_reply := Raise ConnectionAbortedError |}]
  = Reported {| file_checksum := py "03650"; report_sent := 1;
                report_recv := 2; report_corrupted := 0 |} /\
  after_loop sample_clock [] (py "HELLO R 0.1 0.2 3 1234")
    (receive_loop sample_decimal_table
       [deliver pkt_seq0;
        {| recv_reply := Ok pkt_seq1;
           sendall_reply := Raise ConnectionAbortedError |}] initial)
  = {| printed :=
         [py "DONE receiver - Ido @ 2023-01-30 10:00:03.250000";
          py "File checksum: 03650";
          py "Total packet sent: 1";
          py "Total packet recv: 2";
          py "Total corrupted packet recv: 0"];
       sent := [py "HELLO R 0.1 0.2 3 1234"; frame0];
       socket_closed := true;
       ended := Returned |}.
Proof.
  assert (H0 : receive_loop sample_decimal_table [deliver pkt_seq0] initial
               = Waiting
                   {| data := py "That was the time fo";
                      total_packet_sent := 1; total_packet_recv := 1;
                      total_corrupted_pkt_recv := 0; ACK := 1; SEQ := 1;
                      outbox := [frame0] |})
    by (vm_compute; reflexivity).
  destruct (connection_aborted_is_end_of_stream sample_decimal_table
              sample_clock [] (py "HELLO R 0.1 0.2 3 1234")
              [deliver pkt_seq0] _ H0) as (A & B & _).
  destruct (A (Ok tt) (Ok tt) [] []) as (r & Hf & _ & _ & Hr & Hr' & _).
  vm_compute in Hf. injection Hf as <-.
  split; [exact Hr|]. split; [exact Hr'|].
  destruct (B pkt_seq1 pkt_seq1 []) as (c & p & r & _ & Hp & _ & Hf & Hr2 & Hal).
  { vm_compute; reflexivity. }
  { discriminate. }
  { intros _. exists 1. vm_compute; reflexivity. }
  destruct (Hp 1) as [-> ->]; [vm_compute; reflexivity ..|].
  vm_compute in Hf. injection Hf as <-.
  split; [exact Hr2 | exact Hal].
Defined.

Lemma decode_encode_utf8_witness :
  decode_utf8 [0xC3; 0xA9; 0xE2; 0x82; 0xAC; 0xF0; 0x9F; 0x98; 0x80]%N
  = Ok [0xE9; 0x20AC; 0x1F600]%N.
Proof.
  apply (decode_encode_utf8 [0xE9; 0x20AC; 0x1F600]%N).
  vm_compute. reflexivity.
Defined.

Lemma encode_decode_utf8_witness :
  encode_utf8 [0xE9; 0x20AC; 0x1F600]%N
  = Ok [0xC3; 0xA9; 0xE2; 0x82; 0xAC; 0xF0; 0x9F; 0x98; 0x80]%N.
Proof.
  apply (encode_decode_utf8
           [0xC3; 0xA9; 0xE2; 0x82; 0xAC; 0xF0; 0x9F; 0x98; 0x80]%N).
  vm_compute. reflexivity.
Defined.

Lemma escaping_exceptions_witness :
  ConnectionResetError <> ConnectionAbortedError /\
  ((exists ev, In ev [deliver pkt_seq0; recv_raises ConnectionResetError] /\
               (recv_reply ev = Raise ConnectionResetError \/
                sendall_reply ev = Raise ConnectionResetError)) \/
   ConnectionResetError = UnicodeDecodeError \/
   ConnectionResetError = ValueError).
Proof.
  apply (escaping_exceptions sample_decimal_table
           [deliver pkt_seq0; recv_raises ConnectionResetError]).
  vm_compute. reflexivity.
Defined.

From Stdlib Require Import Permutation.

(** * Further properties *)

Lemma decimal_digits (n : N) : Forall (fun c => (48 <= c <= 57)%N) (decimal n).
Proof.
  unfold decimal. generalize (S (N.size_nat n)) as f.
  assert (H : forall f m acc, Forall (fun c => (48 <= c <= 57)%N) acc ->
                Forall (fun c => (48 <= c <= 57)%N) (digits_aux f m acc)).
  { induction f as [|f IH]; intros m acc Hacc; cbn [digits_aux]; [exact Hacc|].
    assert (Hd : Forall (fun c => (48 <= c <= 57)%N) ((48 + m mod 10)%N :: acc)).
    { constructor; [|exact Hacc]. ndm. }
    destruct (m <? 10)%N; auto. }
  intros f. apply H. constructor.
Qed.

(** ** The checksum field as a number *)

Lemma digits_value_app (a b : str) (v : Z) :
  fold_left (fun x c => 10 * x + (Z.of_N c - 48)) (a ++ b) v
  = fold_left (fun x c => 10 * x + (Z.of_N c - 48)) b
      (fold_left (fun x c => 10 * x + (Z.of_N c - 48)) a v).
Proof. apply fold_left_app. Qed.

(** The digits produced for [n] read back as [n], whatever follows them. *)
Lemma digits_aux_value (f : nat) :
  forall (n : N) (acc : str),
    (n < 10 ^ N.of_nat (S f))%N ->
    exists ds,
      digits_aux (S f) n acc = ds ++ acc /\
      digits_value ds = Z.of_N n.
Proof.
  induction f as [|f IH]; intros n acc Hn.
  - change (10 ^ N.of_nat 1)%N with 10%N in Hn.
    exists [(48 + n mod 10)%N]. cbn [digits_aux].
    apply N.ltb_lt in Hn. rewrite Hn. split; [reflexivity|].
    apply N.ltb_lt in Hn. unfold digits_value. cbn [fold_left].
    rewrite N.mod_small by exact Hn. lia.
  - cbn [digits_aux]. destruct (n <? 10)%N eqn:E.
    + exists [(48 + n mod 10)%N]. split; [reflexivity|].
      apply N.ltb_lt in E. unfold digits_value. cbn [fold_left].
      rewrite N.mod_small by exact E. lia.
    + apply N.ltb_ge in E.
      destruct (IH (n / 10)%N ((48 + n mod 10)%N :: acc)) as (ds & Hds & Hv).
      { rewrite Nat2N.inj_succ, N.pow_succ_r' in Hn.
        apply N.Div0.div_lt_upper_bound. exact Hn. }
      exists (ds ++ [(48 + n mod 10)%N]). split.
      * rewrite <- app_assoc. exact Hds.
      * unfold digits_value in *. rewrite digits_value_app, Hv.
        cbn [fold_left]. ndm.
Qed.

Lemma decimal_value (n : N) : digits_value (decimal n) = Z.of_N n.
Proof.
  unfold decimal.
  destruct (digits_aux_value (N.size_nat n) n [] (size_nat_bound n))
    as (ds & Hds & Hv).
  rewrite Hds, app_nil_r. exact Hv.
Qed.

Lemma zeros_value (k : nat) (s : str) :
  digits_value (repeat 48%N k ++ s) = digits_value s.
Proof.
  unfold digits_value. rewrite digits_value_app.
  replace (fold_left (fun x c => 10 * x + (Z.of_N c - 48)) (repeat 48%N k) 0)
    with 0; [reflexivity|].
  induction k as [|k IH]; [reflexivity|]. cbn [repeat fold_left].
  exact IH.
Qed.

Lemma format_05d_value (z : Z) : 0 <= z -> digits_value (format_05d z) = z.
Proof.
  intros Hz. unfold format_05d.
  destruct (z <? 0) eqn:E; [apply Z.ltb_lt in E; lia|].
  unfold zfill. rewrite zeros_value, decimal_value. lia.
Qed.

Lemma format_05d_injective (a b : Z) :
  0 <= a -> 0 <= b -> format_05d a = format_05d b -> a = b.
Proof.
  intros Ha Hb E.
  rewrite <- (format_05d_value a Ha), <- (format_05d_value b Hb), E.
  reflexivity.
Qed.

Lemma sum_bytes_permutation (a b : bytes) :
  Permutation a b -> sum_bytes a = sum_bytes b.
Proof.
  induction 1 as [|x a b _ IH|x y a|a b c _ IH1 _ IH2].
  - reflexivity.
  - rewrite !sum_bytes_cons, IH. reflexivity.
  - rewrite !sum_bytes_cons. lia.
  - congruence.
Qed.

(** Encoding character by character: the bytes of a string are the bytes of
    its characters, in order. *)
Lemma encode_utf8_cons (c : N) (s : str) (b : bytes) :
  encode_utf8 (c :: s) = Ok b <->
  exists bc bs, encode_char c = Ok bc /\ encode_utf8 s = Ok bs /\ b = bc ++ bs.
Proof.
  cbn [encode_utf8]. split.
  - destruct (encode_char c) as [bc|e]; [|discriminate].
    destruct (encode_utf8 s) as [bs|e]; [|discriminate].
    intros E; injection E as <-. exists bc, bs. auto.
  - intros (bc & bs & -> & -> & ->). reflexivity.
Qed.

Lemma encode_sum_permutation (a b : str) :
  Permutation a b ->
  forall ba, encode_utf8 a = Ok ba ->
    exists bb, encode_utf8 b = Ok bb /\ sum_bytes bb = sum_bytes ba.
Proof.
  induction 1 as [|x a b _ IH|x y a|a b c _ IH1 _ IH2]; intros ba Ha.
  - exists ba. auto.
  - apply encode_utf8_cons in Ha. destruct Ha as (bc & bs & Hc & Hs & ->).
    destruct (IH bs Hs) as (bb & Hb & Hsum).
    exists (bc ++ bb). split.
    + apply encode_utf8_cons. exists bc, bb. auto.
    + rewrite !sum_bytes_app, Hsum. reflexivity.
  - apply encode_utf8_cons in Ha. destruct Ha as (by_ & bs & Hy & Hs & ->).
    apply encode_utf8_cons in Hs. destruct Hs as (bx & bt & Hx & Ht & ->).
    exists (bx ++ by_ ++ bt). split.
    + apply encode_utf8_cons. exists bx, (by_ ++ bt). split; [exact Hx|].
      split; [|reflexivity].
      apply encode_utf8_cons. exists by_, bt. auto.
    + rewrite !sum_bytes_app. lia.
  - destruct (IH1 ba Ha) as (bb & Hb & Hs1).
    destruct (IH2 bb Hb) as (bc & Hc & Hs2).
    exists bc. split; [exact Hc | congruence].
Qed.

(** X7: two strings that can be encoded have the same checksum exactly when
    their UTF-8 bytes have the same sum, however long the sums are. *)
Theorem checksum_equal_iff_same_sum (a b : str) (ba bb : bytes) :
  encode_utf8 a = Ok ba -> encode_utf8 b = Ok bb ->
  (checksum a = checksum b <-> sum_bytes ba = sum_bytes bb).
Proof.
  intros Ha Hb.
  rewrite (checksum_encoded _ _ Ha), (checksum_encoded _ _ Hb).
  split.
  - intros E; injection E as E.
    apply format_05d_injective; [apply sum_bytes_nonneg .. | exact E].
  - intros ->. reflexivity.
Qed.

(** X8: the checksum does not see the order of the characters: any
    rearrangement of a string has the same checksum. *)
Theorem checksum_ignores_order (a b : str) :
  Permutation a b -> checksum a = checksum b.
Proof.
  intros HP.
  destruct (encode_utf8 a) as [ba|ea] eqn:Ha.
  - destruct (encode_sum_permutation a b HP ba Ha) as (bb & Hb & Hs).
    rewrite (checksum_encoded _ _ Ha), (checksum_encoded _ _ Hb), Hs.
    reflexivity.
  - destruct (encode_utf8 b) as [bb|eb] eqn:Hb.
    + destruct (encode_sum_permutation b a (Permutation_sym HP) bb Hb)
        as (ba & Ha' & _).
      rewrite Ha in Ha'. discriminate.
    + unfold checksum. rewrite Ha, Hb. cbn [rbind].
      rewrite (encode_raises _ _ Ha), (encode_raises _ _ Hb). reflexivity.
Qed.

Lemma format_05d_length (z : Z) :
  0 <= z -> (5 <= length (format_05d z))%nat.
Proof.
  intros Hz. unfold format_05d.
  destruct (z <? 0) eqn:E; [apply Z.ltb_lt in E; lia|].
  unfold zfill. rewrite length_app, repeat_length. lia.
Qed.

Lemma format_05d_five (z : Z) :
  0 <= z -> length (format_05d z) = 5%nat -> z < 100000.
Proof.
  intros Hz Hlen.
  destruct (Z.lt_ge_cases z 100000) as [H|H]; [exact H|exfalso].
  pose proof (format_05d_value z Hz) as Hv.
  destruct (format_05d z) as [|d1 [|d2 [|d3 [|d4 [|d5 [|d6 t]]]]]] eqn:E;
    try discriminate.
  pose proof (format_05d_ascii z) as Ha. rewrite E in Ha.
  assert (Hd : Forall (fun c => (48 <= c <= 57)%N) (format_05d z)).
  { unfold format_05d.
    destruct (z <? 0) eqn:Ez; [apply Z.ltb_lt in Ez; lia|].
    unfold zfill. apply Forall_app. split.
    - clear. induction (5 - length (decimal (Z.to_N z)))%nat; cbn [repeat];
        constructor; [lia | assumption].
    - apply decimal_digits. }
  rewrite E in Hd.
  repeat match goal with H : Forall _ (_ :: _) |- _ =>
    apply Forall_cons_iff in H; destruct H as [? H] end.
  unfold digits_value in Hv. cbn [fold_left] in Hv. lia.
Qed.

(** X9: a message is verified exactly when it has at least 30 characters,
    the characters before the last five can be encoded, their bytes sum to
    less than 100000, and the last five characters are the five decimal
    digits of that sum. *)
Theorem verified_iff_five_digit_sum (msg : str) :
  checksum_verifier msg = Ok true <->
  (30 <= length msg)%nat /\
  exists b, encode_utf8 (slice_drop_last 5 msg) = Ok b /\
            sum_bytes b < 100000 /\
            slice_last 5 msg = five_digits (sum_bytes b).
Proof.
  split.
  - intros Hver. pose proof (verified_length _ Hver) as Hlen.
    split; [exact Hlen|].
    apply verifier_long in Hver; [|exact Hlen].
    unfold checksum in Hver.
    destruct (encode_utf8 (slice_drop_last 5 msg)) as [b|e] eqn:Hb;
      cbn [rbind] in Hver; [|discriminate].
    injection Hver as Hf. exists b. split; [reflexivity|].
    assert (Hl : length (slice_last 5 msg) = 5%nat)
      by (unfold slice_last; rewrite length_skipn; lia).
    assert (Hs : sum_bytes b < 100000).
    { apply format_05d_five; [apply sum_bytes_nonneg | rewrite Hf; exact Hl]. }
    split; [exact Hs|].
    rewrite <- Hf. apply format_05d_small.
    pose proof (sum_bytes_nonneg b). lia.
  - intros (Hlen & b & Hb & Hs & Hf).
    apply verifier_long; [exact Hlen|].
    rewrite Hf. apply checksum_small; assumption.
Qed.

(** X10: of two messages that carry the same checksum field, the first of
    them verified, the second is verified exactly when the bytes before the
    field have the same sum: a change that moves the sum is always caught,
    one that keeps it never is. *)
Theorem same_field_verified_iff_same_sum (msg msg' : str) (b b' : bytes) :
  checksum_verifier msg = Ok true ->
  (30 <= length msg')%nat ->
  slice_last 5 msg' = slice_last 5 msg ->
  encode_utf8 (slice_drop_last 5 msg) = Ok b ->
  encode_utf8 (slice_drop_last 5 msg') = Ok b' ->
  (checksum_verifier msg' = Ok true <-> sum_bytes b' = sum_bytes b) /\
  (sum_bytes b' <> sum_bytes b -> checksum_verifier msg' = Ok false).
Proof.
  intros Hver Hlen' Hfield Hb Hb'.
  pose proof (verified_length _ Hver) as Hlen.
  apply verifier_long in Hver; [|exact Hlen].
  rewrite (checksum_encoded _ _ Hb) in Hver. injection Hver as Hf.
  assert (Hiff : checksum_verifier msg' = Ok true <-> sum_bytes b' = sum_bytes b).
  { rewrite (verifier_long _ Hlen'), (checksum_encoded _ _ Hb'), Hfield, <- Hf.
    split.
    - intros E; injection E as E.
      apply format_05d_injective; [apply sum_bytes_nonneg .. | exact E].
    - intros ->. reflexivity. }
  split; [exact Hiff|].
  intros Hne.
  assert (Hdec : exists r, checksum_verifier msg' = Ok r).
  { unfold checksum_verifier.
    destruct (length msg' <? expected_packet_length)%nat; [eexists; reflexivity|].
    rewrite (checksum_encoded _ _ Hb'). cbn [rbind].
    destruct (str_eqb _ _); eexists; reflexivity. }
  destruct Hdec as [[|] Hr]; [|exact Hr].
  exfalso. apply Hne. apply Hiff. exact Hr.
Qed.

(** ** Every pass, case by case *)

Section Outcomes.

Variable unicode_decimal : N -> option Z.

Local Arguments make_packet : simpl never.
Local Arguments encode_utf8 : simpl never.
Local Arguments decode_utf8 : simpl never.
Local Arguments checksum_verifier : simpl never.
Local Arguments slice : simpl never.
Local Arguments Z.add : simpl never.
Local Arguments Z.modulo : simpl never.

Lemma session_eta (s : session) :
  s = {| data := data s; total_packet_sent := total_packet_sent s;
         total_packet_recv := total_packet_recv s;
         total_corrupted_pkt_recv := total_corrupted_pkt_recv s;
         ACK := ACK s; SEQ := SEQ s; outbox := outbox s |}.
Proof. destruct s; reflexivity. Qed.

Lemma try_body_outcome (ev : io) (s : session) :
  pass_outcome ev s (try_body unicode_decimal ev s).
Proof.
  unfold try_body, bind, call, is_corrupt, send_packet, get, update,
    ret, continue_, break_.
  destruct (recv_reply ev) as [raw|e];
    [|apply pass_no_message; discriminate].
  destruct (decode_utf8 raw) as [msg|e] eqn:Hdec;
    [|apply pass_no_message; discriminate].
  destruct (str_eqb msg []) eqn:Hne;
    [apply pass_no_message; discriminate|].
  destruct (verifier_total msg (decoded_encodable _ _ Hdec)) as [[|] Hver];
    rewrite Hver; simpl.
  - destruct (seq_num_of unicode_decimal msg) as [n|e];
      [|apply pass_counted_only].
    change (SEQ (incr_total_packet_recv s)) with (SEQ s).
    destruct (n =? SEQ s); simpl.
    + destruct (ack_on_wire_total (ACK s)) as (p & Hmk & Henc & Hw).
      rewrite Hmk, Henc. simpl.
      destruct (sendall_reply ev) as [[]|e] eqn:Hsend; simpl.
      * apply (pass_accepted ev s msg p); assumption.
      * replace (append_data (slice 4 24 msg) (incr_total_packet_recv s))
          with (unanswered s 0 (slice 4 24 msg)).
        -- apply pass_unanswered; auto.
        -- unfold unanswered, append_data, incr_total_packet_recv.
           cbn. rewrite Z.add_0_r. reflexivity.
    + destruct (ack_on_wire_total ((ACK s + 1) mod 2)) as (p & Hmk & Henc & Hw).
      rewrite Hmk, Henc. simpl.
      destruct (sendall_reply ev) as [[]|e] eqn:Hsend; simpl.
      * replace (incr_total_packet_sent (push_outbox p (incr_total_packet_recv s)))
          with (replied s 0 p).
        -- apply pass_refused; auto.
        -- unfold replied, incr_total_packet_sent, push_outbox,
             incr_total_packet_recv.
           cbn. rewrite Z.add_0_r. reflexivity.
      * replace (incr_total_packet_recv s) with (unanswered s 0 []).
        -- apply pass_unanswered; auto.
        -- unfold unanswered, incr_total_packet_recv.
           rewrite app_nil_r, Z.add_0_r. reflexivity.
  - destruct (ack_on_wire_total ((ACK s + 1) mod 2)) as (p & Hmk & Henc & Hw).
    rewrite Hmk, Henc. simpl.
    destruct (sendall_reply ev) as [[]|e] eqn:Hsend; simpl.
    + apply (pass_refused ev s 1 p); auto.
    + replace (incr_total_corrupted_pkt_recv (incr_total_packet_recv s))
        with (unanswered s 1 []).
      * apply pass_unanswered; auto.
      * unfold unanswered, incr_total_corrupted_pkt_recv, incr_total_packet_recv.
        cbn. rewrite app_nil_r. reflexivity.
Qed.

(** The same cases for a pass under its handler: only the way of leaving
    changes, from raising [ConnectionAbortedError] to [break]. *)
Lemma iteration_outcome (ev : io) (s : session) :
  exists f, pass_outcome ev s (fst (iteration unicode_decimal ev s), f) /\
            (snd (iteration unicode_decimal ev s) = f \/
             (f = Throw ConnectionAbortedError /\
              snd (iteration unicode_decimal ev s) = Break)).
Proof.
  pose proof (try_body_outcome ev s) as H. unfold iteration.
  destruct (try_body unicode_decimal ev s) as [s' f].
  exists f. split.
  - destruct f as [[]| | |[]]; exact H.
  - destruct f as [[]| | |[]]; auto.
Qed.

End Outcomes.

(** ** Lockstep, the replies, and traffic with retransmissions *)

Section Protocol.

Variable unicode_decimal : N -> option Z.

Local Abbreviation iteration := (iteration unicode_decimal).
Local Abbreviation receive_loop := (receive_loop unicode_decimal).
Local Abbreviation receive_file := (receive_file unicode_decimal).

Lemma lockstep_from (evs : list io) :
  forall s0 s, receive_loop evs s0 = Waiting s ->
    total_packet_recv s = total_packet_recv s0 + Z.of_nat (length evs) /\
    total_packet_sent s = total_packet_sent s0 + Z.of_nat (length evs) /\
    length (outbox s) = (length (outbox s0) + length evs)%nat /\
    Forall (fun ev => sendall_reply ev = Ok tt) evs.
Proof.
  induction evs as [|ev evs IH]; intros s0 s; cbn [receive_loop].
  - intros E; injection E as <-. cbn [length].
    repeat split; try lia. constructor.
  - destruct (iteration_outcome unicode_decimal ev s0) as (f & Hout & Hf).
    destruct (iteration ev s0) as [s1 f1]. cbn [fst snd] in *.
    assert (Hgo : f1 = Val tt \/ f1 = Continue ->
              receive_loop evs s1 = Waiting s ->
              total_packet_recv s = total_packet_recv s0 + Z.of_nat (length (ev :: evs)) /\
              total_packet_sent s = total_packet_sent s0 + Z.of_nat (length (ev :: evs)) /\
              length (outbox s) = (length (outbox s0) + length (ev :: evs))%nat /\
              Forall (fun ev => sendall_reply ev = Ok tt) (ev :: evs)).
    { intros Hf1 Hrun. destruct (IH s1 s Hrun) as (Hr & Hs & Ho & Hall).
      assert (f = f1) by (destruct Hf as [<-|[-> Hb]]; [reflexivity|];
                          destruct Hf1; congruence).
      subst f.
      inversion Hout; subst;
        try (destruct Hf1; congruence).
      - cbn [replied total_packet_recv total_packet_sent outbox] in *.
        rewrite length_app in Ho. cbn [length] in *.
        repeat split; try lia. constructor; assumption.
      - cbn [accepted total_packet_recv total_packet_sent outbox] in *.
        rewrite length_app in Ho. cbn [length] in *.
        repeat split; try lia. constructor; assumption. }
    destruct f1 as [[]| | |e]; try discriminate; apply Hgo; auto.
Qed.

(** X11: while the loop is running, the receiver is in lockstep with the
    sender: after [n] reads it has counted [n] packets received and sent
    exactly [n] replies, one per read, all taken by the socket. *)
Theorem one_reply_per_packet (evs : list io) (s : session) :
  receive_loop evs initial = Waiting s ->
  total_packet_recv s = Z.of_nat (length evs) /\
  total_packet_sent s = Z.of_nat (length evs) /\
  length (outbox s) = length evs /\
  Forall (fun ev => sendall_reply ev = Ok tt) evs.
Proof.
  intros H. destruct (lockstep_from evs initial s H) as (Hr & Hs & Ho & Hall).
  cbn in Hr, Hs, Ho. auto.
Qed.

Lemma flip_twice (a : Z) : a = 0 \/ a = 1 -> ((a + 1) mod 2 + 1) mod 2 = a.
Proof. intros [-> | ->]; reflexivity. Qed.

Lemma wire_is_frame (bit : Z) (w : bytes) :
  bit = 0 \/ bit = 1 -> ack_on_wire bit = Ok w -> w = frame0 \/ w = frame1.
Proof.
  destruct frames_on_wire as [H0 H1].
  intros [-> | ->] H; [left; congruence | right; congruence].
Qed.

Lemma pass_replies_fit (ev : io) (s : session) :
  replies_fit s -> replies_fit (fst (iteration ev s)).
Proof.
  intros (Hbit & Hall & Hlast).
  destruct (iteration_outcome unicode_decimal ev s) as (f & Hout & _).
  destruct (iteration ev s) as [s1 f1]. cbn [fst] in *.
  inversion Hout; subst.
  - repeat split; assumption.
  - repeat split; assumption.
  - unfold replies_fit. cbn [replied ACK outbox].
    split; [exact Hbit|]. split.
    + apply Forall_app. split; [exact Hall|].
      constructor; [|constructor].
      apply (wire_is_frame ((ACK s + 1) mod 2)); [apply mod2_bit | assumption].
    + intros front w E. apply app_inj_tail in E. destruct E as [_ <-].
      assumption.
  - unfold replies_fit. cbn [accepted ACK outbox].
    split; [apply mod2_bit|]. split.
    + apply Forall_app. split; [exact Hall|].
      constructor; [|constructor].
      apply (wire_is_frame (ACK s)); assumption.
    + intros front w E. apply app_inj_tail in E. destruct E as [_ <-].
      rewrite flip_twice by exact Hbit. assumption.
  - repeat split; assumption.
Qed.

Lemma loop_replies_fit (evs : list io) :
  forall s, replies_fit s -> replies_fit (session_of (receive_loop evs s)).
Proof.
  induction evs as [|ev evs IH]; intros s H; [exact H|].
  cbn [receive_loop].
  pose proof (pass_replies_fit ev s H) as H1.
  destruct (iteration ev s) as [s1 [[]| | |e]]; cbn [fst] in H1; auto.
Qed.

(** X12: everything the receiver sends during the data phase is one of two
    fixed 30-byte frames, the acknowledgment of bit 0 or of bit 1; and the
    frame sent last never carries the sequence number the receiver is
    waiting for: it carries the other one (that of the packet accepted
    last, once there is one). *)
Theorem replies_are_two_frames (evs : list io) :
  let s := session_of (receive_loop evs initial) in
  length frame0 = 30%nat /\ length frame1 = 30%nat /\
  Forall (fun w => w = frame0 \/ w = frame1) (outbox s) /\
  (forall front w, outbox s = front ++ [w] ->
     ack_on_wire ((SEQ s + 1) mod 2) = Ok w /\
     ack_on_wire (SEQ s) <> Ok w).
Proof.
  cbn zeta.
  assert (H0 : replies_fit initial).
  { split; [left; reflexivity|]. split; [constructor|].
    intros [|x front] w E; discriminate. }
  destruct (loop_replies_fit evs initial H0) as (Hbit & Hall & Hlast).
  destruct (bits_count_loop unicode_decimal evs initial 0%nat eq_refl eq_refl)
    as [Ha Hs].
  split; [reflexivity|]. split; [reflexivity|]. split; [exact Hall|].
  intros front w E.
  assert (Heq : SEQ (session_of (receive_loop evs initial))
                = ACK (session_of (receive_loop evs initial))) by congruence.
  rewrite Heq. split; [apply (Hlast front w E)|].
  pose proof (Hlast front w E) as Hw.
  destruct frames_on_wire as [F0 F1].
  destruct Hbit as [Hb | Hb]; rewrite Hb in Hw |- *.
  - change ((0 + 1) mod 2) with 1 in Hw. rewrite F1 in Hw. rewrite F0.
    injection Hw as <-. vm_compute. discriminate.
  - change ((1 + 1) mod 2) with 0 in Hw. rewrite F0 in Hw. rewrite F1.
    injection Hw as <-. vm_compute. discriminate.
Qed.

Lemma in_sequence_from (b : Z) (raws : list bytes) (pkts : list str) (damaged : Z) :
  in_sequence unicode_decimal b raws pkts damaged ->
  forall s0, SEQ s0 = b ->
    exists s,
      receive_loop (map deliver raws) s0 = Waiting s /\
      data s = data s0 ++ concat (map (slice 4 24) pkts) /\
      total_packet_recv s = total_packet_recv s0 + Z.of_nat (length raws) /\
      total_packet_sent s = total_packet_sent s0 + Z.of_nat (length raws) /\
      total_corrupted_pkt_recv s = total_corrupted_pkt_recv s0 + damaged /\
      Forall (fun pkt => checksum_verifier pkt = Ok true) pkts /\
      (ACK s0 = SEQ s0 ->
       SEQ s = ACK s /\
       (pkts <> [] -> ACK s = (ACK s0 + Z.of_nat (length pkts)) mod 2) /\
       (pkts = [] -> ACK s = ACK s0)).
Proof.
  induction 1 as [b|b raw pkt raws pkts damaged Hdec Hver Hseq _ IH
                  |b raw msg raws pkts damaged Hdec Hne Hver _ IH
                  |b raw msg n raws pkts damaged Hdec Hver Hseq Hn _ IH];
    intros s0 Hb.
  - exists s0. cbn [map receive_loop concat length].
    rewrite app_nil_r, !Z.add_0_r.
    repeat split; auto; try constructor. congruence.
  - rewrite <- Hb in Hseq.
    destruct (iteration_accept unicode_decimal s0 raw pkt Hdec Hver Hseq)
      as (ack & _ & Hit).
    destruct (IH (accepted s0 pkt ack)) as (s & Hrun & Hd & Hr & Hs & Hc & Hv & Hbits).
    { cbn [accepted SEQ]. rewrite Hb. reflexivity. }
    exists s. cbn [map receive_loop]. rewrite Hit.
    cbn [accepted data total_packet_recv total_packet_sent
           total_corrupted_pkt_recv ACK SEQ] in *.
    split; [exact Hrun|]. split.
    { rewrite Hd. cbn [map concat]. rewrite <- app_assoc. reflexivity. }
    cbn [length]. repeat split; try lia; try (constructor; assumption).
    + apply Hbits. congruence.
    + intros _. destruct Hbits as (_ & Hne & Hnil); [congruence|].
      destruct pkts as [|p pkts'].
      * rewrite (Hnil eq_refl). cbn [length]. reflexivity.
      * rewrite Hne by discriminate.
        rewrite Z.add_mod_idemp_l by lia. f_equal. cbn [length]. lia.
    + discriminate.
  - destruct (iteration_corrupt unicode_decimal s0 raw msg Hdec Hne Hver)
      as (nak & _ & Hit).
    destruct (IH (replied s0 1 nak)) as (s & Hrun & Hd & Hr & Hs & Hc & Hv & Hbits).
    { cbn [replied SEQ]. exact Hb. }
    exists s. cbn [map receive_loop]. rewrite Hit.
    cbn [replied data total_packet_recv total_packet_sent
           total_corrupted_pkt_recv ACK SEQ] in *.
    cbn [length]. repeat split; try lia; try assumption; apply Hbits; assumption.
  - rewrite <- Hb in Hn.
    destruct (iteration_out_of_order unicode_decimal s0 raw msg n Hdec Hver Hseq Hn)
      as (nak & _ & Hit).
    destruct (IH (replied s0 0 nak)) as (s & Hrun & Hd & Hr & Hs & Hc & Hv & Hbits).
    { cbn [replied SEQ]. exact Hb. }
    exists s. cbn [map receive_loop]. rewrite Hit.
    cbn [replied data total_packet_recv total_packet_sent
           total_corrupted_pkt_recv ACK SEQ] in *.
    cbn [length]. repeat split; try lia; try assumption; apply Hbits; assumption.
Qed.

(** X13: whatever damaged messages and retransmissions arrive in between,
    the buffer holds the payloads of the in-sequence packets, each exactly
    once and in order; every read was counted and answered, the damaged ones
    were counted as corrupt, and both bits stand at the number of packets
    accepted modulo 2. *)
Theorem retransmissions_leave_no_trace
    (raws : list bytes) (pkts : list str) (damaged : Z) :
  in_sequence unicode_decimal 0 raws pkts damaged ->
  exists s,
    receive_loop (map deliver raws) initial = Waiting s /\
    data s = concat (map (slice 4 24) pkts) /\
    total_packet_recv s = Z.of_nat (length raws) /\
    total_packet_sent s = Z.of_nat (length raws) /\
    total_corrupted_pkt_recv s = damaged /\
    ACK s = Z.of_nat (length pkts) mod 2 /\
    SEQ s = Z.of_nat (length pkts) mod 2.
Proof.
  intros H.
  destruct (in_sequence_from 0 raws pkts damaged H initial eq_refl)
    as (s & Hrun & Hd & Hr & Hs & Hc & _ & Hbits).
  destruct (Hbits eq_refl) as (Heq & Hne & Hnil).
  exists s. cbn in Hd, Hr, Hs, Hc.
  repeat split; try assumption.
  - destruct pkts as [|p pkts']; [apply Hnil; reflexivity|].
    rewrite Hne by discriminate. reflexivity.
  - rewrite Heq. destruct pkts as [|p pkts']; [apply Hnil; reflexivity|].
    rewrite Hne by discriminate. reflexivity.
Qed.

Lemma payloads_encodable (pkts : list str) :
  Forall (fun pkt => checksum_verifier pkt = Ok true) pkts ->
  encodable (concat (map (slice 4 24) pkts)).
Proof.
  induction 1 as [|pkt pkts Hv _ IH]; [exists []; reflexivity|].
  cbn [map concat]. apply encodable_app. split; [|exact IH].
  apply verified_payload_encodable. exact Hv.
Qed.

(** X14: when the stream ends after such traffic, [start_receiver] reports
    the checksum of the payloads of the in-sequence packets, joined in order
    and with the blanks at the very end removed, and as statistics the
    number of reads (sent and received alike) and the number of damaged
    messages. *)
Theorem report_after_transfer
    (raws : list bytes) (pkts : list str) (damaged : Z)
    (sr : result unit) (rest : list io) :
  in_sequence unicode_decimal 0 raws pkts damaged ->
  exists c,
    checksum (rstrip_space (concat (map (slice 4 24) pkts))) = Ok c /\
    receive_file
      (map deliver raws ++ {| recv_reply := Ok []; sendall_reply := sr |} :: rest)
    = Reported {| file_checksum := c;
                  report_sent := Z.of_nat (length raws);
                  report_recv := Z.of_nat (length raws);
                  report_corrupted := damaged |}.
Proof.
  intros H.
  destruct (in_sequence_from 0 raws pkts damaged H initial eq_refl)
    as (s & Hrun & Hd & Hr & Hs & Hc & Hv & _).
  cbn in Hd, Hr, Hs, Hc.
  destruct (encodable_rstrip _ (payloads_encodable pkts Hv)) as [b Hb].
  exists (format_05d (sum_bytes b)).
  split; [apply checksum_encoded; exact Hb|].
  unfold receive_file. rewrite receive_loop_app, Hrun.
  cbn [receive_loop]. unfold iteration, try_body, bind, call.
  cbn [recv_reply decode_utf8 str_eqb break_].
  unfold finish. rewrite Hd, (checksum_encoded _ _ Hb). cbn [rbind].
  rewrite Hr, Hs, Hc. reflexivity.
Qed.

End Protocol.

(** ** What fits into one read of 30 bytes *)

(** Decoding never yields more characters than there were bytes, and yields
    as many only for ASCII text. *)
Lemma decode_length_bounded (n : nat) :
  forall (raw : bytes) (s : str),
    (length raw <= n)%nat -> decode_utf8 raw = Ok s ->
    (length s <= length raw)%nat /\
    (length s = length raw -> s = raw /\ ascii_only raw).
Proof.
  induction n as [|n IH]; intros raw s Hlen.
  - destruct raw; [|simpl in Hlen; lia].
    cbn [decode_utf8]. intros E; injection E as <-.
    split; [reflexivity|]. intros _. split; [reflexivity | constructor].
  - destruct raw as [|b0 r1].
    { cbn [decode_utf8]. intros E; injection E as <-.
      split; [reflexivity|]. intros _. split; [reflexivity | constructor]. }
    cbn [length] in Hlen. cbn [decode_utf8].
    assert (Hshort : forall r (c : N),
              (S (length r) < length (b0 :: r1))%nat -> (length r <= n)%nat ->
              match decode_utf8 r with
              | Ok s0 => Ok (c :: s0)
              | Raise e => Raise e
              end = Ok s ->
              (length s <= length (b0 :: r1))%nat /\
              (length s = length (b0 :: r1) ->
               s = b0 :: r1 /\ ascii_only (b0 :: r1))).
    { intros r c Hr Hn. destruct (decode_utf8 r) as [s0|e] eqn:D; [|discriminate].
      intros E; injection E as <-.
      destruct (IH r s0 Hn D) as [Hle _]. cbn [length] in *.
      split; [lia|]. intros Heq. lia. }
    destruct (b0 <? 0x80)%N eqn:E1.
    { destruct (decode_utf8 r1) as [s1|e] eqn:D; [|discriminate].
      intros E; injection E as <-.
      destruct (IH r1 s1 ltac:(lia) D) as [Hle Heq]. cbn [length].
      split; [lia|]. intros H. destruct Heq as [-> Ha]; [lia|].
      split; [reflexivity|]. constructor; [apply N.ltb_lt; exact E1 | exact Ha]. }
    destruct ((0xC2 <=? b0) && (b0 <=? 0xDF))%N.
    { destruct r1 as [|b1 r2]; [discriminate|].
      destruct (is_cont b1); [|discriminate].
      cbn [length] in Hlen. apply Hshort; cbn [length]; lia. }
    destruct ((0xE0 <=? b0) && (b0 <=? 0xEF))%N.
    { destruct r1 as [|b1 [|b2 r3]]; try discriminate.
      cbv zeta.
      match goal with |- context [if ?b then _ else _] => destruct b end;
        [|discriminate].
      cbn [length] in Hlen. apply Hshort; cbn [length]; lia. }
    destruct ((0xF0 <=? b0) && (b0 <=? 0xF4))%N; [|discriminate].
    destruct r1 as [|b1 [|b2 [|b3 r4]]]; try discriminate.
    cbv zeta.
    match goal with |- context [if ?b then _ else _] => destruct b end;
      [|discriminate].
    cbn [length] in Hlen. apply Hshort; cbn [length]; lia.
Qed.

Lemma decode_length (raw : bytes) (s : str) :
  decode_utf8 raw = Ok s ->
  (length s <= length raw)%nat /\
  (length s = length raw -> s = raw /\ ascii_only raw).
Proof. apply (decode_length_bounded (length raw)). lia. Qed.

(** X15: what one [recv(30)] returns, at most 30 bytes, is verified only if
    it is exactly 30 bytes of ASCII; a message with any character outside
    ASCII in it is never verified, so it is treated as corrupt. *)
Theorem only_ascii_packets_verify (raw : bytes) (msg : str) :
  (length raw <= 30)%nat ->
  decode_utf8 raw = Ok msg ->
  (checksum_verifier msg = Ok true ->
   length raw = 30%nat /\ msg = raw /\ ascii_only msg) /\
  (~ ascii_only msg -> checksum_verifier msg = Ok false).
Proof.
  intros Hraw Hdec.
  destruct (decode_length raw msg Hdec) as [Hle Heq].
  assert (Hfirst : checksum_verifier msg = Ok true ->
            length raw = 30%nat /\ msg = raw /\ ascii_only msg).
  { intros Hver. apply verified_length in Hver.
    destruct Heq as [-> Ha]; [lia|]. repeat split; [lia | exact Ha]. }
  split; [exact Hfirst|].
  intros Hna.
  destruct (verifier_total msg (decoded_encodable _ _ Hdec)) as [[|] Hv];
    [|exact Hv].
  exfalso. apply Hna. apply Hfirst. exact Hv.
Qed.

(** X4: a verified message can be encoded and is the decoding of its own
    encoding; it is the decoding of a read of at most 30 bytes, which is
    what [recv(30)] returns, exactly when it has 30 characters, all of them
    ASCII. *)
Theorem verified_can_arrive (msg : str) :
  checksum_verifier msg = Ok true ->
  (exists raw, encode_utf8 msg = Ok raw /\ decode_utf8 raw = Ok msg) /\
  ((exists raw, (length raw <= 30)%nat /\ decode_utf8 raw = Ok msg) <->
   length msg = 30%nat /\ ascii_only msg).
Proof.
  intros Hver. split; [apply verified_round_trip; exact Hver|].
  pose proof (verified_length _ Hver) as Hlen. split.
  - intros (raw & Hraw & Hdec).
    destruct (decode_length raw msg Hdec) as [Hle Heq].
    destruct Heq as [-> Ha]; [lia|]. split; [lia | exact Ha].
  - intros [H30 Ha]. exists msg.
    split; [lia | apply decode_ascii; exact Ha].
Qed.

(** ** Trimming the buffer *)

Lemma lstrip_space_head (s : str) (c : N) (t : str) :
  lstrip_space s = c :: t -> c <> 32%N.
Proof.
  induction s as [|x s IH]; cbn [lstrip_space]; [discriminate|].
  destruct (x =? 32)%N eqn:E; [exact IH|].
  intros H; injection H as <- _. apply N.eqb_neq. exact E.
Qed.

Lemma lstrip_space_blanks (s : str) :
  exists k, s = repeat 32%N k ++ lstrip_space s.
Proof.
  induction s as [|c s [k IH]]; cbn [lstrip_space].
  - exists 0%nat. reflexivity.
  - destruct (c =? 32)%N eqn:E.
    + apply N.eqb_eq in E. subst c. exists (S k). cbn [repeat app].
      rewrite <- IH. reflexivity.
    + exists 0%nat. reflexivity.
Qed.

Lemma rev_repeat (c : N) (k : nat) : rev (repeat c k) = repeat c k.
Proof.
  induction k as [|k IH]; [reflexivity|].
  cbn [repeat rev]. rewrite IH. clear IH.
  induction k as [|k IH]; [reflexivity|].
  cbn [repeat app]. rewrite IH. reflexivity.
Qed.

Lemma lstrip_space_repeat (k : nat) (s : str) :
  lstrip_space (repeat 32%N k ++ s) = lstrip_space s.
Proof.
  induction k as [|k IH]; [reflexivity|]. exact IH.
Qed.

(** X16: trimming removes the blanks at the end of the buffer and nothing
    else: the buffer is the trimmed text followed by blanks only, and the
    trimmed text does not end in a blank; blanks inside the text stay.  So
    the report is the same however many blanks pad the end of the buffer. *)
Theorem rstrip_space_spec (s : str) :
  (exists k, s = rstrip_space s ++ repeat 32%N k) /\
  (forall front, rstrip_space s <> front ++ [32%N]) /\
  (forall t c, c <> 32%N -> rstrip_space (t ++ [c]) = t ++ [c]) /\
  (forall k sent recv corrupted ack seq out,
     finish {| data := s ++ repeat 32%N k;
               total_packet_sent := sent; total_packet_recv := recv;
               total_corrupted_pkt_recv := corrupted;
               ACK := ack; SEQ := seq; outbox := out |}
     = finish {| data := s;
                 total_packet_sent := sent; total_packet_recv := recv;
                 total_corrupted_pkt_recv := corrupted;
                 ACK := ack; SEQ := seq; outbox := out |}).
Proof.
  unfold finish, rstrip_space. cbn [data total_packet_sent total_packet_recv
    total_corrupted_pkt_recv].
  split; [|split; [|split]];
    [| | |intros k sent recv corrupted ack seq out;
          rewrite rev_app_distr, rev_repeat, lstrip_space_repeat;
          reflexivity].
  - destruct (lstrip_space_blanks (rev s)) as [k Hk].
    exists k.
    rewrite <- (rev_involutive s) at 1. rewrite Hk at 1.
    rewrite rev_app_distr, rev_repeat. reflexivity.
  - intros front E.
    assert (E' : lstrip_space (rev s) = 32%N :: rev front).
    { rewrite <- (rev_involutive (lstrip_space (rev s))), E, rev_app_distr.
      reflexivity. }
    apply lstrip_space_head in E'. congruence.
  - intros t c Hc. rewrite rev_app_distr. cbn [rev app lstrip_space].
    apply N.eqb_neq in Hc. rewrite Hc.
    change (c :: rev t) with ([c] ++ rev t).
    rewrite rev_app_distr, rev_involutive. reflexivity.
Qed.

(** ** The handshake and the whole call *)

Lemma waiting_is_not_ok (m : str) :
  startswith (py "WAITING") m = true -> startswith (py "OK") m = false.
Proof.
  destruct m as [|c m]; [discriminate|].
  change (py "WAITING") with (87%N :: py "AITING").
  change (py "OK") with (79%N :: py "K").
  cbn [startswith]. intros H. apply andb_true_iff in H. destruct H as [H _].
  apply N.eqb_eq in H. subst c. reflexivity.
Qed.

(** Reading past the messages that ask to wait. *)
Lemma handshake_skips_waiting (raws : list bytes) (ws : list str) :
  Forall2 (fun raw w => decode_utf8 raw = Ok w) raws ws ->
  Forall (fun w => startswith (py "WAITING") w = true) ws ->
  forall (w : str) (raw_m : bytes) (m : str) (rest : list (result bytes))
         (lines : list str),
    startswith (py "WAITING") w = true ->
    decode_utf8 raw_m = Ok m ->
    handshake_loop (map Ok raws ++ Ok raw_m :: rest) w lines
    = handshake_loop rest m (lines ++ repeat waiting_line (S (length ws))).
Proof.
  induction 1 as [|raw w' raws ws Hdec _ IH]; intros Hws w raw_m m rest lines Hw Hm.
  - cbn [map app length repeat handshake_loop].
    rewrite (waiting_is_not_ok _ Hw), Hw, Hm. reflexivity.
  - apply Forall_cons_iff in Hws. destruct Hws as [Hw' Hws].
    cbn [map app handshake_loop].
    rewrite (waiting_is_not_ok _ Hw), Hw, Hdec.
    rewrite (IH Hws w' raw_m m rest (lines ++ [waiting_line]) Hw' Hm).
    rewrite <- app_assoc. reflexivity.
Qed.

(** A reply of [recv] that raises, after messages that ask to wait. *)
Lemma handshake_skips_to_raise (raws : list bytes) (ws : list str) :
  Forall2 (fun raw w => decode_utf8 raw = Ok w) raws ws ->
  Forall (fun w => startswith (py "WAITING") w = true) ws ->
  forall (w : str) (e : exn) (rest : list (result bytes)) (lines : list str),
    startswith (py "WAITING") w = true ->
    handshake_loop (map Ok raws ++ Raise e :: rest) w lines
    = HandshakeRaised e (lines ++ repeat waiting_line (S (length ws))).
Proof.
  induction 1 as [|raw w' raws ws Hdec _ IH]; intros Hws w e rest lines Hw.
  - cbn [map app length repeat handshake_loop].
    rewrite (waiting_is_not_ok _ Hw), Hw. reflexivity.
  - apply Forall_cons_iff in Hws. destruct Hws as [Hw' Hws].
    cbn [map app handshake_loop].
    rewrite (waiting_is_not_ok _ Hw), Hw, Hdec.
    rewrite (IH Hws w' e rest (lines ++ [waiting_line]) Hw').
    rewrite <- app_assoc. reflexivity.
Qed.

Section WholeCall.

Variable unicode_decimal : N -> option Z.
Variable clk : clock.
Variables connection_ID loss_rate corrupt_rate max_delay : str.

(** The call up to the first message that does not ask to wait: [waits] are
    the messages before it, [m] is that message. *)
Lemma start_receiver_reads_handshake
    (sock : socket_script) (hello : bytes)
    (raws : list bytes) (waits : list str) (m : str)
    (rest : list (result bytes)) :
  connect_reply sock = Ok tt ->
  encode_utf8 (hello_message connection_ID loss_rate corrupt_rate max_delay)
    = Ok hello ->
  hello_reply sock = Ok tt ->
  recv_replies sock = map Ok raws ++ rest ->
  Forall2 (fun raw w => decode_utf8 raw = Ok w) raws (waits ++ [m]) ->
  Forall (fun w => startswith (py "WAITING") w = true) waits ->
  start_receiver unicode_decimal clk sock
    connection_ID loss_rate corrupt_rate max_delay =
  let lines := handshake_lines clk (waits ++ [m]) in
  match handshake_loop rest m lines with
  | Established lines rest' =>
      after_loop clk
        (lines ++ [py "ESTABLISHED A CHANNEL @ " ++ t_established clk])
        hello
        (receive_loop unicode_decimal
           (passes rest' (sendall_replies sock)) initial)
  | Refused lines =>
      {| printed := lines; sent := [hello]; socket_closed := false;
         ended := Returned |}
  | HandshakeRaised e lines =>
      {| printed := lines; sent := [hello]; socket_closed := false;
         ended := Raised e |}
  | HandshakeBlocked lines =>
      {| printed := lines; sent := [hello]; socket_closed := false;
         ended := Blocked |}
  end.
Proof.
  intros Hc Hh Hs Hr Hdec Hw.
  unfold start_receiver. rewrite Hc, Hh, Hs, Hr. cbv zeta.
  destruct waits as [|w ws].
  - cbn [app] in Hdec. inversion Hdec as [|raw m' raws' l' Hm Hnil]; subst.
    inversion Hnil; subst.
    cbn [map app]. rewrite Hm. reflexivity.
  - cbn [app] in Hdec. inversion Hdec as [|raw w' raws' l' Hdw Htail]; subst.
    apply Forall_cons_iff in Hw. destruct Hw as [Hw Hws].
    apply Forall2_app_inv_r in Htail.
    destruct Htail as (raws1 & raws2 & H1 & H2 & ->).
    inversion H2 as [|raw_m m' r' l' Hm Hnil]; subst. inversion Hnil; subst.
    cbn [map app]. rewrite Hdw.
    rewrite map_app. cbn [map]. rewrite <- app_assoc. cbn [app].
    rewrite (handshake_skips_waiting raws1 ws H1 Hws w raw_m m rest _ Hw Hm).
    replace (handshake_lines clk (w :: ws ++ [m]))
      with ([py "START receiver - " ++ name ++ py " @ " ++ t_start clk;
             py "received: " ++ w] ++ repeat waiting_line (S (length ws))).
    + reflexivity.
    + unfold handshake_lines. cbn [hd length]. rewrite length_app.
      cbn [length]. f_equal. f_equal. lia.
Qed.

Lemma handshake_loop_ok (rest : list (result bytes)) (m : str) (lines : list str) :
  startswith (py "OK") m = true ->
  handshake_loop rest m lines = Established lines rest.
Proof. intros H. destruct rest; cbn [handshake_loop]; rewrite H; reflexivity. Qed.

Lemma handshake_loop_refuses (rest : list (result bytes)) (m : str)
    (lines : list str) :
  startswith (py "OK") m = false -> startswith (py "WAITING") m = false ->
  handshake_loop rest m lines
  = Refused (lines ++ [if startswith (py "ERROR") m then error_line m
                       else invalid_line m]).
Proof.
  intros H1 H2. destruct rest; cbn [handshake_loop]; rewrite H1, H2;
    destruct (startswith (py "ERROR") m); reflexivity.
Qed.

Lemma channel_established_lemma
    (sock : socket_script) (hello : bytes)
    (raws : list bytes) (waits : list str) (m : str)
    (rest : list (result bytes)) :
  connect_reply sock = Ok tt ->
  encode_utf8 (hello_message connection_ID loss_rate corrupt_rate max_delay)
    = Ok hello ->
  hello_reply sock = Ok tt ->
  recv_replies sock = map Ok raws ++ rest ->
  Forall2 (fun raw w => decode_utf8 raw = Ok w) raws (waits ++ [m]) ->
  Forall (fun w => startswith (py "WAITING") w = true) waits ->
  startswith (py "OK") m = true ->
  start_receiver unicode_decimal clk sock
    connection_ID loss_rate corrupt_rate max_delay =
  after_loop clk
    (handshake_lines clk (waits ++ [m])
       ++ [py "ESTABLISHED A CHANNEL @ " ++ t_established clk])
    hello
    (receive_loop unicode_decimal (passes rest (sendall_replies sock)) initial).
Proof.
  intros Hc Hh Hs Hr Hdec Hw Hok.
  rewrite (start_receiver_reads_handshake sock hello raws waits m rest
             Hc Hh Hs Hr Hdec Hw).
  cbv zeta. rewrite (handshake_loop_ok _ _ _ Hok). reflexivity.
Qed.

(** X17: when the server answers with any number of messages that begin
    with WAITING and then one that begins with OK, the receiver prints one
    line per WAITING message and the ESTABLISHED line and enters the data
    phase on the reads that follow; the call is then the data phase from the
    initial session. *)
Theorem channel_established
    (sock : socket_script) (hello : bytes)
    (raws : list bytes) (waits : list str) (m : str)
    (rest : list (result bytes)) :
  connect_reply sock = Ok tt ->
  encode_utf8 (hello_message connection_ID loss_rate corrupt_rate max_delay)
    = Ok hello ->
  hello_reply sock = Ok tt ->
  recv_replies sock = map Ok raws ++ rest ->
  Forall2 (fun raw w => decode_utf8 raw = Ok w) raws (waits ++ [m]) ->
  Forall (fun w => startswith (py "WAITING") w = true) waits ->
  startswith (py "OK") m = true ->
  start_receiver unicode_decimal clk sock
    connection_ID loss_rate corrupt_rate max_delay =
  after_loop clk
    (handshake_lines clk (waits ++ [m])
       ++ [py "ESTABLISHED A CHANNEL @ " ++ t_established clk])
    hello
    (receive_loop unicode_decimal (passes rest (sendall_replies sock)) initial).
Proof.
  apply channel_established_lemma.
Qed.

(** X18: when the first message that does not begin with WAITING does not
    begin with OK either, the call returns without entering the data phase:
    after the request nothing more is sent, the last line printed is the
    detail [recv_message[6:]] of an ERROR message or, for any other message
    (the empty one of a closed connection included), the invalid-message
    line; the socket is not closed. *)
Theorem handshake_refused
    (sock : socket_script) (hello : bytes)
    (raws : list bytes) (waits : list str) (m : str)
    (rest : list (result bytes)) :
  connect_reply sock = Ok tt ->
  encode_utf8 (hello_message connection_ID loss_rate corrupt_rate max_delay)
    = Ok hello ->
  hello_reply sock = Ok tt ->
  recv_replies sock = map Ok raws ++ rest ->
  Forall2 (fun raw w => decode_utf8 raw = Ok w) raws (waits ++ [m]) ->
  Forall (fun w => startswith (py "WAITING") w = true) waits ->
  startswith (py "OK") m = false ->
  startswith (py "WAITING") m = false ->
  start_receiver unicode_decimal clk sock
    connection_ID loss_rate corrupt_rate max_delay =
  {| printed := handshake_lines clk (waits ++ [m])
                  ++ [if startswith (py "ERROR") m
                      then py "Error: " ++ slice_from 6 m
                      else py "Error: Invalid message format from server during connection phrase... "
                             ++ m];
     sent := [hello]; socket_closed := false; ended := Returned |}.
Proof.
  intros Hc Hh Hs Hr Hdec Hw Hok Hwait.
  rewrite (start_receiver_reads_handshake sock hello raws waits m rest
             Hc Hh Hs Hr Hdec Hw).
  cbv zeta. rewrite (handshake_loop_refuses _ _ _ Hok Hwait). reflexivity.
Qed.

(** X19: an exception that [recv] raises during the handshake is not
    handled, [ConnectionAbortedError] included: after any number of WAITING
    messages it leaves [start_receiver], with the request sent, one line
    printed per WAITING message, and the socket not closed. *)
Theorem handshake_errors_propagate
    (sock : socket_script) (hello : bytes)
    (raws : list bytes) (waits : list str) (e : exn)
    (rest : list (result bytes)) :
  connect_reply sock = Ok tt ->
  encode_utf8 (hello_message connection_ID loss_rate corrupt_rate max_delay)
    = Ok hello ->
  hello_reply sock = Ok tt ->
  recv_replies sock = map Ok raws ++ Raise e :: rest ->
  Forall2 (fun raw w => decode_utf8 raw = Ok w) raws waits ->
  Forall (fun w => startswith (py "WAITING") w = true) waits ->
  start_receiver unicode_decimal clk sock
    connection_ID loss_rate corrupt_rate max_delay =
  {| printed :=
       (py "START receiver - " ++ name ++ py " @ " ++ t_start clk)
         :: match waits with
            | [] => []
            | w :: _ => (py "received: " ++ w)
                          :: repeat waiting_line (length waits)
            end;
     sent := [hello]; socket_closed := false; ended := Raised e |}.
Proof.
  intros Hc Hh Hs Hr Hdec Hw.
  unfold start_receiver. rewrite Hc, Hh, Hs, Hr. cbv zeta.
  inversion Hdec as [|raw w raws' ws Hdw Htail]; subst.
  - reflexivity.
  - apply Forall_cons_iff in Hw. destruct Hw as [Hw Hws].
    cbn [map app]. rewrite Hdw.
    rewrite (handshake_skips_to_raise raws' ws Htail Hws w e rest _ Hw).
    reflexivity.
Qed.

Lemma passes_from_app (a b : list (result bytes)) (f : nat -> result unit) (i : nat) :
  passes_from i (a ++ b) f
  = passes_from i a f ++ passes_from (i + length a) b f.
Proof.
  revert i; induction a as [|r a IH]; intros i; cbn [app passes_from length].
  - rewrite Nat.add_0_r. reflexivity.
  - rewrite IH. do 3 f_equal. lia.
Qed.

Lemma passes_from_delivered (raws : list bytes) (f : nat -> result unit) (i : nat) :
  (forall k, (i <= k < i + length raws)%nat -> f k = Ok tt) ->
  passes_from i (map Ok raws) f = map deliver raws.
Proof.
  revert i; induction raws as [|r raws IH]; intros i H; [reflexivity|].
  cbn [map passes_from length] in *. rewrite (H i) by lia.
  rewrite IH; [reflexivity|]. intros k Hk. apply H. lia.
Qed.

(** X20: a whole run of the script.  The server answers the request with
    WAITING messages and then OK; then come in-sequence packets with damaged
    messages and retransmissions between them, all answered, and the stream
    ends.  The script prints the handshake lines, ESTABLISHED, DONE, the
    checksum of the in-sequence payloads joined and trimmed, and the three
    totals; it has sent the request and one ack frame per read, closed the
    socket, and returned. *)
Theorem whole_run
    (prog : str) (sock : socket_script) (hello : bytes)
    (raws : list bytes) (waits : list str) (m : str)
    (data_raws : list bytes) (pkts : list str) (damaged : Z)
    (rest : list (result bytes)) :
  connect_reply sock = Ok tt ->
  encode_utf8 (hello_message connection_ID loss_rate corrupt_rate max_delay)
    = Ok hello ->
  hello_reply sock = Ok tt ->
  recv_replies sock = map Ok raws ++ map Ok data_raws ++ Ok [] :: rest ->
  (forall k, (k < length data_raws)%nat -> sendall_replies sock k = Ok tt) ->
  Forall2 (fun raw w => decode_utf8 raw = Ok w) raws (waits ++ [m]) ->
  Forall (fun w => startswith (py "WAITING") w = true) waits ->
  startswith (py "OK") m = true ->
  in_sequence unicode_decimal 0 data_raws pkts damaged ->
  exists (c : str) (acks : list bytes),
    checksum (rstrip_space (concat (map (slice 4 24) pkts))) = Ok c /\
    length acks = length data_raws /\
    Forall (fun w => w = frame0 \/ w = frame1) acks /\
    main unicode_decimal clk sock
      [prog; connection_ID; loss_rate; corrupt_rate; max_delay] =
    {| printed :=
         handshake_lines clk (waits ++ [m])
           ++ [py "ESTABLISHED A CHANNEL @ " ++ t_established clk;
               py "DONE receiver - " ++ name ++ py " @ " ++ t_done clk;
               py "File checksum: " ++ c;
               py "Total packet sent: "
                 ++ str_of_int (Z.of_nat (length data_raws));
               py "Total packet recv: "
                 ++ str_of_int (Z.of_nat (length data_raws));
               py "Total corrupted packet recv: " ++ str_of_int damaged];
       sent := hello :: acks;
       socket_closed := true;
       ended := Returned |}.
Proof.
  intros Hc Hh Hs Hr Hsend Hdec Hw Hok Hseq.
  destruct (in_sequence_from unicode_decimal 0 data_raws pkts damaged Hseq
              initial eq_refl)
    as (s & Hrun & Hd & Hrecv & Hsent & Hcorr & Hv & _).
  cbn in Hd, Hrecv, Hsent, Hcorr.
  destruct (encodable_rstrip _ (payloads_encodable pkts Hv)) as [b Hb].
  destruct (lockstep_from unicode_decimal _ _ _ Hrun) as (_ & _ & Hlen & _).
  rewrite length_map in Hlen. cbn in Hlen.
  assert (Hfit : replies_fit initial).
  { split; [left; reflexivity|]. split; [constructor|].
    intros [|x front] w E; discriminate. }
  pose proof (loop_replies_fit unicode_decimal (map deliver data_raws) initial Hfit)
    as (_ & Hframes & _).
  rewrite Hrun in Hframes. cbn [session_of] in Hframes.
  exists (format_05d (sum_bytes b)), (outbox s).
  split; [apply checksum_encoded; exact Hb|].
  split; [exact Hlen|]. split; [exact Hframes|].
  cbn [main].
  rewrite (channel_established_lemma sock hello raws waits m
             (map Ok data_raws ++ Ok [] :: rest) Hc Hh Hs Hr Hdec Hw Hok).
  unfold passes. rewrite passes_from_app, length_map.
  rewrite passes_from_delivered by (intros k Hk; apply Hsend; lia).
  cbn [passes_from]. rewrite receive_loop_app, Hrun.
  cbn [receive_loop]. unfold iteration, try_body, bind, call.
  cbn [recv_reply decode_utf8 str_eqb break_].
  unfold after_loop, finish. rewrite Hd, (checksum_encoded _ _ Hb).
  cbn [rbind]. unfold report_lines.
  cbn [file_checksum report_sent report_recv report_corrupted].
  rewrite Hsent, Hrecv, Hcorr, <- !app_assoc. reflexivity.
Qed.

End WholeCall.

(** ** What every call does *)

Section EveryCall.

Variable unicode_decimal : N -> option Z.
Variable clk : clock.
Variable sock : socket_script.
Variables connection_ID loss_rate corrupt_rate max_delay : str.

Lemma reachable_replies_fit (evs : list io) :
  replies_fit (session_of (receive_loop unicode_decimal evs initial)).
Proof.
  apply loop_replies_fit.
  split; [left; reflexivity|]. split; [constructor|].
  intros [|x front] w E; discriminate.
Qed.

Lemma after_loop_safe (lines : list str) (hello : bytes) (evs : list io) :
  let r := after_loop clk lines hello
             (receive_loop unicode_decimal evs initial) in
  (exists acks, sent r = hello :: acks /\
                Forall (fun w => w = frame0 \/ w = frame1) acks) /\
  (socket_closed r = true -> ended r = Returned).
Proof.
  cbv zeta.
  pose proof (reachable_replies_fit evs) as (_ & Hframes & _).
  pose proof (loop_keeps_encodable unicode_decimal evs initial) as Henc.
  destruct (receive_loop unicode_decimal evs initial) as [s|s|e s];
    cbn [session_of after_loop] in *.
  - split; [exists (outbox s); auto | discriminate].
  - destruct (finish_total s) as [r Hr]; [apply Henc; exists []; reflexivity|].
    rewrite Hr. cbn [sent socket_closed ended].
    split; [exists (outbox s); auto | reflexivity].
  - split; [exists (outbox s); auto | discriminate].
Qed.

(** X21: in every call of [start_receiver], whatever the server and the
    socket do, the first thing sent is the HELLO request built from the four
    arguments, and everything sent after it is one of the two ack frames; and the socket is closed only in calls that return: whenever an
    exception leaves the call, or it is left waiting, the socket is still
    open. *)
Theorem sends_request_then_acks :
  let r := start_receiver unicode_decimal clk sock
             connection_ID loss_rate corrupt_rate max_delay in
  (sent r = [] \/
   exists hello acks,
     encode_utf8
       (hello_message connection_ID loss_rate corrupt_rate max_delay)
       = Ok hello /\
     sent r = hello :: acks /\
     Forall (fun w => w = frame0 \/ w = frame1) acks) /\
  (socket_closed r = true -> ended r = Returned).
Proof.
  cbv zeta. unfold start_receiver. cbv zeta.
  destruct (connect_reply sock) as [[]|e].
  2:{ destruct (is_socket_error e); cbn [sent socket_closed ended];
        split; auto; discriminate. }
  destruct (encode_utf8
              (hello_message connection_ID loss_rate corrupt_rate max_delay))
    as [hello|e] eqn:Hh;
    [|cbn [sent socket_closed]; split; [left; reflexivity | discriminate]].
  assert (Hone : forall (e0 : ending),
            ([hello] = [] \/
             exists hello0 acks, Ok hello = Ok hello0 /\
               [hello] = hello0 :: acks /\
               Forall (fun w => w = frame0 \/ w = frame1) acks) /\
            (false = true -> e0 = Returned)).
  { intros. split; [|discriminate]. right. exists hello, [].
    repeat split. constructor. }
  destruct (hello_reply sock) as [[]|e];
    [|cbn [sent socket_closed]; split; [left; reflexivity | discriminate]].
  destruct (recv_replies sock) as [|[raw|e] rest];
    cbn [sent socket_closed ended]; try apply Hone.
  destruct (decode_utf8 raw) as [m|e]; cbn [sent socket_closed ended];
    try apply Hone.
  destruct (handshake_loop rest m _) as [lines rest'|lines|e lines|lines];
    cbn [sent socket_closed ended]; try apply Hone.
  destruct (after_loop_safe
              (lines ++ [py "ESTABLISHED A CHANNEL @ " ++ t_established clk])
              hello (passes rest' (sendall_replies sock)))
    as [(acks & Hs & Hf) Hclosed].
  split; [|exact Hclosed].
  right. exists hello, acks. auto.
Qed.

End EveryCall.

(** ** The further theorems at sample input *)

(** Two characters of the payload of [pkt_seq0] changed places. *)
Example transposition_goes_unnoticed :
  checksum_verifier (py "0 0 Taht was the time fo 02017") = Ok true.
Proof. vm_compute. reflexivity. Qed.

Lemma checksum_equal_iff_same_sum_witness :
  checksum (py "ad") = checksum (py "bc") <->
  sum_bytes (py "ad") = sum_bytes (py "bc").
Proof.
  apply (checksum_equal_iff_same_sum (py "ad") (py "bc"));
    vm_compute; reflexivity.
Defined.

Lemma checksum_ignores_order_witness :
  checksum (py "HELLO") = checksum (py "EHLLO").
Proof.
  apply (checksum_ignores_order (py "HELLO") (py "EHLLO")).
  apply perm_swap.
Defined.

Lemma same_field_verified_iff_same_sum_witness :
  (checksum_verifier (py "0 0 Taht was the time fo 02017") = Ok true <->
   sum_bytes (py "0 0 Taht was the time fo ")
   = sum_bytes (py "0 0 That was the time fo ")) /\
  (sum_bytes (py "0 0 Taht was the time fo ")
   <> sum_bytes (py "0 0 That was the time fo ") ->
   checksum_verifier (py "0 0 Taht was the time fo 02017") = Ok false).
Proof.
  apply (same_field_verified_iff_same_sum
           pkt_seq0 (py "0 0 Taht was the time fo 02017")
           (py "0 0 That was the time fo ") (py "0 0 Taht was the time fo ")).
  - vm_compute; reflexivity.
  - vm_compute. lia.
  - vm_compute; reflexivity.
  - vm_compute; reflexivity.
  - vm_compute; reflexivity.
Defined.

Lemma one_reply_per_packet_witness :
  total_packet_recv
    (session_of (receive_loop sample_decimal_table
                   (map deliver sample_traffic) initial)) = 4 /\
  total_packet_sent
    (session_of (receive_loop sample_decimal_table
                   (map deliver sample_traffic) initial)) = 4 /\
  length (outbox
    (session_of (receive_loop sample_decimal_table
                   (map deliver sample_traffic) initial))) = 4%nat /\
  Forall (fun ev => sendall_reply ev = Ok tt) (map deliver sample_traffic).
Proof.
  apply (one_reply_per_packet sample_decimal_table (map deliver sample_traffic)).
  vm_compute. reflexivity.
Defined.

Lemma sample_traffic_in_sequence :
  in_sequence sample_decimal_table 0 sample_traffic [pkt_seq0; pkt_seq1] 1.
Proof.
  unfold sample_traffic.
  apply (seq_damaged sample_decimal_table 0 pkt_damaged pkt_damaged _ _ 0);
    [vm_compute; reflexivity | discriminate | vm_compute; reflexivity |].
  apply (seq_next sample_decimal_table 0 pkt_seq0 pkt_seq0);
    [vm_compute; reflexivity ..|].
  apply (seq_repeat sample_decimal_table 1 pkt_seq0 pkt_seq0 0);
    [vm_compute; reflexivity .. | discriminate |].
  apply (seq_next sample_decimal_table 1 pkt_seq1 pkt_seq1);
    [vm_compute; reflexivity ..|].
  apply seq_end.
Defined.

Lemma retransmissions_leave_no_trace_witness :
  exists s,
    receive_loop sample_decimal_table (map deliver sample_traffic) initial
      = Waiting s /\
    data s = py "That was the time foThat was the time fo" /\
    total_packet_recv s = 4 /\
    total_packet_sent s = 4 /\
    total_corrupted_pkt_recv s = 1 /\
    ACK s = 0 /\
    SEQ s = 0.
Proof.
  apply (retransmissions_leave_no_trace sample_decimal_table
           sample_traffic [pkt_seq0; pkt_seq1] 1).
  exact sample_traffic_in_sequence.
Defined.

Lemma report_after_transfer_witness :
  exists c,
    checksum (rstrip_space (py "That was the time foThat was the time fo"))
      = Ok c /\
    receive_file sample_decimal_table
      (map deliver sample_traffic ++ [deliver []])
    = Reported {| file_checksum := c; report_sent := 4; report_recv := 4;
                  report_corrupted := 1 |}.
Proof.
  apply (report_after_transfer sample_decimal_table
           sample_traffic [pkt_seq0; pkt_seq1] 1 (Ok tt) []).
  exact sample_traffic_in_sequence.
Defined.

Lemma only_ascii_packets_verify_witness :
  (checksum_verifier pkt_seq1 = Ok true ->
   length pkt_seq1 = 30%nat /\ pkt_seq1 = pkt_seq1 /\ ascii_only pkt_seq1) /\
  (~ ascii_only pkt_seq1 -> checksum_verifier pkt_seq1 = Ok false).
Proof.
  apply (only_ascii_packets_verify pkt_seq1 pkt_seq1).
  - vm_compute. lia.
  - vm_compute. reflexivity.
Defined.

Lemma verified_can_arrive_witness :
  (exists raw, encode_utf8 pkt_seq1 = Ok raw /\ decode_utf8 raw = Ok pkt_seq1) /\
  ((exists raw, (length raw <= 30)%nat /\ decode_utf8 raw = Ok pkt_seq1) <->
   length pkt_seq1 = 30%nat /\ ascii_only pkt_seq1).
Proof.
  apply (verified_can_arrive pkt_seq1). vm_compute. reflexivity.
Defined.

(** A well-formed packet of 30 characters with one of them outside ASCII
    takes 31 bytes; one read returns the first 30 of them, and these no
    longer verify. *)
Example non_ascii_packet_is_corrupt :
  checksum_verifier
    (py "0 0 Il " ++ [0xE9%N] ++ py "tait une fois un 02287") = Ok true /\
  encode_utf8 (py "0 0 Il " ++ [0xE9%N] ++ py "tait une fois un 02287")
  = Ok (py "0 0 Il " ++ [0xC3; 0xA9]%N ++ py "tait une fois un 02287") /\
  (r <- decode_utf8
          (firstn 30 (py "0 0 Il " ++ [0xC3; 0xA9]%N
                        ++ py "tait une fois un 02287")) ;;
   checksum_verifier r)%result = Ok false.
Proof. vm_compute. repeat split. Qed.

Lemma channel_established_witness :
  start_receiver sample_decimal_table sample_clock
    (sample_server (map Ok sample_traffic ++ [Ok []]))
    (py "1234") (py "0.1") (py "0.2") (py "0") =
  after_loop sample_clock
    (handshake_lines sample_clock
       ([py "WAITING for a sender"] ++ [py "OK channel is open"])
       ++ [py "ESTABLISHED A CHANNEL @ " ++ t_established sample_clock])
    (py "HELLO R 0.1 0.2 0 1234")
    (receive_loop sample_decimal_table
       (passes (map Ok sample_traffic ++ [Ok []])
          (sendall_replies (sample_server (map Ok sample_traffic ++ [Ok []]))))
       initial).
Proof.
  apply (channel_established sample_decimal_table sample_clock
           (py "1234") (py "0.1") (py "0.2") (py "0")
           (sample_server (map Ok sample_traffic ++ [Ok []]))
           (py "HELLO R 0.1 0.2 0 1234")
           [py "WAITING for a sender"; py "OK channel is open"]
           [py "WAITING for a sender"] (py "OK channel is open")
           (map Ok sample_traffic ++ [Ok []])).
  - reflexivity.
  - vm_compute; reflexivity.
  - reflexivity.
  - reflexivity.
  - repeat constructor.
  - repeat constructor.
  - vm_compute; reflexivity.
Defined.

(** A server that reports an error after asking to wait. *)
Lemma handshake_refused_witness :
  start_receiver sample_decimal_table sample_clock
    {| connect_reply := Ok tt; connect_error_text := [];
       hello_reply := Ok tt;
       recv_replies := map Ok [py "WAITING"; py "ERROR no such connection"];
       sendall_replies := fun _ => Ok tt |}
    (py "1234") (py "0.1") (py "0.2") (py "0") =
  {| printed :=
       [py "START receiver - Ido @ 2023-01-30 10:00:00.000001";
        py "received: WAITING";
        py "Waiting for a sender";
        py "Error: no such connection"];
     sent := [py "HELLO R 0.1 0.2 0 1234"];
     socket_closed := false; ended := Returned |}.
Proof.
  apply (handshake_refused sample_decimal_table sample_clock
           (py "1234") (py "0.1") (py "0.2") (py "0")
           {| connect_reply := Ok tt; connect_error_text := [];
              hello_reply := Ok tt;
              recv_replies := map Ok [py "WAITING"; py "ERROR no such connection"];
              sendall_replies := fun _ => Ok tt |}
           (py "HELLO R 0.1 0.2 0 1234")
           [py "WAITING"; py "ERROR no such connection"]
           [py "WAITING"] (py "ERROR no such connection") []).
  - reflexivity.
  - vm_compute; reflexivity.
  - reflexivity.
  - reflexivity.
  - repeat constructor.
  - repeat constructor.
  - vm_compute; reflexivity.
  - vm_compute; reflexivity.
Defined.

Lemma handshake_errors_propagate_witness :
  start_receiver sample_decimal_table sample_clock
    {| connect_reply := Ok tt; connect_error_text := [];
       hello_reply := Ok tt;
       recv_replies := map Ok [py "WAITING"] ++ [Raise ConnectionAbortedError];
       sendall_replies := fun _ => Ok tt |}
    (py "1234") (py "0.1") (py "0.2") (py "0") =
  {| printed :=
       [py "START receiver - Ido @ 2023-01-30 10:00:00.000001";
        py "received: WAITING";
        py "Waiting for a sender"];
     sent := [py "HELLO R 0.1 0.2 0 1234"];
     socket_closed := false; ended := Raised ConnectionAbortedError |}.
Proof.
  apply (handshake_errors_propagate sample_decimal_table sample_clock
           (py "1234") (py "0.1") (py "0.2") (py "0")
           {| connect_reply := Ok tt; connect_error_text := [];
              hello_reply := Ok tt;
              recv_replies := map Ok [py "WAITING"] ++ [Raise ConnectionAbortedError];
              sendall_replies := fun _ => Ok tt |}
           (py "HELLO R 0.1 0.2 0 1234")
           [py "WAITING"] [py "WAITING"] ConnectionAbortedError []).
  - reflexivity.
  - vm_compute; reflexivity.
  - reflexivity.
  - reflexivity.
  - repeat constructor.
  - repeat constructor.
Defined.

Lemma whole_run_witness :
  exists (c : str) (acks : list bytes),
    checksum (rstrip_space (py "That was the time foThat was the time fo"))
      = Ok c /\
    length acks = 4%nat /\
    Forall (fun w => w = frame0 \/ w = frame1) acks /\
    main sample_decimal_table sample_clock
      (sample_server (map Ok sample_traffic ++ [Ok []]))
      [py "receiver.py"; py "1234"; py "0.1"; py "0.2"; py "0"] =
    {| printed :=
         [py "START receiver - Ido @ 2023-01-30 10:00:00.000001";
          py "received: WAITING for a sender";
          py "Waiting for a sender";
          py "ESTABLISHED A CHANNEL @ 2023-01-30 10:00:02.500000";
          py "DONE receiver - Ido @ 2023-01-30 10:00:03.250000";
          py "File checksum: " ++ c;
          py "Total packet sent: 4";
          py "Total packet recv: 4";
          py "Total corrupted packet recv: 1"];
       sent := py "HELLO R 0.1 0.2 0 1234" :: acks;
       socket_closed := true;
       ended := Returned |}.
Proof.
  apply (whole_run sample_decimal_table sample_clock
           (py "1234") (py "0.1") (py "0.2") (py "0")
           (py "receiver.py")
           (sample_server (map Ok sample_traffic ++ [Ok []]))
           (py "HELLO R 0.1 0.2 0 1234")
           [py "WAITING for a sender"; py "OK channel is open"]
           [py "WAITING for a sender"] (py "OK channel is open")
           sample_traffic [pkt_seq0; pkt_seq1] 1 []).
  - reflexivity.
  - vm_compute; reflexivity.
  - reflexivity.
  - reflexivity.
  - intros k _. reflexivity.
  - repeat constructor.
  - repeat constructor.
  - vm_compute; reflexivity.
  - exact sample_traffic_in_sequence.
Defined.

(** The same run, computed. *)
Example whole_run_computed :
  main sample_decimal_table sample_clock
    (sample_server (map Ok sample_traffic ++ [Ok []]))
    [py "receiver.py"; py "1234"; py "0.1"; py "0.2"; py "0"] =
  {| printed :=
       [py "START receiver - Ido @ 2023-01-30 10:00:00.000001";
        py "received: WAITING for a sender";
        py "Waiting for a sender";
        py "ESTABLISHED A CHANNEL @ 2023-01-30 10:00:02.500000";
        py "DONE receiver - Ido @ 2023-01-30 10:00:03.250000";
        py "File checksum: 03650";
        py "Total packet sent: 4";
        py "Total packet recv: 4";
        py "Total corrupted packet recv: 1"];
     sent := [py "HELLO R 0.1 0.2 0 1234"; frame1; frame0; frame0; frame1];
     socket_closed := true;
     ended := Returned |}.
Proof. vm_compute. reflexivity. Qed.

(** Too few arguments, and a connection that cannot be made. *)
Example main_usage :
  main sample_decimal_table sample_clock (sample_server [])
    [py "receiver.py"; py "1234"] =
  {| printed := [usage]; sent := []; socket_closed := false;
     ended := SystemExit |}.
Proof. reflexivity. Qed.

Example connection_refused :
  start_receiver sample_decimal_table sample_clock
    {| connect_reply := Raise TimeoutError;
       connect_error_text := py "timed out";
       hello_reply := Ok tt; recv_replies := [];
       sendall_replies := fun _ => Ok tt |}
    (py "1234") (py "0.1") (py "0.2") (py "0") =
  {| printed := [py "START receiver - Ido @ 2023-01-30 10:00:00.000001";
                 py "Connection error: timed out"];
     sent := []; socket_closed := true; ended := Returned |}.
Proof. vm_compute. reflexivity. Qed.
